(** * Order-payment reconciliation: the payment controller, the Paystack
      service and the Payment model, embedded as state-passing functions.

    Sources embedded here
    - [src/models/Payment.js]              the Payment schema and its validators
    - [services/paystack.js]               the gateway client
    - [controllers/paymentController.js]   initializePayment, verifyPayment,
                                           handleWebhook and its two helpers

    Conventions
    - a JavaScript [Number] is a binary64 float ([PrimFloat.float]);
    - an [async] function is a function from the persistent world to an
      outcome (a value or a thrown error) and the world it leaves behind:
      writes made before a [throw] stay made;
    - the world records the two collections and a trace of every outward
      effect (gateway requests, log lines, document writes), in order;
    - the gateway and the clock are inputs of the call that consults them. *)

From Stdlib Require Import Floats ZArith Lia.
From stdpp Require Import base option list strings gmap pretty sorting.

Open Scope string_scope.
Open Scope list_scope.

(** ** JavaScript values *)

Definition Number := float.

(** The [Date] built by [new Date(text)]; kept symbolic. *)
Inductive JsDate := new_Date (text : string).

Record JsError := { err_name : string; err_message : string }.

(** [a || b] on an optional string: [undefined] and the empty string are
    falsy. *)
Definition js_or (a : option string) (b : string) : string :=
  match a with
  | Some s => if decide (s = "") then b else s
  | None => b
  end.

(** ** Math.round on binary64

    The integral Number closest to [x], ties going towards +infinity; a NaN,
    an infinity, a zero or an already integral value is returned as it is. *)

Definition Z2Number (n : Z) : Number :=
  SF2Prim (binary_normalize prec emax n 0 false).

(** [floor (sm * 2^e + 1/2)] for [e < 0], in integers. *)
Definition round_half_up (sm e : Z) : Z :=
  (2 * sm + 2 ^ (- e)) / 2 ^ (1 - e).

Definition Math_round (x : Number) : Number :=
  match Prim2SF x with
  | S754_finite s m e =>
      if (0 <=? e)%Z then x
      else
        let n := round_half_up (if s then Z.neg m else Z.pos m) e in
        if (n =? 0)%Z then (if s then (-0)%float else 0%float) else Z2Number n
  | _ => x
  end.

(** ** Documents *)

Inductive PaymentStatus := pending | success | failed | abandoned.

#[global] Instance PaymentStatus_eq_dec : EqDecision PaymentStatus.
Proof. solve_decision. Defined.

(** The charge object of the gateway: the [data] of a verification response
    and of a webhook event. Only the members the controller reads are kept. *)
Record ChargeData := {
  cd_id : option Z;
  cd_reference : string;
  cd_status : string;
  cd_gateway_response : option string;
  cd_channel : option string;
  cd_paid_at : string;
  cd_customer_email : option string;
}.

(** The [data] of an initialization response. *)
Record InitData := {
  authorization_url : string;
  access_code : string;
}.

Inductive PaystackData :=
  | InitPayload (d : InitData)
  | ChargePayload (d : ChargeData).

Definition Metadata := list (string * string).

Module Payment.

Record t := mk {
  user : string;
  order : string;
  reference : string;
  amount : Number;
  currency : string;
  status : PaymentStatus;
  paymentMethod : option string;
  channel : option string;
  gatewayResponse : option string;
  paidAt : option JsDate;
  paystackData : option PaystackData;
  metadata : Metadata;
}.

(** [enum] of the [currency] path. *)
Definition currency_enum : list string := ["NGN"; "GHS"; "ZAR"; "USD"].

(** [enum] of the [paymentMethod] path. *)
Definition paymentMethod_enum : list string :=
  ["card"; "bank"; "ussd"; "qr"; "mobile_money"; "bank_transfer"].

(** [min: [0, 'Amount cannot be negative']]. *)
Definition amount_ok (a : Number) : bool := (0 <=? a)%float.

Definition currency_ok (c : string) : bool :=
  bool_decide (c ∈ currency_enum).

(** An enum validator accepts an absent value. *)
Definition paymentMethod_ok (m : option string) : bool :=
  match m with
  | None => true
  | Some s => bool_decide (s ∈ paymentMethod_enum)
  end.

(** Every validator of the schema that can refuse a document the controller
    builds: [status] is assigned enum members only and the required paths
    are always present. *)
Definition validate (p : t) : bool :=
  amount_ok (amount p) && currency_ok (currency p)
  && paymentMethod_ok (paymentMethod p).

(** The paths a validator refuses, for the error message. *)
Definition invalid_paths (p : t) : list string :=
  (if amount_ok (amount p) then [] else ["amount"])
  ++ (if currency_ok (currency p) then [] else ["currency"])
  ++ (if paymentMethod_ok (paymentMethod p) then [] else ["paymentMethod"]).

Definition isSuccessful (p : t) : bool := bool_decide (status p = success).
Definition isPending (p : t) : bool := bool_decide (status p = pending).
Definition hasFailed (p : t) : bool :=
  bool_decide (status p = failed) || bool_decide (status p = abandoned).

End Payment.

Arguments Payment.validate : simpl never.

Record PaymentResult := {
  pr_id : option Z;
  pr_status : string;
  pr_updateTime : string;
  pr_emailAddress : option string;
}.

Module Order.

(** Modelled from the spec: the Order schema ([models/Order.js] is not among
    the sources). The record has the members the payment controller reads
    and writes; the spec's Order carries an owning user, a total, the [paid]
    flag and the nullable [paidAt]. *)
Record t := mk {
  _id : string;
  user : string;
  totalPrice : Number;
  isPaid : bool;
  paidAt : option JsDate;
  paymentMethod : option string;
  paystackReference : option string;
  paymentResult : option PaymentResult;
}.

End Order.

(** ** The world *)

Inductive LogLevel := info | warn | error.

(** What [paystack.transaction.initialize] is called with. *)
Record InitRequest := {
  rq_email : string;
  rq_amount : Number;
  rq_reference : string;
  rq_currency : string;
  rq_metadata : Metadata;
  rq_callback_url : option string;
}.

Inductive Event :=
  | Logged (level : LogLevel) (line : string)
  | GatewayInitialize (rq : InitRequest)
  | GatewayVerify (reference : string)
  | PaymentCreated (i : nat)
  | PaymentSaved (i : nat)
  | OrderSaved (id : string).

Record World := {
  payments : list Payment.t;
  orders : gmap string Order.t;
  trace : list Event;
}.

Definition emit (ev : Event) (w : World) : World :=
  {| payments := payments w; orders := orders w; trace := trace w ++ [ev] |}.

(** ** Async functions *)

Inductive Outcome (A : Type) :=
  | Returned (a : A)
  | Threw (e : JsError).
Arguments Returned {A} a.
Arguments Threw {A} e.

Definition Async (A : Type) : Type := World → Outcome A * World.

#[global] Instance Async_ret : MRet Async := λ A a w, (Returned a, w).

#[global] Instance Async_bind : MBind Async := λ A B f m w,
  match m w with
  | (Returned a, w') => f a w'
  | (Threw e, w') => (Threw e, w')
  end.

Definition throw {A} (e : JsError) : Async A := λ w, (Threw e, w).

(** [try { body } catch (error) { handler error }]. *)
Definition try_catch {A} (body : Async A) (handler : JsError → Async A)
  : Async A := λ w,
  match body w with
  | (Returned a, w') => (Returned a, w')
  | (Threw e, w') => handler e w'
  end.

Definition logger (level : LogLevel) (line : string) : Async unit :=
  λ w, (Returned (), emit (Logged level line) w).

Definition TypeError (msg : string) : JsError :=
  {| err_name := "TypeError"; err_message := msg |}.

Definition Error (msg : string) : JsError :=
  {| err_name := "Error"; err_message := msg |}.

(** ** Mongoose: the queries and writes the controller issues

    A stored Payment is addressed by its position in the collection (its
    identity: rows are never deleted or reordered); [findOne] yields the first
    match. Orders are keyed by [_id]. *)

Definition Payment_findOne (P : Payment.t → Prop) `{!∀ p, Decision (P p)}
  : Async (option (nat * Payment.t)) :=
  λ w, (Returned (list_find P (payments w)), w).

Definition ValidationError (paths : list string) : JsError :=
  {| err_name := "ValidationError";
     err_message := "Payment validation failed: " +:+ String.concat ", " paths |}.

Definition DuplicateKeyError : JsError :=
  {| err_name := "MongoServerError";
     err_message := "E11000 duplicate key error: reference" |}.

(** [Payment.create(doc)]: the schema's validators run, then the insert,
    which the unique index on [reference] can refuse. *)
Definition Payment_create (doc : Payment.t) : Async Payment.t := λ w,
  if negb (Payment.validate doc)
  then (Threw (ValidationError (Payment.invalid_paths doc)), w)
  else if bool_decide (Payment.reference doc ∈ Payment.reference <$> payments w)
  then (Threw DuplicateKeyError, w)
  else
    (Returned doc,
     emit (PaymentCreated (length (payments w)))
       {| payments := payments w ++ [doc]; orders := orders w;
          trace := trace w |}).

(** [payment.save()] on a loaded document: the validators run on the
    document as it now is (the paths loaded from the store as well as the
    modified ones), then the row is written back. *)
Definition Payment_save (i : nat) (doc : Payment.t) : Async unit := λ w,
  if negb (Payment.validate doc)
  then (Threw (ValidationError (Payment.invalid_paths doc)), w)
  else
    match payments w !! i with
    | None => (Threw (Error "DocumentNotFoundError"), w)
    | Some _ =>
        (Returned (),
         emit (PaymentSaved i)
           {| payments := <[i := doc]> (payments w); orders := orders w;
              trace := trace w |})
    end.

Definition Order_findById (id : string) : Async (option Order.t) :=
  λ w, (Returned (orders w !! id), w).

(** [order.save()]: the document is written back under its [_id]. *)
Definition Order_save (o : Order.t) : Async unit := λ w,
  (Returned (),
   emit (OrderSaved (Order._id o))
     {| payments := payments w; orders := <[Order._id o := o]> (orders w);
        trace := trace w |}).

(** ** The gateway (the [paystack] package): an input of the calls *)

Inductive Promise (A : Type) :=
  | Resolved (a : A)
  | Rejected (message : string).
Arguments Resolved {A} a.
Arguments Rejected {A} message.

Record InitResponse := {
  ir_status : bool;
  ir_data : option InitData;
}.

Record VerifyResponse := {
  vr_status : bool;
  vr_data : option ChargeData;
}.

Record Gateway := {
  transaction_initialize : InitRequest → Promise InitResponse;
  transaction_verify : string → Promise VerifyResponse;
}.

Definition call_initialize (gw : Gateway) (rq : InitRequest)
  : Async InitResponse := λ w,
  match transaction_initialize gw rq with
  | Resolved r => (Returned r, emit (GatewayInitialize rq) w)
  | Rejected msg => (Threw (Error msg), emit (GatewayInitialize rq) w)
  end.

Definition call_verify (gw : Gateway) (reference : string)
  : Async VerifyResponse := λ w,
  match transaction_verify gw reference with
  | Resolved r => (Returned r, emit (GatewayVerify reference) w)
  | Rejected msg => (Threw (Error msg), emit (GatewayVerify reference) w)
  end.

Record WebhookBody := {
  event : string;
  data : ChargeData;
}.

(** ** services/paystack.js *)

Module paystackService.
Section Service.

(** [process.env] and the two library functions of the signature check. *)
Variable PAYSTACK_WEBHOOK_SECRET PAYSTACK_SECRET_KEY : option string.
Variable hmac_sha512_hex : string → string → string.
Variable JSON_stringify : WebhookBody → string.

Definition toKobo (amount : Number) : Number :=
  Math_round (amount * 100)%float.

Definition fromKobo (amount : Number) : Number := (amount / 100)%float.

Record InitParams := {
  email : string;
  amount : Number;
  reference : string;
  currency : option string;
  metadata : option Metadata;
  callback_url : option string;
}.

Definition initializeTransaction (gw : Gateway) (params : InitParams)
  : Async InitResponse :=
  try_catch
    (response ← call_initialize gw
       {| rq_email := email params;
          rq_amount := Math_round (amount params * 100)%float;
          rq_reference := reference params;
          rq_currency := default "NGN" (currency params);
          rq_metadata := default [] (metadata params);
          rq_callback_url := callback_url params |};
     logger info ("Payment initialized: " +:+ reference params);;
     mret response)
    (λ e,
     logger error ("Paystack initialization error: " +:+ err_message e);;
     throw (Error ("Payment initialization failed: " +:+ err_message e))).

Definition verifyTransaction (gw : Gateway) (reference : string)
  : Async VerifyResponse :=
  try_catch
    (response ← call_verify gw reference;
     match vr_data response with
     | None =>
         throw (TypeError "Cannot read properties of undefined (reading 'status')")
     | Some d =>
         logger info ("Payment verified: " +:+ reference +:+ " - Status: "
                      +:+ cd_status d);;
         mret response
     end)
    (λ e,
     logger error ("Paystack verification error: " +:+ err_message e);;
     throw (Error ("Payment verification failed: " +:+ err_message e))).

(** [process.env.PAYSTACK_WEBHOOK_SECRET || process.env.PAYSTACK_SECRET_KEY] *)
Definition webhook_secret : option string :=
  match PAYSTACK_WEBHOOK_SECRET with
  | Some s => if decide (s = "") then PAYSTACK_SECRET_KEY else Some s
  | None => PAYSTACK_SECRET_KEY
  end.

(** [crypto.createHmac] throws on a key that is not a string; [hash ===
    signature] is false for an absent header. *)
Definition validateWebhookSignature (signature : option string)
    (body : WebhookBody) : Outcome bool :=
  match webhook_secret with
  | None => Threw (TypeError "The 'key' argument must be of type string")
  | Some secret =>
      let hash := hmac_sha512_hex secret (JSON_stringify body) in
      Returned (bool_decide (Some hash = signature))
  end.

End Service.
End paystackService.

(** ** controllers/paymentController.js *)

(** [new AppError(message, statusCode)], handed to [next]. *)
Record AppError := { message : string; statusCode : nat }.

(** [req.user] *)
Record User := { u_id : string; u_email : string; u_name : string }.

(** [req.validatedData] of [POST /api/payments/initialize] *)
Record InitializeData := {
  orderId : string;
  email : option string;
  currency : option string;
  metadata : Metadata;
  callback_url : option string;
}.

(** The JSON body of a response; [status] is ['success'] in all of them. *)
Record Body := {
  b_message : string;
  b_payment : option Payment.t;
  b_authorizationUrl : option string;
  b_accessCode : option string;
  b_reference : option string;
}.

(** How a handler ends: [res.status(code).json(body)] or [next(err)]. *)
Inductive Reply :=
  | json (code : nat) (body : Body)
  | next (err : AppError).

Definition status_text (s : PaymentStatus) : string :=
  match s with
  | pending => "pending"
  | success => "success"
  | failed => "failed"
  | abandoned => "abandoned"
  end.

(** [existingPayment.paystackData?.authorization_url] *)
Definition stored_authorization_url (p : Payment.t) : option string :=
  match Payment.paystackData p with
  | Some (InitPayload d) => Some (authorization_url d)
  | _ => None
  end.

(** The two query filters of the controller:
    [{ order: orderId, status: { $in: ['pending', 'success'] } }] and
    [{ reference }]. *)
Definition active (oid : string) (p : Payment.t) : Prop :=
  Payment.order p = oid ∧ Payment.status p ∈ [pending; success].

#[global] Instance active_dec oid p : Decision (active oid p).
Proof. unfold active. apply _. Defined.

Definition has_reference (r : string) (p : Payment.t) : Prop :=
  Payment.reference p = r.

#[global] Instance has_reference_dec r p : Decision (has_reference r p).
Proof. unfold has_reference. apply _. Defined.

Module paymentController.
Section Controller.

Variable PAYSTACK_WEBHOOK_SECRET PAYSTACK_SECRET_KEY : option string.
Variable hmac_sha512_hex : string → string → string.
Variable JSON_stringify : WebhookBody → string.

Definition initializePayment (gw : Gateway) (Date_now : N) (user : User)
    (validatedData : InitializeData) : Async Reply :=
  let orderId := orderId validatedData in
  order ← Order_findById orderId;
  match order with
  | None => mret (next {| message := "Order not found"; statusCode := 404 |})
  | Some order =>
    if bool_decide (Order.user order ≠ u_id user) then
      mret (next {| message := "Not authorized to pay for this order";
                    statusCode := 403 |})
    else if Order.isPaid order then
      mret (next {| message := "Order is already paid"; statusCode := 400 |})
    else
      existingPayment ← Payment_findOne (active orderId);
      match existingPayment with
      | Some (_, existingPayment) =>
        if bool_decide (Payment.status existingPayment = success) then
          mret (next {| message := "Payment already completed for this order";
                        statusCode := 400 |})
        else
          mret (json 200
            {| b_message := "Payment already initialized";
               b_payment := Some existingPayment;
               b_authorizationUrl := stored_authorization_url existingPayment;
               b_accessCode := None;
               b_reference := Some (Payment.reference existingPayment) |})
      | None =>
        let reference := "ORDER-" +:+ orderId +:+ "-" +:+ pretty Date_now in
        paystackResponse ← paystackService.initializeTransaction gw
          {| paystackService.email := js_or (email validatedData) (u_email user);
             paystackService.amount := Order.totalPrice order;
             paystackService.reference := reference;
             paystackService.currency :=
               Some (js_or (currency validatedData) "NGN");
             paystackService.metadata :=
               Some ([("orderId", orderId); ("userId", u_id user);
                      ("userName", u_name user)]
                     ++ metadata validatedData)%list;
             paystackService.callback_url := callback_url validatedData |};
        if negb (ir_status paystackResponse) then
          mret (next {| message := "Failed to initialize payment";
                        statusCode := 500 |})
        else
          match ir_data paystackResponse with
          | None =>
            throw (TypeError
              "Cannot read properties of undefined (reading 'authorization_url')")
          | Some d =>
            payment ← Payment_create
              {| Payment.user := u_id user;
                 Payment.order := orderId;
                 Payment.reference := reference;
                 Payment.amount := Order.totalPrice order;
                 Payment.currency := js_or (currency validatedData) "NGN";
                 Payment.status := pending;
                 Payment.paymentMethod := None;
                 Payment.channel := None;
                 Payment.gatewayResponse := None;
                 Payment.paidAt := None;
                 Payment.paystackData := Some (InitPayload d);
                 Payment.metadata :=
                   ([("orderId", orderId); ("userId", u_id user)]
                    ++ metadata validatedData)%list |};
            mret (json 201
              {| b_message := "Payment initialized successfully";
                 b_payment := Some payment;
                 b_authorizationUrl := Some (authorization_url d);
                 b_accessCode := Some (access_code d);
                 b_reference := Some reference |})
          end
      end
  end.

(** The assignments [verifyPayment] and [handleSuccessfulCharge] make to
    the loaded payment from the charge object. *)
Definition assign_charge (st : PaymentStatus) (paid : option JsDate)
    (d : ChargeData) (payment : Payment.t) : Payment.t :=
  {| Payment.user := Payment.user payment;
     Payment.order := Payment.order payment;
     Payment.reference := Payment.reference payment;
     Payment.amount := Payment.amount payment;
     Payment.currency := Payment.currency payment;
     Payment.status := st;
     Payment.paymentMethod := cd_channel d;
     Payment.channel := cd_channel d;
     Payment.gatewayResponse := cd_gateway_response d;
     Payment.paidAt := paid;
     Payment.paystackData := Some (ChargePayload d);
     Payment.metadata := Payment.metadata payment |}.

(** The assignments both success paths make to the loaded order. *)
Definition mark_paid (reference : string) (d : ChargeData) (order : Order.t)
  : Order.t :=
  {| Order._id := Order._id order;
     Order.user := Order.user order;
     Order.totalPrice := Order.totalPrice order;
     Order.isPaid := true;
     Order.paidAt := Some (new_Date (cd_paid_at d));
     Order.paymentMethod := Some "paystack";
     Order.paystackReference := Some reference;
     Order.paymentResult :=
       Some {| pr_id := cd_id d; pr_status := cd_status d;
               pr_updateTime := cd_paid_at d;
               pr_emailAddress := cd_customer_email d |} |}.

Definition verified_body (msg : string) (payment : Payment.t) : Body :=
  {| b_message := msg; b_payment := Some payment;
     b_authorizationUrl := None; b_accessCode := None;
     b_reference := None |}.

(** [.populate('order')] loads the order into the found document for the
    reply; the controller reads [payment.order] only as the key it hands to
    [Order.findById]. *)
Definition verifyPayment (gw : Gateway) (user : User) (reference : string)
  : Async Reply :=
  found ← Payment_findOne (has_reference reference);
  match found with
  | None => mret (next {| message := "Payment not found"; statusCode := 404 |})
  | Some (i, payment) =>
    if bool_decide (Payment.user payment ≠ u_id user) then
      mret (next {| message := "Not authorized to verify this payment";
                    statusCode := 403 |})
    else if bool_decide (Payment.status payment = success) then
      mret (json 200 (verified_body "Payment already verified" payment))
    else
      verificationResponse ← paystackService.verifyTransaction gw reference;
      if negb (vr_status verificationResponse) then
        mret (next {| message := "Payment verification failed";
                      statusCode := 500 |})
      else
        match vr_data verificationResponse with
        | None =>
          throw (TypeError
            "Cannot read properties of undefined (reading 'status')")
        | Some d =>
          payment ←
            (if bool_decide (cd_status d = "success") then
               let payment :=
                 assign_charge success (Some (new_Date (cd_paid_at d))) d
                   payment in
               order ← Order_findById (Payment.order payment);
               match order with
               | Some order =>
                   Order_save (mark_paid reference d order);;
                   mret payment
               | None => mret payment
               end
             else
               mret (assign_charge failed (Payment.paidAt payment) d payment));
          Payment_save i payment;;
          mret (json 200
            (verified_body ("Payment " +:+ status_text (Payment.status payment))
               payment))
        end
  end.

Definition handleSuccessfulCharge (d : ChargeData) : Async unit :=
  found ← Payment_findOne (has_reference (cd_reference d));
  match found with
  | None =>
    logger warn ("Payment not found for reference: " +:+ cd_reference d)
  | Some (i, payment) =>
    let payment :=
      assign_charge success (Some (new_Date (cd_paid_at d))) d payment in
    Payment_save i payment;;
    order ← Order_findById (Payment.order payment);
    match order with
    | Some order =>
      if negb (Order.isPaid order) then
        Order_save (mark_paid (cd_reference d) d order);;
        logger info ("Order " +:+ Order._id order
                     +:+ " marked as paid via webhook")
      else mret ()
    | None => mret ()
    end
  end.

Definition handleFailedCharge (d : ChargeData) : Async unit :=
  found ← Payment_findOne (has_reference (cd_reference d));
  match found with
  | None =>
    logger warn ("Payment not found for reference: " +:+ cd_reference d)
  | Some (i, payment) =>
    Payment_save i
      {| Payment.user := Payment.user payment;
         Payment.order := Payment.order payment;
         Payment.reference := Payment.reference payment;
         Payment.amount := Payment.amount payment;
         Payment.currency := Payment.currency payment;
         Payment.status := failed;
         Payment.paymentMethod := Payment.paymentMethod payment;
         Payment.channel := Payment.channel payment;
         Payment.gatewayResponse := cd_gateway_response d;
         Payment.paidAt := Payment.paidAt payment;
         Payment.paystackData := Some (ChargePayload d);
         Payment.metadata := Payment.metadata payment |};;
    logger info ("Payment " +:+ pretty i +:+ " marked as failed via webhook")
  end.

Definition webhook_body : Body :=
  {| b_message := "Webhook processed"; b_payment := None;
     b_authorizationUrl := None; b_accessCode := None;
     b_reference := None |}.

Definition handleWebhook (signature : option string) (body : WebhookBody)
  : Async Reply :=
  valid ← (λ w, (paystackService.validateWebhookSignature
                   PAYSTACK_WEBHOOK_SECRET PAYSTACK_SECRET_KEY
                   hmac_sha512_hex JSON_stringify signature body, w));
  if negb valid then
    logger warn "Invalid webhook signature received";;
    mret (next {| message := "Invalid signature"; statusCode := 400 |})
  else
    let event := event body in
    let d := data body in
    logger info ("Webhook received: " +:+ event +:+ " - Reference: "
                 +:+ cd_reference d);;
    (if decide (event = "charge.success") then handleSuccessfulCharge d
     else if decide (event = "charge.failed") then handleFailedCharge d
     else if decide (event = "transfer.success" ∨ event = "transfer.failed")
     then logger info ("Transfer event received: " +:+ event)
     else logger info ("Unhandled webhook event: " +:+ event));;
    mret (json 200 webhook_body).

End Controller.
End paymentController.

(** * Vocabulary of the properties *)

Import paymentController.

(** The ledger invariant of the data model: at most one payment in [pending]
    or [success] state per order. *)
Definition one_active (oid : string) (ledger : list Payment.t) : Prop :=
  ∀ i j p q, ledger !! i = Some p → ledger !! j = Some q →
    active oid p → active oid q → i = j.

(** The gateway's initialization step fails: the promise rejects (transport
    error, 5xx) or resolves to a response whose [status] is false. *)
Definition init_fails (p : Promise InitResponse) : Prop :=
  match p with
  | Resolved r => ir_status r = false
  | Rejected _ => True
  end.

(** The handler ended in an error handed on to the caller: a throw, or
    [next] with a 5xx [AppError]. *)
Definition propagated (out : Outcome Reply) : Prop :=
  match out with
  | Threw _ => True
  | Returned (next err) => statusCode err = 500
  | Returned (json _ _) => False
  end.

Definition is_order_save (ev : Event) : bool :=
  match ev with OrderSaved _ => true | _ => false end.

Definition is_gateway_call (ev : Event) : bool :=
  match ev with
  | GatewayInitialize _ | GatewayVerify _ => true
  | _ => false
  end.

(** The writes to orders and the gateway requests recorded so far. *)
Definition order_saves (w : World) : list Event :=
  List.filter is_order_save (trace w).

Definition gateway_calls (w : World) : list Event :=
  List.filter is_gateway_call (trace w).

(** The request [initializePayment] sends for an order. *)
Definition charge_request (Date_now : N) (user : User)
    (vd : InitializeData) (order : Order.t) : InitRequest :=
  {| rq_email := js_or (email vd) (u_email user);
     rq_amount := paystackService.toKobo (Order.totalPrice order);
     rq_reference := "ORDER-" +:+ orderId vd +:+ "-" +:+ pretty Date_now;
     rq_currency := js_or (currency vd) "NGN";
     rq_metadata :=
       ([("orderId", orderId vd); ("userId", u_id user);
         ("userName", u_name user)] ++ metadata vd)%list;
     rq_callback_url := callback_url vd |}.

(** The document [initializePayment] hands to [Payment.create]. *)
Definition new_payment (Date_now : N) (user : User) (vd : InitializeData)
    (order : Order.t) (d : InitData) : Payment.t :=
  {| Payment.user := u_id user;
     Payment.order := orderId vd;
     Payment.reference := "ORDER-" +:+ orderId vd +:+ "-" +:+ pretty Date_now;
     Payment.amount := Order.totalPrice order;
     Payment.currency := js_or (currency vd) "NGN";
     Payment.status := pending;
     Payment.paymentMethod := None;
     Payment.channel := None;
     Payment.gatewayResponse := None;
     Payment.paidAt := None;
     Payment.paystackData := Some (InitPayload d);
     Payment.metadata :=
       ([("orderId", orderId vd); ("userId", u_id user)]
        ++ metadata vd)%list |}.

(** ** Deliveries of a verdict

    A verdict on a charge reaches the controller by a poll of the client
    ([GET /verify/:reference], the gateway answering as it then does) or by a
    notification of the gateway ([POST /webhook]). *)

Inductive Call :=
  | Poll (gw : Gateway) (user : User)
  | Notify (signature : option string) (body : WebhookBody).

Definition status_of (reference : string) (w : World) : option PaymentStatus :=
  (Payment.status ∘ snd) <$> list_find (has_reference reference) (payments w).

(** The [paid] flag and [paidAt] of an order. *)
Definition paid_fields (oid : string) (w : World)
  : option (bool * option JsDate) :=
  (λ o, (Order.isPaid o, Order.paidAt o)) <$> orders w !! oid.

Section Calls.

Variable PAYSTACK_WEBHOOK_SECRET PAYSTACK_SECRET_KEY : option string.
Variable hmac_sha512_hex : string → string → string.
Variable JSON_stringify : WebhookBody → string.

(** The signature check passes (it neither fails nor throws). *)
Definition signature_valid (signature : option string) (body : WebhookBody)
  : bool :=
  match paystackService.validateWebhookSignature PAYSTACK_WEBHOOK_SECRET
          PAYSTACK_SECRET_KEY hmac_sha512_hex JSON_stringify signature body
  with
  | Returned valid => valid
  | Threw _ => false
  end.

Definition resolve (reference : string) (c : Call) : Async Reply :=
  match c with
  | Poll gw user => verifyPayment gw user reference
  | Notify signature body =>
      handleWebhook PAYSTACK_WEBHOOK_SECRET PAYSTACK_SECRET_KEY
        hmac_sha512_hex JSON_stringify signature body
  end.

Definition resolve_all (reference : string) (cs : list Call) (w : World)
  : World :=
  foldl (λ w c, (resolve reference c w).2) w cs.

(** The number of calls of [cs], run in order from [w], that take the payment
    from [pending] to [success]. *)
Fixpoint transitions (reference : string) (cs : list Call) (w : World) : nat :=
  match cs with
  | [] => 0
  | c :: cs =>
      let w' := (resolve reference c w).2 in
      (if decide (status_of reference w = Some pending
                  ∧ status_of reference w' = Some success)
       then 1 else 0)
      + transitions reference cs w'
  end.

(** The charge object of a call that carries a success verdict for
    [reference] to the payment of [owner]: a poll by the owner that the
    gateway answers with a charge in ['success'] status, or a correctly
    signed [charge.success] event for the reference. *)
Definition success_verdict (reference owner : string) (c : Call)
  : option ChargeData :=
  match c with
  | Poll gw user =>
      match transaction_verify gw reference with
      | Resolved {| vr_status := true; vr_data := Some d |} =>
          if decide (u_id user = owner ∧ cd_status d = "success")
          then Some d else None
      | _ => None
      end
  | Notify signature body =>
      if decide (signature_valid signature body = true
                 ∧ event body = "charge.success"
                 ∧ cd_reference (data body) = reference)
      then Some (data body) else None
  end.

(** The charge object of a call that carries a failure verdict. *)
Definition failure_verdict (reference : string) (c : Call)
  : option ChargeData :=
  match c with
  | Poll gw user =>
      match transaction_verify gw reference with
      | Resolved {| vr_status := true; vr_data := Some d |} =>
          if decide (cd_status d = "success") then None else Some d
      | _ => None
      end
  | Notify signature body =>
      if decide (signature_valid signature body = true
                 ∧ event body = "charge.failed"
                 ∧ cd_reference (data body) = reference)
      then Some (data body) else None
  end.

End Calls.

(** The members of a payment no resolution assigns. *)
Definition identity (p : Payment.t) : string * string * string * Number * string :=
  (Payment.user p, Payment.order p, Payment.reference p, Payment.amount p,
   Payment.currency p).

(** The [switch (event)] of [handleWebhook]. *)
Definition dispatch (body : WebhookBody) : Async unit :=
  if decide (event body = "charge.success")
  then handleSuccessfulCharge (data body)
  else if decide (event body = "charge.failed")
  then handleFailedCharge (data body)
  else if decide (event body = "transfer.success"
                  ∨ event body = "transfer.failed")
  then logger info ("Transfer event received: " +:+ event body)
  else logger info ("Unhandled webhook event: " +:+ event body).

(** The payment of [reference] has been settled and its order is paid. *)
Definition settled (reference : string) (i : nat) (payment : Payment.t)
    (order : Order.t) (w : World) : Prop :=
  ∃ p, list_find (has_reference reference) (payments w) = Some (i, p) ∧
       Payment.status p = success ∧ identity p = identity payment ∧
       orders w !! Payment.order payment = Some order ∧
       Order.isPaid order = true.

(** A call delivers a success verdict whose channel the [paymentMethod] path
    of the schema accepts. *)
Definition accepted (verdict : option ChargeData) : Prop :=
  ∃ d, verdict = Some d ∧ Payment.paymentMethod_ok (cd_channel d) = true.

(** A handler leaves the ledger as it was or writes one row back, with the
    identity it had. *)
Definition rewrites_one (w w' : World) : Prop :=
  payments w' = payments w
  ∨ ∃ i p q, payments w !! i = Some p ∧ identity q = identity p
             ∧ payments w' = <[i := q]> (payments w).

(** ** Exact values of Numbers *)

(** The integer a Number is, when it is one. *)
Definition Number_to_Z (x : Number) : option Z :=
  match Prim2SF x with
  | S754_zero _ => Some 0%Z
  | S754_finite s m e =>
      let sm := if s then Z.neg m else Z.pos m in
      if (0 <=? e)%Z then Some (sm * 2 ^ e)%Z
      else if (sm mod 2 ^ (- e) =? 0)%Z then Some (sm / 2 ^ (- e))%Z
      else None
  | _ => None
  end.

(** [a] is the amount of [k] hundredths as a Number has it: a non-negative
    binary64 within half a unit in its last place of [k / 100], as the
    decimal literal with two decimals reads. For [a = m * 2^e] the distance
    is taken after scaling by [100] and by the weight of the last place. *)
Definition two_decimals (a : Number) (k : Z) : Prop :=
  match Prim2SF a with
  | S754_zero _ => k = 0%Z
  | S754_finite false m e =>
      if (e <? 0)%Z then (Z.abs (100 * Z.pos m - k * 2 ^ (- e)) <= 50)%Z
      else (Z.abs (100 * Z.pos m * 2 ^ e - k) <= 50 * 2 ^ e)%Z
  | _ => False
  end.

(** * The payment routes as one server *)

(** ** The routes that write

    The three routes of [routes/paymentRoutes.js] whose handlers change the
    ledger or the orders, as requests to one server. *)
Inductive Request :=
  | POST_initialize (gw : Gateway) (Date_now : N) (user : User)
      (validatedData : InitializeData)
  | GET_verify (gw : Gateway) (user : User) (reference : string)
  | POST_webhook (signature : option string) (body : WebhookBody).

Section Server.

Variable PAYSTACK_WEBHOOK_SECRET PAYSTACK_SECRET_KEY : option string.
Variable hmac_sha512_hex : string → string → string.
Variable JSON_stringify : WebhookBody → string.

Definition serve (rq : Request) : Async Reply :=
  match rq with
  | POST_initialize gw Date_now user vd => initializePayment gw Date_now user vd
  | GET_verify gw user reference => verifyPayment gw user reference
  | POST_webhook signature body =>
      handleWebhook PAYSTACK_WEBHOOK_SECRET PAYSTACK_SECRET_KEY
        hmac_sha512_hex JSON_stringify signature body
  end.

(** The world after a sequence of requests, served one after the other. *)
Definition serve_all (rqs : list Request) (w : World) : World :=
  foldl (λ w rq, (serve rq w).2) w rqs.

End Server.

(** What is stored: the two collections, without the trace. *)
Definition store (w : World) : list Payment.t * gmap string Order.t :=
  (payments w, orders w).

(** Every row passes the validators of the schema. *)
Definition ledger_valid (ledger : list Payment.t) : Prop :=
  Forall (λ p, Payment.validate p = true) ledger.

(** The unique index on [reference]. *)
Definition references_unique (ledger : list Payment.t) : Prop :=
  NoDup (Payment.reference <$> ledger).

(** Orders are stored under their [_id]. *)
Definition keyed_by_id (os : gmap string Order.t) : Prop :=
  map_Forall (λ k o, Order._id o = k) os.

(** What one request does to the ledger: nothing, one row written back with
    the identity it had, or a new [pending] row appended, for an order with
    no payment in [pending] or [success] state and under a fresh reference.
    A written row has passed the validators. *)
Inductive ledger_step (l l' : list Payment.t) : Prop :=
  | ledger_same : l' = l → ledger_step l l'
  | ledger_rewrite i p q :
      l !! i = Some p → identity q = identity p →
      Payment.validate q = true →
      l' = <[i := q]> l → ledger_step l l'
  | ledger_append q :
      Payment.validate q = true →
      Payment.reference q ∉ Payment.reference <$> l →
      Payment.status q = pending →
      list_find (active (Payment.order q)) l = None →
      l' = l ++ [q] → ledger_step l l'.

(** What one request does to the orders: nothing, or one stored order
    written back as paid. *)
Inductive orders_step (os os' : gmap string Order.t) : Prop :=
  | orders_same : os' = os → orders_step os os'
  | orders_paid k o reference d :
      os !! k = Some o →
      os' = <[Order._id o := mark_paid reference d o]> os →
      orders_step os os'.

(** ** The routes that read *)

(** How a read handler ends: [res.status(code).json({ status: 'success',
    ... })] or [next(err)]. *)
Inductive Answer (A : Type) :=
  | answered (code : nat) (data : A)
  | handed_on (err : AppError).
Arguments answered {A} code data.
Arguments handed_on {A} err.

(** A payment as [.populate('order')] hands it over: the row, and the order
    it names ([null] when the store has none). *)
Record PopulatedPayment := {
  pp_payment : Payment.t;
  pp_order : option Order.t;
}.

(** [getPaymentByReference]. [users] are the [_id]s of the users collection
    ([models/User.js] is not among the sources): [.populate('user', 'name
    email')] leaves [null] in [payment.user] when the user is gone, and
    [payment.user._id] then throws. [role] is [req.user.role]. *)
Definition getPaymentByReference (users : gset string) (user : User)
    (role : option string) (reference : string)
  : Async (Answer PopulatedPayment) :=
  found ← Payment_findOne (has_reference reference);
  match found with
  | None =>
    mret (handed_on {| message := "Payment not found"; statusCode := 404 |})
  | Some (_, payment) =>
    order ← Order_findById (Payment.order payment);
    if bool_decide (Payment.user payment ∉ users) then
      throw (TypeError "Cannot read properties of null (reading '_id')")
    else if bool_decide (Payment.user payment ≠ u_id user)
            && bool_decide (role ≠ Some "admin") then
      mret (handed_on {| message := "Not authorized to view this payment";
                         statusCode := 403 |})
    else
      mret (answered 200 {| pp_payment := payment; pp_order := order |})
  end.

(** [req.validatedQuery] of the two listings, as [validatePaymentQuery]
    leaves it: [page] and [limit] are integers, [page >= 1] and
    [1 <= limit <= 100]; the dates are time values in milliseconds. *)
Record PaymentQuery := {
  q_page : N;
  q_limit : N;
  q_status : option PaymentStatus;
  q_startDate : option N;
  q_endDate : option N;
}.

(** The filter handed to [Payment.find] and [Payment.countDocuments]:
    [{ user, status, createdAt: { $gte, $lte } }], each member optional. *)
Record Filter := {
  f_user : option string;
  f_status : option PaymentStatus;
  f_gte : option N;
  f_lte : option N;
}.

Record Pagination := {
  pg_page : N;
  pg_limit : N;
  pg_total : N;
  pg_pages : N;
}.

(** [{ results, pagination, data: { payments } }] *)
Record Listing := {
  l_results : N;
  l_pagination : Pagination;
  l_payments : list PopulatedPayment;
}.

(** [Math.ceil(total / limit)] on a count and a limit of at most 100: the
    quotient of such integers is rounded to no other integer. *)
Definition Math_ceil_div (total limit : N) : N :=
  ((total + limit - 1) / limit)%N.

Section Listings.

(** [createdAt] of the row at a position of the ledger, in milliseconds
    (the schema's [timestamps: true]). *)
Variable createdAt : nat → N.

Definition matches (f : Filter) (row : nat * Payment.t) : bool :=
  from_option (λ u, bool_decide (Payment.user row.2 = u)) true (f_user f)
  && from_option (λ s, bool_decide (Payment.status row.2 = s)) true
       (f_status f)
  && from_option (λ t, (t <=? createdAt row.1)%N) true (f_gte f)
  && from_option (λ t, (createdAt row.1 <=? t)%N) true (f_lte f).

(** [-createdAt]: newer rows first. *)
Definition newer (a b : nat * Payment.t) : Prop :=
  (createdAt b.1 ≤ createdAt a.1)%N.

#[global] Instance newer_dec a b : Decision (newer a b).
Proof. unfold newer. apply _. Defined.

(** The rows a filter selects, sorted by [-createdAt]; rows of one instant
    stay in ledger order. *)
Definition selected (f : Filter) (ledger : list Payment.t)
  : list (nat * Payment.t) :=
  merge_sort newer (List.filter (matches f) (imap pair ledger)).

(** [Payment.find(query).sort('-createdAt').limit(limit).skip(skip)]: the
    store skips, then limits, whatever the order of the two calls. *)
Definition Payment_find (f : Filter) (limit skip : N)
  : Async (list (nat * Payment.t)) :=
  λ w, (Returned (take (N.to_nat limit)
                    (drop (N.to_nat skip) (selected f (payments w)))), w).

Definition Payment_countDocuments (f : Filter) : Async N :=
  λ w, (Returned (N.of_nat (List.length (selected f (payments w)))), w).

(** [.populate('order', ...)] on each row found. *)
Definition populate_order (rows : list (nat * Payment.t))
  : Async (list PopulatedPayment) :=
  λ w, (Returned ((λ row, {| pp_payment := row.2;
                             pp_order := orders w !! Payment.order row.2 |})
                  <$> rows), w).

(** The query object built from [req.validatedQuery]; [owner] is
    [req.user._id] in [getPaymentHistory] and absent in [getAllPayments]. *)
Definition query_filter (owner : option string) (q : PaymentQuery) : Filter :=
  {| f_user := owner; f_status := q_status q;
     f_gte := q_startDate q; f_lte := q_endDate q |}.

(** The body the two listing handlers share. *)
Definition listing (owner : option string) (q : PaymentQuery)
  : Async (Answer Listing) :=
  let query := query_filter owner q in
  rows ← Payment_find query (q_limit q) ((q_page q - 1) * q_limit q)%N;
  payments ← populate_order rows;
  total ← Payment_countDocuments query;
  mret (answered 200
    {| l_results := N.of_nat (List.length payments);
       l_pagination :=
         {| pg_page := q_page q; pg_limit := q_limit q; pg_total := total;
            pg_pages := Math_ceil_div total (q_limit q) |};
       l_payments := payments |}).

Definition getPaymentHistory (user : User) (q : PaymentQuery)
  : Async (Answer Listing) :=
  listing (Some (u_id user)) q.

Definition getAllPayments (q : PaymentQuery) : Async (Answer Listing) :=
  listing None q.

(** The payments on page [k] of a listing. *)
Definition page_payments (owner : option string) (q : PaymentQuery)
    (k : nat) (w : World) : list PopulatedPayment :=
  match (listing owner
           {| q_page := N.of_nat k; q_limit := q_limit q;
              q_status := q_status q; q_startDate := q_startDate q;
              q_endDate := q_endDate q |} w).1 with
  | Returned (answered _ L) => l_payments L
  | _ => []
  end.

End Listings.

(** ** validators/paymentValidator.js *)

Definition quoted (s : string) : string :=
  String (Ascii.ascii_of_nat 34) (s +:+ String (Ascii.ascii_of_nat 34) "").

(** [validateVerifyPayment]: [Joi.string().required().min(10).max(100)] on
    [req.params.reference], with the messages of the schema; a string is the
    sequence of its code units. The result is the message of the 400 reply,
    or the validated data handed on. *)
Definition validateVerifyPayment (reference : string) : string + string :=
  if decide (reference = "") then
    inl (quoted "reference" +:+ " is not allowed to be empty")
  else if decide (String.length reference < 10)%nat then
    inl "Invalid reference format"
  else if decide (100 < String.length reference)%nat then
    inl "Invalid reference format"
  else inr reference.

(** * A concrete deployment, for the worked examples

    The signature functions are stand-ins: the properties below hold for
    every choice of them. *)

Module Scenario.

Definition WEBHOOK_SECRET : option string := Some "whsec_test".
Definition SECRET_KEY : option string := Some "sk_test".

Definition hmac (key text : string) : string := key +:+ "/" +:+ text.

Definition stringify (b : WebhookBody) : string :=
  event b +:+ ":" +:+ cd_reference (data b) +:+ ":"
  +:+ default "" (cd_channel (data b)).

Definition handleWebhook :=
  paymentController.handleWebhook WEBHOOK_SECRET SECRET_KEY hmac stringify.

Definition sign (b : WebhookBody) : option string :=
  Some (hmac "whsec_test" (stringify b)).

Definition U1 : User :=
  {| u_id := "U1"; u_email := "a@b.com"; u_name := "Ada" |}.
Definition U2 : User :=
  {| u_id := "U2"; u_email := "m@n.org"; u_name := "Mallory" |}.

Definition O1 : Order.t :=
  {| Order._id := "O1"; Order.user := "U1"; Order.totalPrice := 5000%float;
     Order.isPaid := false; Order.paidAt := None;
     Order.paymentMethod := None; Order.paystackReference := None;
     Order.paymentResult := None |}.

Definition request : InitializeData :=
  {| orderId := "O1"; email := Some "a@b.com"; currency := None;
     metadata := []; callback_url := None |}.

Definition now : N := 1704067200000.
Definition ref1 : string := "ORDER-O1-1704067200000".

Definition charge (st : string) (ch : option string) : ChargeData :=
  {| cd_id := Some 302961%Z; cd_reference := ref1; cd_status := st;
     cd_gateway_response := Some "Approved"; cd_channel := ch;
     cd_paid_at := "2024-01-01T00:00:00Z";
     cd_customer_email := Some "a@b.com" |}.

Definition session : InitData :=
  {| authorization_url := "https://checkout.paystack.com/0peioxfhpn";
     access_code := "0peioxfhpn" |}.

(** A gateway that accepts the charge and reports [verdict] on polling. *)
Definition gateway (verdict : ChargeData) : Gateway :=
  {| transaction_initialize := λ _,
       Resolved {| ir_status := true; ir_data := Some session |};
     transaction_verify := λ _,
       Resolved {| vr_status := true; vr_data := Some verdict |} |}.

Definition gateway_down : Gateway :=
  {| transaction_initialize := λ _, Rejected "connect ECONNREFUSED";
     transaction_verify := λ _, Rejected "connect ECONNREFUSED" |}.

Definition checkout : World :=
  {| payments := []; orders := {[ "O1" := O1 ]}; trace := [] |}.

Definition P1 (st : PaymentStatus) : Payment.t :=
  {| Payment.user := "U1"; Payment.order := "O1";
     Payment.reference := ref1; Payment.amount := 5000%float;
     Payment.currency := "NGN"; Payment.status := st;
     Payment.paymentMethod := None; Payment.channel := None;
     Payment.gatewayResponse := None; Payment.paidAt := None;
     Payment.paystackData := Some (InitPayload session);
     Payment.metadata := [("orderId", "O1"); ("userId", "U1")] |}.

(** The ledger holds one payment for [O1], in state [st]. *)
Definition ledger (st : PaymentStatus) : World :=
  {| payments := [P1 st]; orders := {[ "O1" := O1 ]}; trace := [] |}.

Definition notification (ev : string) (ch : option string) : WebhookBody :=
  {| event := ev;
     data := charge (if decide (ev = "charge.success") then "success"
                     else "failed") ch |}.

(** A signed delivery of [notification ev ch]. *)
Definition notify (ev : string) (ch : option string) : Call :=
  Notify (sign (notification ev ch)) (notification ev ch).

(** A poll by [U1] that the gateway answers with a charge in status [st]. *)
Definition poll (st : string) (ch : option string) : Call :=
  Poll (gateway (charge st ch)) U1.

Definition resolve := resolve WEBHOOK_SECRET SECRET_KEY hmac stringify.
Definition resolve_all := resolve_all WEBHOOK_SECRET SECRET_KEY hmac stringify.
Definition transitions := transitions WEBHOOK_SECRET SECRET_KEY hmac stringify.
Definition success_verdict :=
  success_verdict WEBHOOK_SECRET SECRET_KEY hmac stringify.
Definition failure_verdict :=
  failure_verdict WEBHOOK_SECRET SECRET_KEY hmac stringify.

End Scenario.

(** * A second deployment: several payments, for the listings and the
      request sequences *)

Module Archive.

(** Three payments of two users, created a second apart. *)
Definition createdAt (i : nat) : N := 1704067200000 + 1000 * N.of_nat i.

Definition row (user order : string) (st : PaymentStatus) : Payment.t :=
  {| Payment.user := user; Payment.order := order;
     Payment.reference := "ORDER-" +:+ order +:+ "-1704067200000";
     Payment.amount := 5000%float; Payment.currency := "NGN";
     Payment.status := st; Payment.paymentMethod := None;
     Payment.channel := None; Payment.gatewayResponse := None;
     Payment.paidAt := None; Payment.paystackData := None;
     Payment.metadata := [] |}.

Definition ledger : World :=
  {| payments := [row "U1" "O1" failed; row "U2" "O2" pending;
                  row "U1" "O3" success];
     orders := {[ "O1" := Scenario.O1 ]}; trace := [] |}.

Definition by_two (page : N) : PaymentQuery :=
  {| q_page := page; q_limit := 2; q_status := None;
     q_startDate := None; q_endDate := None |}.

Definition serve_all :=
  serve_all Scenario.WEBHOOK_SECRET Scenario.SECRET_KEY Scenario.hmac
    Scenario.stringify.

(** A signed success notification, then a poll by the owner. *)
Definition settle : list Request :=
  [POST_webhook
     (Scenario.sign (Scenario.notification "charge.success" (Some "card")))
     (Scenario.notification "charge.success" (Some "card"));
   GET_verify (Scenario.gateway (Scenario.charge "success" (Some "card")))
     Scenario.U1 Scenario.ref1].

Definition O1_paid : Order.t :=
  mark_paid Scenario.ref1 (Scenario.charge "success" (Some "card"))
    Scenario.O1.

(** The payment of [O1] is settled and the order paid. *)
Definition paid_up : World :=
  {| payments := [Scenario.P1 success]; orders := {[ "O1" := O1_paid ]};
     trace := [] |}.

(** The gateway then reports the charge as failed. *)
Definition reversal : list Request :=
  [POST_webhook
     (Scenario.sign (Scenario.notification "charge.failed" (Some "card")))
     (Scenario.notification "charge.failed" (Some "card"))].

(** A validated request: the order id is 24 hexadecimal digits. *)
Definition checkout_request : InitializeData :=
  {| orderId := "65a1f0c2b3d4e5f601234567"; email := None; currency := None;
     metadata := []; callback_url := None |}.

End Archive.

(** * Proofs *)

Ltac async_unfold :=
  unfold initializePayment, verifyPayment, handleWebhook,
    handleSuccessfulCharge, handleFailedCharge,
    paystackService.initializeTransaction, paystackService.verifyTransaction,
    call_initialize, call_verify, Payment_findOne, Payment_create,
    Payment_save, Order_findById, Order_save, try_catch, logger, throw,
    mbind, mret, Async_bind, Async_ret in *.

(** ** initializePayment, branch by branch *)

Section InitializeEquations.

Context (gw : Gateway) (Date_now : N) (user : User) (vd : InitializeData)
        (w : World).

Lemma initialize_no_order :
  orders w !! orderId vd = None →
  initializePayment gw Date_now user vd w =
    (Returned (next {| message := "Order not found"; statusCode := 404 |}), w).
Proof. intros H. async_unfold. by rewrite H. Qed.

Context (order : Order.t) (Horder : orders w !! orderId vd = Some order).

Lemma initialize_not_owner :
  Order.user order ≠ u_id user →
  initializePayment gw Date_now user vd w =
    (Returned (next {| message := "Not authorized to pay for this order";
                       statusCode := 403 |}), w).
Proof.
  intros H. async_unfold. rewrite Horder. by rewrite bool_decide_eq_true_2.
Qed.

Context (Howner : Order.user order = u_id user).

Lemma initialize_order_paid :
  Order.isPaid order = true →
  initializePayment gw Date_now user vd w =
    (Returned (next {| message := "Order is already paid";
                       statusCode := 400 |}), w).
Proof.
  intros H. async_unfold. rewrite Horder.
  rewrite bool_decide_eq_false_2 by (by intros []). by rewrite H.
Qed.

Context (Hunpaid : Order.isPaid order = false).

Lemma initialize_existing_success i p :
  list_find (active (orderId vd)) (payments w) = Some (i, p) →
  Payment.status p = success →
  initializePayment gw Date_now user vd w =
    (Returned (next {| message := "Payment already completed for this order";
                       statusCode := 400 |}), w).
Proof.
  intros Hf Hs. async_unfold. rewrite Horder.
  rewrite bool_decide_eq_false_2 by (by intros []). rewrite Hunpaid.
  rewrite Hf. by rewrite bool_decide_eq_true_2.
Qed.

Lemma initialize_existing_pending i p :
  list_find (active (orderId vd)) (payments w) = Some (i, p) →
  Payment.status p ≠ success →
  initializePayment gw Date_now user vd w =
    (Returned (json 200
       {| b_message := "Payment already initialized";
          b_payment := Some p;
          b_authorizationUrl := stored_authorization_url p;
          b_accessCode := None;
          b_reference := Some (Payment.reference p) |}), w).
Proof.
  intros Hf Hs. async_unfold. rewrite Horder.
  rewrite bool_decide_eq_false_2 by (by intros []). rewrite Hunpaid.
  rewrite Hf. by rewrite bool_decide_eq_false_2.
Qed.

Context (Hnone : list_find (active (orderId vd)) (payments w) = None).

Let rq := charge_request Date_now user vd order.

Local Ltac reach_gateway Hg :=
  async_unfold; rewrite Horder;
  rewrite bool_decide_eq_false_2 by (by intros []);
  rewrite Hunpaid, Hnone; simpl;
  unfold rq, charge_request, paystackService.toKobo in Hg; simpl in Hg;
  rewrite Hg; simpl.

Lemma initialize_gateway_rejects msg :
  transaction_initialize gw rq = Rejected msg →
  initializePayment gw Date_now user vd w =
    (Threw (Error ("Payment initialization failed: " +:+ msg)),
     emit (Logged error ("Paystack initialization error: " +:+ msg))
       (emit (GatewayInitialize rq) w)).
Proof. intros Hg. by reach_gateway Hg. Qed.

Lemma initialize_gateway_refuses r :
  transaction_initialize gw rq = Resolved r →
  ir_status r = false →
  initializePayment gw Date_now user vd w =
    (Returned (next {| message := "Failed to initialize payment";
                       statusCode := 500 |}),
     emit (Logged info ("Payment initialized: " +:+ rq_reference rq))
       (emit (GatewayInitialize rq) w)).
Proof. intros Hg Hs. reach_gateway Hg. by rewrite Hs. Qed.

Lemma initialize_missing_data r :
  transaction_initialize gw rq = Resolved r →
  ir_status r = true → ir_data r = None →
  ∃ e, initializePayment gw Date_now user vd w =
    (Threw e,
     emit (Logged info ("Payment initialized: " +:+ rq_reference rq))
       (emit (GatewayInitialize rq) w)).
Proof. intros Hg Hs Hd. reach_gateway Hg. rewrite Hs, Hd. by eexists. Qed.

Lemma initialize_create_fails r d :
  transaction_initialize gw rq = Resolved r →
  ir_status r = true → ir_data r = Some d →
  Payment.validate (new_payment Date_now user vd order d) = false
  ∨ Payment.reference (new_payment Date_now user vd order d)
      ∈ (Payment.reference <$> payments w) →
  ∃ e, initializePayment gw Date_now user vd w =
    (Threw e,
     emit (Logged info ("Payment initialized: " +:+ rq_reference rq))
       (emit (GatewayInitialize rq) w)).
Proof.
  intros Hg Hs Hd Hbad. reach_gateway Hg. rewrite Hs, Hd. simpl.
  unfold new_payment in Hbad. simpl in Hbad.
  destruct (Payment.validate _) eqn:Hv; simpl; [|by eexists].
  destruct Hbad as [|Hin]; [done|].
  rewrite bool_decide_eq_true_2 by done. by eexists.
Qed.

Lemma initialize_creates r d :
  transaction_initialize gw rq = Resolved r →
  ir_status r = true → ir_data r = Some d →
  Payment.validate (new_payment Date_now user vd order d) = true →
  Payment.reference (new_payment Date_now user vd order d)
    ∉ (Payment.reference <$> payments w) →
  initializePayment gw Date_now user vd w =
    (Returned (json 201
       {| b_message := "Payment initialized successfully";
          b_payment := Some (new_payment Date_now user vd order d);
          b_authorizationUrl := Some (authorization_url d);
          b_accessCode := Some (access_code d);
          b_reference :=
            Some (Payment.reference (new_payment Date_now user vd order d)) |}),
     {| payments := payments w ++ [new_payment Date_now user vd order d];
        orders := orders w;
        trace := trace w ++
          [GatewayInitialize rq;
           Logged info ("Payment initialized: " +:+ rq_reference rq);
           PaymentCreated (length (payments w))] |}).
Proof.
  intros Hg Hs Hd Hv Hu. reach_gateway Hg. rewrite Hs, Hd. simpl.
  unfold new_payment in Hv, Hu. simpl in Hv, Hu.
  rewrite Hv. simpl. rewrite bool_decide_eq_false_2 by done.
  unfold emit. simpl. by rewrite <- !app_assoc.
Qed.

End InitializeEquations.

(** Which branch was taken, read off the reply. *)

Lemma initialize_created_inv gw Date_now user vd w body w' :
  initializePayment gw Date_now user vd w = (Returned (json 201 body), w') →
  ∃ order d,
    orders w !! orderId vd = Some order ∧
    Order.user order = u_id user ∧
    Order.isPaid order = false ∧
    list_find (active (orderId vd)) (payments w) = None ∧
    Payment.validate (new_payment Date_now user vd order d) = true ∧
    b_payment body = Some (new_payment Date_now user vd order d) ∧
    b_reference body =
      Some (Payment.reference (new_payment Date_now user vd order d)) ∧
    payments w' = payments w ++ [new_payment Date_now user vd order d] ∧
    orders w' = orders w ∧
    trace w' = trace w ++
      [GatewayInitialize (charge_request Date_now user vd order);
       Logged info ("Payment initialized: "
                    +:+ rq_reference (charge_request Date_now user vd order));
       PaymentCreated (length (payments w))].
Proof.
  intros H.
  destruct (orders w !! orderId vd) as [order|] eqn:Ho;
    [|by rewrite initialize_no_order in H].
  destruct (decide (Order.user order = u_id user)) as [Hu|Hu];
    [|by erewrite initialize_not_owner in H].
  destruct (Order.isPaid order) eqn:Hp;
    [by erewrite initialize_order_paid in H|].
  destruct (list_find (active (orderId vd)) (payments w)) as [[i p]|] eqn:Hf.
  { destruct (decide (Payment.status p = success)).
    - by erewrite initialize_existing_success in H.
    - by erewrite initialize_existing_pending in H. }
  destruct (transaction_initialize gw (charge_request Date_now user vd order))
    as [r|msg] eqn:Hg; [|by erewrite initialize_gateway_rejects in H].
  destruct (ir_status r) eqn:Hs;
    [|by erewrite initialize_gateway_refuses in H].
  destruct (ir_data r) as [d|] eqn:Hd.
  2: { edestruct initialize_missing_data as [e He]; [done..|].
       by rewrite He in H. }
  exists order, d. do 4 (split; [done|]).
  destruct (Payment.validate (new_payment Date_now user vd order d)) eqn:Hv.
  2: { edestruct initialize_create_fails as [e He]; [done..|by left|].
       by rewrite He in H. }
  destruct (decide (Payment.reference (new_payment Date_now user vd order d)
                    ∈ (Payment.reference <$> payments w))) as [Hin|Hin].
  { edestruct initialize_create_fails as [e He]; [done..|by right|].
    by rewrite He in H. }
  erewrite initialize_creates in H by done. by simplify_eq.
Qed.

Lemma initialize_existing_inv gw Date_now user vd w body w' :
  initializePayment gw Date_now user vd w = (Returned (json 200 body), w') →
  w' = w ∧
  ∃ i p, list_find (active (orderId vd)) (payments w) = Some (i, p) ∧
    Payment.status p = pending ∧
    b_payment body = Some p ∧ b_reference body = Some (Payment.reference p).
Proof.
  intros H.
  destruct (orders w !! orderId vd) as [order|] eqn:Ho;
    [|by rewrite initialize_no_order in H].
  destruct (decide (Order.user order = u_id user)) as [Hu|Hu];
    [|by erewrite initialize_not_owner in H].
  destruct (Order.isPaid order) eqn:Hp;
    [by erewrite initialize_order_paid in H|].
  destruct (list_find (active (orderId vd)) (payments w)) as [[i p]|] eqn:Hf.
  { destruct (decide (Payment.status p = success)) as [|Hns].
    - by erewrite initialize_existing_success in H.
    - erewrite initialize_existing_pending in H by done. simplify_eq.
      split; [done|]. exists i, p. split_and!; try done.
      apply list_find_Some in Hf as (_ & [_ Hs] & _).
      rewrite !elem_of_cons, elem_of_nil in Hs.
      by destruct Hs as [|[|[]]]. }
  destruct (transaction_initialize gw (charge_request Date_now user vd order))
    as [r|msg] eqn:Hg; [|by erewrite initialize_gateway_rejects in H].
  destruct (ir_status r) eqn:Hs;
    [|by erewrite initialize_gateway_refuses in H].
  destruct (ir_data r) as [d|] eqn:Hd.
  2: { edestruct initialize_missing_data as [e He]; [done..|].
       by rewrite He in H. }
  destruct (Payment.validate (new_payment Date_now user vd order d)) eqn:Hv.
  2: { edestruct initialize_create_fails as [e He]; [done..|by left|].
       by rewrite He in H. }
  destruct (decide (Payment.reference (new_payment Date_now user vd order d)
                    ∈ (Payment.reference <$> payments w))) as [Hin|Hin].
  { edestruct initialize_create_fails as [e He]; [done..|by right|].
    by rewrite He in H. }
  by erewrite initialize_creates in H by done.
Qed.

Lemma initialize_json_code gw Date_now user vd w code body w' :
  initializePayment gw Date_now user vd w = (Returned (json code body), w') →
  code = 200 ∨ code = 201.
Proof.
  async_unfold. intros H.
  repeat (case_match; simpl in *; simplify_eq; try done); auto.
Qed.

(** A refusing gateway: no branch of [initializePayment] writes a row. *)
Lemma initialize_failed_step gw Date_now user vd w order :
  orders w !! orderId vd = Some order →
  Order.user order = u_id user →
  Order.isPaid order = false →
  list_find (active (orderId vd)) (payments w) = None →
  init_fails (transaction_initialize gw (charge_request Date_now user vd order)) →
  propagated (initializePayment gw Date_now user vd w).1 ∧
  payments (initializePayment gw Date_now user vd w).2 = payments w ∧
  orders (initializePayment gw Date_now user vd w).2 = orders w ∧
  order_saves (initializePayment gw Date_now user vd w).2 = order_saves w.
Proof.
  intros Ho Hu Hp Hf Hfail.
  destruct (transaction_initialize gw (charge_request Date_now user vd order))
    as [r|msg] eqn:Hg; simpl in Hfail.
  - erewrite initialize_gateway_refuses by done. simpl.
    unfold order_saves. simpl. rewrite !List.filter_app. simpl.
    by rewrite !app_nil_r.
  - erewrite initialize_gateway_rejects by done. simpl.
    unfold order_saves. simpl. rewrite !List.filter_app. simpl.
    by rewrite !app_nil_r.
Qed.

(** ** Initialization *)

(** C10. A row created by a successful Initialize (the [201] reply; a [200]
    reply creates none) is the last row of the ledger and nothing else
    changed; it is [pending], its amount is the order's total price in major
    units while the gateway was sent the rounded hundredfold, its user is the
    requester, who is the order's owner, and its currency is the caller's, or
    ['NGN'] when the caller supplied none. *)
Theorem initialize_created_row gw Date_now user vd w code body w' :
  initializePayment gw Date_now user vd w = (Returned (json code body), w') →
  (code = 200 ∧ payments w' = payments w)
  ∨ (code = 201 ∧
     ∃ order p,
       orders w !! orderId vd = Some order ∧
       payments w' = payments w ++ [p] ∧
       b_payment body = Some p ∧
       Payment.status p = pending ∧
       Payment.amount p = Order.totalPrice order ∧
       GatewayInitialize (charge_request Date_now user vd order) ∈ trace w' ∧
       rq_amount (charge_request Date_now user vd order)
         = Math_round (Payment.amount p * 100)%float ∧
       Payment.user p = u_id user ∧
       Payment.user p = Order.user order ∧
       Payment.order p = orderId vd ∧
       Payment.currency p = js_or (currency vd) "NGN" ∧
       (currency vd = None → Payment.currency p = "NGN")).
Proof.
  intros H. destruct (initialize_json_code _ _ _ _ _ _ _ _ H) as [-> | ->].
  - left. apply initialize_existing_inv in H as [-> _]. done.
  - right. apply initialize_created_inv in H
      as (order & d & Ho & Hu & _ & _ & _ & Hb & _ & Hp & _ & Ht).
    split; [done|]. exists order, (new_payment Date_now user vd order d).
    split_and!; try done.
    + rewrite Ht. set_solver.
    + simpl. intros ->. done.
Qed.

Lemma initialize_created_row_witness :
  ∃ body w',
    initializePayment (Scenario.gateway (Scenario.charge "success" None))
      Scenario.now Scenario.U1 Scenario.request Scenario.checkout
    = (Returned (json 201 body), w') ∧
    payments w' = [Scenario.P1 pending] ∧
    Payment.amount (Scenario.P1 pending) = 5000%float ∧
    rq_amount (charge_request Scenario.now Scenario.U1 Scenario.request
                 Scenario.O1) = 500000%float.
Proof.
  eexists _, _. split; [vm_compute; reflexivity|].
  destruct (initialize_created_row
              (Scenario.gateway (Scenario.charge "success" None))
              Scenario.now Scenario.U1 Scenario.request Scenario.checkout
              201 _ _ eq_refl) as [[Hc _]|[_ (order & p & Ho & Hp & _)]].
  - discriminate Hc.
  - split; [|split]; vm_compute; reflexivity.
Defined.

(** C5. When the gateway's initialization step fails for the request this
    call sends (the promise rejects, or the response's status is false), no
    row is added to the ledger and no order changes; the reply is never a
    success, and a call that got as far as the gateway ends in a thrown error
    or a 500 handed to [next]. *)
Theorem initialize_all_or_nothing gw Date_now user vd w :
  (∀ order, orders w !! orderId vd = Some order →
     init_fails (transaction_initialize gw
                   (charge_request Date_now user vd order))) →
  payments (initializePayment gw Date_now user vd w).2 = payments w ∧
  orders (initializePayment gw Date_now user vd w).2 = orders w ∧
  (∀ body, (initializePayment gw Date_now user vd w).1
             ≠ Returned (json 201 body)) ∧
  (∀ order, orders w !! orderId vd = Some order →
     Order.user order = u_id user → Order.isPaid order = false →
     list_find (active (orderId vd)) (payments w) = None →
     propagated (initializePayment gw Date_now user vd w).1).
Proof.
  intros Hfail.
  assert (∀ body, (initializePayment gw Date_now user vd w).1
                    ≠ Returned (json 201 body)) as Hno.
  { intros body Heq.
    destruct (initializePayment gw Date_now user vd w) as [out w'] eqn:H.
    simpl in Heq. subst out.
    destruct (initialize_created_inv _ _ _ _ _ _ _ H)
      as (order & d & Ho & Hu & Hp & Hf & _).
    destruct (initialize_failed_step gw Date_now user vd w order)
      as (Hpr & _); [by auto..|]. by rewrite H in Hpr. }
  split_and!; [| |done|].
  - destruct (orders w !! orderId vd) as [order|] eqn:Ho;
      [|by rewrite initialize_no_order].
    destruct (decide (Order.user order = u_id user)) as [Hu|Hu];
      [|by erewrite initialize_not_owner].
    destruct (Order.isPaid order) eqn:Hp;
      [by erewrite initialize_order_paid|].
    destruct (list_find (active (orderId vd)) (payments w))
      as [[i p]|] eqn:Hf.
    + destruct (decide (Payment.status p = success)).
      * by erewrite initialize_existing_success.
      * by erewrite initialize_existing_pending.
    + by destruct (initialize_failed_step gw Date_now user vd w order)
        as (_ & ? & _); auto.
  - destruct (orders w !! orderId vd) as [order|] eqn:Ho;
      [|by rewrite initialize_no_order].
    destruct (decide (Order.user order = u_id user)) as [Hu|Hu];
      [|by erewrite initialize_not_owner].
    destruct (Order.isPaid order) eqn:Hp;
      [by erewrite initialize_order_paid|].
    destruct (list_find (active (orderId vd)) (payments w))
      as [[i p]|] eqn:Hf.
    + destruct (decide (Payment.status p = success)).
      * by erewrite initialize_existing_success.
      * by erewrite initialize_existing_pending.
    + by destruct (initialize_failed_step gw Date_now user vd w order)
        as (_ & _ & ? & _); auto.
  - intros order Ho Hu Hp Hf.
    by destruct (initialize_failed_step gw Date_now user vd w order)
      as (? & _); auto.
Qed.

Lemma initialize_all_or_nothing_witness :
  payments (initializePayment Scenario.gateway_down Scenario.now Scenario.U1
              Scenario.request Scenario.checkout).2 = [] ∧
  propagated (initializePayment Scenario.gateway_down Scenario.now Scenario.U1
                Scenario.request Scenario.checkout).1.
Proof.
  destruct (initialize_all_or_nothing Scenario.gateway_down Scenario.now
              Scenario.U1 Scenario.request Scenario.checkout)
    as (Hp & _ & _ & Herr).
  - intros order _. exact I.
  - split; [exact Hp|].
    apply (Herr Scenario.O1); vm_compute; reflexivity.
Defined.

(** ** Ledger lemmas *)

Lemma one_active_find oid ledger p :
  one_active oid ledger → p ∈ ledger → active oid p →
  ∃ i, list_find (active oid) ledger = Some (i, p).
Proof.
  intros Hone Hin Hact.
  destruct (list_find_elem_of (active oid) ledger p Hin Hact) as [[i q] Hf].
  exists i. rewrite Hf. f_equal. f_equal.
  apply list_find_Some in Hf as (Hi & Hq & _).
  apply list_elem_of_lookup in Hin as [j Hj].
  assert (i = j) as -> by eauto. congruence.
Qed.




(** ** Idempotent initialization *)



(** ** verifyPayment, branch by branch *)

Section VerifyEquations.

Context (gw : Gateway) (user : User) (reference : string) (w : World).

Lemma verify_not_found :
  list_find (has_reference reference) (payments w) = None →
  verifyPayment gw user reference w =
    (Returned (next {| message := "Payment not found"; statusCode := 404 |}), w).
Proof. intros H. async_unfold. by rewrite H. Qed.

Context (i : nat) (payment : Payment.t)
        (Hfound : list_find (has_reference reference) (payments w)
                  = Some (i, payment)).

Lemma verify_not_owner :
  Payment.user payment ≠ u_id user →
  verifyPayment gw user reference w =
    (Returned (next {| message := "Not authorized to verify this payment";
                       statusCode := 403 |}), w).
Proof.
  intros H. async_unfold. rewrite Hfound. by rewrite bool_decide_eq_true_2.
Qed.

Context (Howner : Payment.user payment = u_id user).

Lemma verify_already_verified :
  Payment.status payment = success →
  verifyPayment gw user reference w =
    (Returned (json 200 (verified_body "Payment already verified" payment)), w).
Proof.
  intros H. async_unfold. rewrite Hfound.
  rewrite bool_decide_eq_false_2 by (by intros []).
  by rewrite bool_decide_eq_true_2.
Qed.

Context (Hopen : Payment.status payment ≠ success).

Local Ltac reach_gateway Hg :=
  async_unfold; rewrite Hfound;
  rewrite bool_decide_eq_false_2 by (by intros []);
  rewrite bool_decide_eq_false_2 by done;
  simpl; rewrite Hg; simpl.

Lemma verify_gateway_rejects msg :
  transaction_verify gw reference = Rejected msg →
  verifyPayment gw user reference w =
    (Threw (Error ("Payment verification failed: " +:+ msg)),
     emit (Logged error ("Paystack verification error: " +:+ msg))
       (emit (GatewayVerify reference) w)).
Proof. intros Hg. by reach_gateway Hg. Qed.

Lemma verify_gateway_no_data r :
  transaction_verify gw reference = Resolved r →
  vr_data r = None →
  ∃ e l, verifyPayment gw user reference w =
    (Threw e, emit (Logged error l) (emit (GatewayVerify reference) w)).
Proof. intros Hg Hd. reach_gateway Hg. rewrite Hd. simpl. by eexists _, _. Qed.

Context (r : VerifyResponse) (d : ChargeData)
        (Hgw : transaction_verify gw reference = Resolved r)
        (Hdata : vr_data r = Some d).

Let heard : World :=
  emit (Logged info ("Payment verified: " +:+ reference +:+ " - Status: "
                     +:+ cd_status d))
    (emit (GatewayVerify reference) w).

Lemma verify_gateway_refuses :
  vr_status r = false →
  verifyPayment gw user reference w =
    (Returned (next {| message := "Payment verification failed";
                       statusCode := 500 |}), heard).
Proof. intros Hs. reach_gateway Hgw. rewrite Hdata. simpl. by rewrite Hs. Qed.

Context (Hstatus : vr_status r = true).

(** The verdict is not a success: the payment is marked [failed]. *)
Lemma verify_marks_failed :
  cd_status d ≠ "success" →
  verifyPayment gw user reference w =
    ((Payment_save i (assign_charge failed (Payment.paidAt payment) d payment);;
      mret (json 200
        (verified_body "Payment failed"
           (assign_charge failed (Payment.paidAt payment) d payment)))) heard).
Proof.
  intros Hv. reach_gateway Hgw. rewrite Hdata. simpl. rewrite Hstatus. simpl.
  rewrite Hdata. by rewrite bool_decide_eq_false_2.
Qed.

(** The verdict is a success: the order, if there is one, is written first,
    then the payment. *)
Lemma verify_marks_success :
  cd_status d = "success" →
  verifyPayment gw user reference w =
    ((match orders w !! Payment.order payment with
      | Some order => Order_save (mark_paid reference d order)
      | None => mret ()
      end;;
      Payment_save i
        (assign_charge success (Some (new_Date (cd_paid_at d))) d payment);;
      mret (json 200
        (verified_body "Payment success"
           (assign_charge success (Some (new_Date (cd_paid_at d))) d
              payment)))) heard).
Proof.
  intros Hv. reach_gateway Hgw. rewrite Hdata. simpl. rewrite Hstatus. simpl.
  rewrite Hdata, bool_decide_eq_true_2 by done. simpl.
  by destruct (orders w !! Payment.order payment).
Qed.

End VerifyEquations.

(** ** handleWebhook and its helpers, branch by branch *)

Lemma find_lookup (reference : string) (ledger : list Payment.t) i p :
  list_find (has_reference reference) ledger = Some (i, p) →
  ledger !! i = Some p ∧ Payment.reference p = reference.
Proof. intros H. by apply list_find_Some in H as (? & ? & _). Qed.

(** Writing back a document with the reference it had keeps every lookup by
    reference where it was. *)
Lemma find_insert (reference : string) (ledger : list Payment.t) j p q :
  ledger !! j = Some p →
  Payment.reference q = Payment.reference p →
  list_find (has_reference reference) (<[j := q]> ledger)
  = (λ '(i, x), (i, if decide (i = j) then q else x))
      <$> list_find (has_reference reference) ledger.
Proof.
  intros Hj Href.
  destruct (list_find (has_reference reference) ledger) as [[i x]|] eqn:Hf;
    simpl.
  - apply list_find_Some in Hf as (Hi & Hx & Hbefore).
    apply list_find_Some. destruct (decide (i = j)) as [->|Hne].
    + simplify_eq. split_and!.
      * apply list_lookup_insert_eq. by eapply lookup_lt_Some.
      * unfold has_reference in *. congruence.
      * intros k y Hk Hlt. rewrite list_lookup_insert_ne in Hk by lia. eauto.
    + split_and!.
      * by rewrite list_lookup_insert_ne.
      * done.
      * intros k y Hk Hlt. destruct (decide (k = j)) as [->|].
        -- rewrite list_lookup_insert_eq in Hk by (by eapply lookup_lt_Some).
           simplify_eq. unfold has_reference. rewrite Href.
           by apply (Hbefore j p).
        -- rewrite list_lookup_insert_ne in Hk by done. eauto.
  - apply list_find_None. rewrite list_find_None in Hf.
    rewrite Forall_lookup in Hf |- *. intros k y Hk.
    destruct (decide (k = j)) as [->|].
    + rewrite list_lookup_insert_eq in Hk by (by eapply lookup_lt_Some).
      simplify_eq. unfold has_reference. rewrite Href. by apply (Hf j p).
    + rewrite list_lookup_insert_ne in Hk by done. eauto.
Qed.

Lemma order_saves_emit ev w :
  order_saves (emit ev w)
  = order_saves w ++ (if is_order_save ev then [ev] else []).
Proof. unfold order_saves. simpl. by rewrite List.filter_app. Qed.

Section WebhookEquations.

Context (WS SK : option string) (hmac : string → string → string)
        (stringify : WebhookBody → string).

Abbreviation validateWebhookSignature :=
  (paystackService.validateWebhookSignature WS SK hmac stringify).
Abbreviation handleWebhook := (handleWebhook WS SK hmac stringify).

Lemma webhook_throws signature body w e :
  validateWebhookSignature signature body = Threw e →
  handleWebhook signature body w = (Threw e, w).
Proof. intros H. async_unfold. by rewrite H. Qed.

Lemma webhook_rejects signature body w :
  validateWebhookSignature signature body = Returned false →
  handleWebhook signature body w =
    (Returned (next {| message := "Invalid signature"; statusCode := 400 |}),
     emit (Logged warn "Invalid webhook signature received") w).
Proof. intros H. async_unfold. by rewrite H. Qed.

Lemma webhook_accepts signature body w :
  validateWebhookSignature signature body = Returned true →
  handleWebhook signature body w =
    (dispatch body;; mret (json 200 webhook_body))
      (emit (Logged info ("Webhook received: " +:+ event body
                          +:+ " - Reference: " +:+ cd_reference (data body)))
         w).
Proof. intros H. unfold dispatch. async_unfold. by rewrite H. Qed.

End WebhookEquations.

Section ChargeEquations.

Context (d : ChargeData) (w : World).

Lemma charge_unknown :
  list_find (has_reference (cd_reference d)) (payments w) = None →
  handleSuccessfulCharge d w =
    (Returned (),
     emit (Logged warn ("Payment not found for reference: "
                        +:+ cd_reference d)) w).
Proof. intros H. async_unfold. by rewrite H. Qed.

Lemma failed_charge_unknown :
  list_find (has_reference (cd_reference d)) (payments w) = None →
  handleFailedCharge d w =
    (Returned (),
     emit (Logged warn ("Payment not found for reference: "
                        +:+ cd_reference d)) w).
Proof. intros H. async_unfold. by rewrite H. Qed.

Context (i : nat) (payment : Payment.t)
        (Hfound : list_find (has_reference (cd_reference d)) (payments w)
                  = Some (i, payment)).

Let settled : Payment.t :=
  assign_charge success (Some (new_Date (cd_paid_at d))) d payment.

Lemma charge_refused :
  Payment.validate settled = false →
  handleSuccessfulCharge d w =
    (Threw (ValidationError (Payment.invalid_paths settled)), w).
Proof.
  intros Hbad. async_unfold. rewrite Hfound. fold settled.
  by rewrite Hbad.
Qed.

Context (Hvalid : Payment.validate settled = true).

Local Ltac save_settled :=
  destruct (find_lookup _ _ _ _ Hfound) as [Hi _];
  async_unfold; rewrite Hfound; fold settled; rewrite Hvalid;
  cbn [negb]; rewrite Hi.

Lemma charge_settles_unpaid order :
  orders w !! Payment.order payment = Some order →
  Order.isPaid order = false →
  handleSuccessfulCharge d w =
    (Returned (),
     {| payments := <[i := settled]> (payments w);
        orders := <[Order._id order := mark_paid (cd_reference d) d order]>
                    (orders w);
        trace := trace w ++
          [PaymentSaved i; OrderSaved (Order._id order);
           Logged info ("Order " +:+ Order._id order
                        +:+ " marked as paid via webhook")] |}).
Proof.
  intros Ho Hp. save_settled. simpl. rewrite Ho, Hp. simpl.
  unfold emit. simpl. by rewrite <- !app_assoc.
Qed.

Lemma charge_settles_paid order :
  orders w !! Payment.order payment = Some order →
  Order.isPaid order = true →
  handleSuccessfulCharge d w =
    (Returned (),
     {| payments := <[i := settled]> (payments w);
        orders := orders w;
        trace := trace w ++ [PaymentSaved i] |}).
Proof. intros Ho Hp. save_settled. simpl. by rewrite Ho, Hp. Qed.

Lemma charge_settles_orphan :
  orders w !! Payment.order payment = None →
  handleSuccessfulCharge d w =
    (Returned (),
     {| payments := <[i := settled]> (payments w);
        orders := orders w;
        trace := trace w ++ [PaymentSaved i] |}).
Proof. intros Ho. save_settled. simpl. by rewrite Ho. Qed.

End ChargeEquations.

Lemma failed_charge_marks d w i payment :
  list_find (has_reference (cd_reference d)) (payments w) = Some (i, payment) →
  Payment.validate payment = true →
  ∃ marked,
    Payment.status marked = failed ∧ identity marked = identity payment ∧
    Payment.validate marked = true ∧
    handleFailedCharge d w =
      (Returned (),
       {| payments := <[i := marked]> (payments w);
          orders := orders w;
          trace := trace w ++
            [PaymentSaved i;
             Logged info ("Payment " +:+ pretty i
                          +:+ " marked as failed via webhook")] |}).
Proof.
  intros Hfound Hvalid. destruct (find_lookup _ _ _ _ Hfound) as [Hi _].
  eexists. split_and!; [| | |async_unfold; rewrite Hfound;
    match goal with |- context [Payment.validate ?q] =>
      change (Payment.validate q) with (Payment.validate payment) end;
    rewrite Hvalid; cbn [negb]; rewrite Hi; simpl; unfold emit; simpl;
    rewrite <- !app_assoc; reflexivity]; done.
Qed.

(** ** Exactly-once application of a success verdict *)

Lemma signature_valid_true WS SK hmac stringify signature body :
  signature_valid WS SK hmac stringify signature body = true →
  paystackService.validateWebhookSignature WS SK hmac stringify signature body
  = Returned true.
Proof.
  unfold signature_valid.
  destruct (paystackService.validateWebhookSignature _ _ _ _ _ _)
    as [[]|]; done.
Qed.

(** A charge object with an accepted channel, assigned to a row whose amount
    and currency pass the schema, gives a row that passes it. *)
Lemma charged_valid st paid d p payment :
  identity p = identity payment →
  Payment.validate payment = true →
  Payment.paymentMethod_ok (cd_channel d) = true →
  Payment.validate (assign_charge st paid d p) = true.
Proof.
  unfold identity, Payment.validate. cbn [assign_charge Payment.amount
    Payment.currency Payment.paymentMethod]. intros Hid Hv Hch.
  simplify_eq. apply andb_true_iff in Hv as [Hv _].
  apply andb_true_iff in Hv as [Ha Hc].
  replace (Payment.amount p) with (Payment.amount payment) by congruence.
  replace (Payment.currency p) with (Payment.currency payment) by congruence.
  by rewrite Ha, Hc, Hch.
Qed.

Section Resolution.

Context (WS SK : option string) (hmac : string → string → string)
        (stringify : WebhookBody → string).

Abbreviation resolve := (resolve WS SK hmac stringify).
Abbreviation resolve_all := (resolve_all WS SK hmac stringify).
Abbreviation transitions := (transitions WS SK hmac stringify).
Abbreviation success_verdict := (success_verdict WS SK hmac stringify).
Abbreviation failure_verdict := (failure_verdict WS SK hmac stringify).
Abbreviation signature_valid := (signature_valid WS SK hmac stringify).

Lemma success_verdict_poll reference owner gw user d :
  success_verdict reference owner (Poll gw user) = Some d →
  ∃ r, transaction_verify gw reference = Resolved r ∧ vr_status r = true ∧
       vr_data r = Some d ∧ u_id user = owner ∧ cd_status d = "success".
Proof.
  simpl. destruct (transaction_verify gw reference) as [[[] [d'|]]|] eqn:Hg;
    try done.
  case_decide as H; [|done]. destruct H. intros [= ->]. by eexists.
Qed.

Lemma success_verdict_notify reference owner signature body d :
  success_verdict reference owner (Notify signature body) = Some d →
  signature_valid signature body = true ∧ event body = "charge.success" ∧
  cd_reference d = reference ∧ data body = d.
Proof.
  simpl. case_decide as H; [|done]. destruct H as (? & ? & ?).
  by intros [= <-].
Qed.

Lemma settled_status reference i payment order w :
  settled reference i payment order w →
  status_of reference w = Some success.
Proof. intros (p & Hf & Hs & _). unfold status_of. rewrite Hf. simpl. by f_equal. Qed.

(** The first success verdict on a pending payment of an unpaid order. *)
Lemma settle_first reference i payment order c d w :
  list_find (has_reference reference) (payments w) = Some (i, payment) →
  Payment.status payment = pending →
  orders w !! Payment.order payment = Some order →
  Order._id order = Payment.order payment →
  Order.isPaid order = false →
  Payment.validate payment = true →
  success_verdict reference (Payment.user payment) c = Some d →
  Payment.paymentMethod_ok (cd_channel d) = true →
  settled reference i payment (mark_paid reference d order)
    (resolve reference c w).2 ∧
  order_saves (resolve reference c w).2
    = order_saves w ++ [OrderSaved (Payment.order payment)].
Proof.
  intros Hf Hs Ho Hid Hp Hval Hv Hch.
  destruct (find_lookup _ _ _ _ Hf) as [Hi Href].
  pose proof (charged_valid success (Some (new_Date (cd_paid_at d))) d
                payment payment eq_refl Hval Hch) as Hval'.
  assert (list_find (has_reference reference)
            (<[i := assign_charge success (Some (new_Date (cd_paid_at d))) d
                      payment]> (payments w))
          = Some (i, assign_charge success (Some (new_Date (cd_paid_at d))) d
                       payment)) as Hf'.
  { rewrite (find_insert reference (payments w) i payment), Hf by done.
    simpl. by case_decide. }
  destruct c as [gw user|signature body]; simpl.
  - apply success_verdict_poll in Hv as (r & Hg & Hst & Hd & Hu & Hok).
    erewrite verify_marks_success by (done || by rewrite Hs).
    async_unfold. simpl. rewrite Ho. simpl. rewrite Hval'. simpl.
    rewrite Hi. simpl. split.
    + eexists. split_and!; [exact Hf'|done|done| |done].
      simpl. rewrite Hid. apply lookup_insert_eq.
    + unfold order_saves, emit. simpl. rewrite !List.filter_app. simpl.
      by rewrite !app_nil_r, Hid.
  - apply success_verdict_notify in Hv as (Hsig & Hev & Href' & <-).
    rewrite webhook_accepts by (by apply signature_valid_true).
    unfold dispatch. rewrite decide_True by done.
    unfold mbind, Async_bind.
    erewrite charge_settles_unpaid; [| |done|..]; simpl;
      [|by rewrite Href'|done|done].
    unfold mret, Async_ret. simpl. split.
    + eexists. split_and!; [exact Hf'|done|done| |done].
      rewrite Hid, Href'. apply lookup_insert_eq.
    + unfold order_saves. simpl. rewrite !List.filter_app. simpl.
      by rewrite !app_nil_r, Hid.
Qed.

(** A further success verdict finds the payment settled and the order paid:
    the order is not written again. *)
Lemma settle_again reference i payment order c d w :
  settled reference i payment order w →
  Payment.validate payment = true →
  success_verdict reference (Payment.user payment) c = Some d →
  Payment.paymentMethod_ok (cd_channel d) = true →
  settled reference i payment order (resolve reference c w).2 ∧
  order_saves (resolve reference c w).2 = order_saves w.
Proof.
  intros (p & Hf & Hs & Hidp & Ho & Hp) Hval Hv Hch.
  pose proof (charged_valid success (Some (new_Date (cd_paid_at d))) d
                p payment Hidp Hval Hch) as Hval'.
  assert (Payment.user p = Payment.user payment
          ∧ Payment.order p = Payment.order payment) as [Hup Hop].
  { unfold identity in Hidp. by simplify_eq. }
  destruct (find_lookup _ _ _ _ Hf) as [Hi Href].
  destruct c as [gw user|signature body]; simpl.
  - apply success_verdict_poll in Hv as (r & Hg & Hst & Hd & Hu & Hok).
    erewrite verify_already_verified by (done || congruence).
    split; [|done]. by exists p.
  - apply success_verdict_notify in Hv as (Hsig & Hev & Href' & <-).
    rewrite webhook_accepts by (by apply signature_valid_true).
    unfold dispatch. rewrite decide_True by done.
    unfold mbind, Async_bind.
    erewrite charge_settles_paid; [| |done|..]; simpl;
      [|by rewrite Href'|by rewrite Hop|done].
    unfold mret, Async_ret. simpl. split.
    + exists (assign_charge success
                (Some (new_Date (cd_paid_at (data body)))) (data body) p).
      split_and!; [|done| |done|done].
      * simpl.
        rewrite (find_insert reference (payments w) i p), Hf by done.
        simpl. by case_decide.
      * by rewrite <- Hidp.
    + unfold order_saves. simpl. rewrite !List.filter_app. simpl.
      by rewrite !app_nil_r.
Qed.

End Resolution.

Section ExactlyOnce.

Context (WS SK : option string) (hmac : string → string → string)
        (stringify : WebhookBody → string).

Abbreviation resolve := (resolve WS SK hmac stringify).
Abbreviation resolve_all := (resolve_all WS SK hmac stringify).
Abbreviation transitions := (transitions WS SK hmac stringify).
Abbreviation success_verdict := (success_verdict WS SK hmac stringify).

Lemma settle_rest reference i payment order cs : ∀ w,
  settled reference i payment order w →
  Payment.validate payment = true →
  Forall (λ c, accepted (success_verdict reference (Payment.user payment) c))
    cs →
  settled reference i payment order (resolve_all reference cs w) ∧
  order_saves (resolve_all reference cs w) = order_saves w ∧
  transitions reference cs w = 0.
Proof.
  induction cs as [|c cs IH]; intros w Hw Hval Hcs; [done|].
  apply Forall_cons in Hcs as [(d & Hd & Hch) Hcs].
  destruct (settle_again WS SK hmac stringify _ _ _ _ _ _ _ Hw Hval Hd Hch)
    as [Hw' Hsaves].
  destruct (IH _ Hw' Hval Hcs) as (Hfinal & Hsaves' & Hnone).
  simpl. split_and!; [done|congruence|].
  rewrite Hnone, decide_False; [done|].
  intros [Hpending _]. by rewrite (settled_status _ _ _ _ _ Hw) in Hpending.
Qed.

(** Exactly-once application of success verdicts, on the inputs the schema
    lets through. For a pending payment whose row passes the schema and whose
    order exists and is unpaid, success verdicts delivered one after the
    other, by polls of the owner, by signed [charge.success] notifications or
    by a mix, each with a channel the schema's [paymentMethod] accepts (or
    none): exactly one of the calls takes the payment from [pending] to
    [success], and it is settled at the end; the order is written exactly
    once, by the first call, which sets [isPaid] and the [paidAt] of the
    first verdict; after every later call the two fields are still those. *)
Theorem success_applied_exactly_once reference i payment order c d cs w :
  list_find (has_reference reference) (payments w) = Some (i, payment) →
  Payment.status payment = pending →
  orders w !! Payment.order payment = Some order →
  Order._id order = Payment.order payment →
  Order.isPaid order = false →
  Payment.validate payment = true →
  success_verdict reference (Payment.user payment) c = Some d →
  Payment.paymentMethod_ok (cd_channel d) = true →
  Forall (λ c, accepted (success_verdict reference (Payment.user payment) c))
    cs →
  transitions reference (c :: cs) w = 1 ∧
  status_of reference (resolve_all reference (c :: cs) w) = Some success ∧
  order_saves (resolve_all reference (c :: cs) w)
    = order_saves w ++ [OrderSaved (Payment.order payment)] ∧
  ∀ k, paid_fields (Payment.order payment)
         (resolve_all reference (c :: take k cs) w)
       = Some (true, Some (new_Date (cd_paid_at d))).
Proof.
  intros Hf Hs Ho Hid Hp Hval Hd Hch Hcs.
  destruct (settle_first WS SK hmac stringify _ _ _ _ _ _ _
              Hf Hs Ho Hid Hp Hval Hd Hch) as [Hw1 Hsaves1].
  destruct (settle_rest _ _ _ _ cs _ Hw1 Hval Hcs)
    as (Hfinal & Hsaves & Hnone).
  split_and!.
  - simpl. rewrite Hnone, decide_True; [done|]. split.
    + unfold status_of. rewrite Hf. simpl. by f_equal.
    + by eapply settled_status.
  - by eapply settled_status.
  - simpl. by rewrite Hsaves.
  - intros k.
    destruct (settle_rest _ _ _ _ (take k cs) _ Hw1 Hval)
      as ((p & _ & _ & _ & Ho' & _) & _).
    { by apply Forall_take. }
    simpl. unfold paid_fields. by rewrite Ho'.
Qed.

End ExactlyOnce.

Lemma success_applied_exactly_once_witness :
  Scenario.transitions Scenario.ref1
    [Scenario.notify "charge.success" (Some "card");
     Scenario.poll "success" (Some "card");
     Scenario.notify "charge.success" (Some "bank")]
    (Scenario.ledger pending) = 1
  ∧ paid_fields "O1"
      (Scenario.resolve_all Scenario.ref1
         [Scenario.notify "charge.success" (Some "card");
          Scenario.poll "success" (Some "card");
          Scenario.notify "charge.success" (Some "bank")]
         (Scenario.ledger pending))
    = Some (true, Some (new_Date "2024-01-01T00:00:00Z")).
Proof.
  destruct (success_applied_exactly_once
              Scenario.WEBHOOK_SECRET Scenario.SECRET_KEY Scenario.hmac
              Scenario.stringify Scenario.ref1 0 (Scenario.P1 pending)
              Scenario.O1 (Scenario.notify "charge.success" (Some "card"))
              (Scenario.charge "success" (Some "card"))
              [Scenario.poll "success" (Some "card");
               Scenario.notify "charge.success" (Some "bank")]
              (Scenario.ledger pending))
    as (Hone & _ & _ & Hpaid).
  - vm_compute. reflexivity.
  - reflexivity.
  - vm_compute. reflexivity.
  - reflexivity.
  - reflexivity.
  - vm_compute. reflexivity.
  - vm_compute. reflexivity.
  - vm_compute. reflexivity.
  - repeat constructor; eexists; (split; [vm_compute; reflexivity|]);
      vm_compute; reflexivity.
  - split; [exact Hone | exact (Hpaid 2)].
Defined.

(** C1, at a success verdict whose channel is outside the enum of the
    schema's [paymentMethod] (the gateway's ['apple_pay']). The payment is
    [pending] and its order unpaid. A signed [charge.success] is a success
    verdict, yet the payment's save is refused: the payment stays [pending],
    the order unpaid, and no call makes the transition. On the polling path
    the order is written before the payment's save is refused: after one poll
    the order is paid while the payment is still [pending], and a second poll
    writes the order again. *)
Lemma success_verdict_refused :
  Scenario.success_verdict Scenario.ref1 "U1"
    (Scenario.notify "charge.success" (Some "apple_pay"))
    = Some (Scenario.charge "success" (Some "apple_pay"))
  ∧ Scenario.resolve Scenario.ref1
      (Scenario.notify "charge.success" (Some "apple_pay"))
      (Scenario.ledger pending)
    = (Threw (ValidationError ["paymentMethod"]),
       emit (Logged info ("Webhook received: charge.success - Reference: "
                          +:+ Scenario.ref1))
         (Scenario.ledger pending))
  ∧ Scenario.transitions Scenario.ref1
      [Scenario.notify "charge.success" (Some "apple_pay")]
      (Scenario.ledger pending) = 0
  ∧ Scenario.success_verdict Scenario.ref1 "U1"
      (Scenario.poll "success" (Some "apple_pay"))
    = Some (Scenario.charge "success" (Some "apple_pay"))
  ∧ (Scenario.resolve Scenario.ref1
       (Scenario.poll "success" (Some "apple_pay"))
       (Scenario.ledger pending)).1
    = Threw (ValidationError ["paymentMethod"])
  ∧ Scenario.transitions Scenario.ref1
      [Scenario.poll "success" (Some "apple_pay");
       Scenario.poll "success" (Some "apple_pay")]
      (Scenario.ledger pending) = 0
  ∧ status_of Scenario.ref1
      (Scenario.resolve_all Scenario.ref1
         [Scenario.poll "success" (Some "apple_pay")]
         (Scenario.ledger pending)) = Some pending
  ∧ paid_fields "O1"
      (Scenario.resolve_all Scenario.ref1
         [Scenario.poll "success" (Some "apple_pay")]
         (Scenario.ledger pending))
    = Some (true, Some (new_Date "2024-01-01T00:00:00Z"))
  ∧ order_saves
      (Scenario.resolve_all Scenario.ref1
         [Scenario.poll "success" (Some "apple_pay");
          Scenario.poll "success" (Some "apple_pay")]
         (Scenario.ledger pending)) = [OrderSaved "O1"; OrderSaved "O1"].
Proof. vm_compute. repeat split; reflexivity. Qed.

(** ** What a resolution may touch *)

Lemma failed_charge_refused d w i payment :
  list_find (has_reference (cd_reference d)) (payments w) = Some (i, payment) →
  Payment.validate payment = false →
  handleFailedCharge d w
  = (Threw (ValidationError (Payment.invalid_paths payment)), w).
Proof.
  intros Hfound Hbad. async_unfold. rewrite Hfound.
  match goal with |- context [Payment.validate ?q] =>
    change (Payment.validate q) with (Payment.validate payment) end.
  by rewrite Hbad.
Qed.

Lemma verify_rewrites_one gw user reference w :
  rewrites_one w (verifyPayment gw user reference w).2.
Proof.
  async_unfold.
  repeat (case_match; simpl in *; simplify_eq; try (by left)).
  all: right.
  all: match goal with H : list_find _ _ = Some (?i, ?p) |- _ =>
    apply find_lookup in H as [? ?]; exists i, p end.
  all: eexists; split_and!; [done| |done]; done.
Qed.


Section Verdicts.
Context (WS SK : option string) (hmac : string → string → string)
        (stringify : WebhookBody → string).
Abbreviation resolve := (resolve WS SK hmac stringify).
Abbreviation failure_verdict := (failure_verdict WS SK hmac stringify).
Abbreviation handleWebhook := (handleWebhook WS SK hmac stringify).
Abbreviation signature_valid := (signature_valid WS SK hmac stringify).

Lemma identity_insert (ledger : list Payment.t) i p q :
  ledger !! i = Some p → identity q = identity p →
  identity <$> <[i := q]> ledger = identity <$> ledger.
Proof.
  intros Hi Hq. rewrite list_fmap_insert, Hq.
  apply list_insert_id. by rewrite list_lookup_fmap, Hi.
Qed.

Lemma rewrites_one_identity w w' :
  rewrites_one w w' → identity <$> payments w' = identity <$> payments w.
Proof.
  intros [->|(i & p & q & Hi & Hq & ->)]; [done|]. by eapply identity_insert.
Qed.

Ltac saves_same :=
  unfold order_saves, emit; simpl; rewrite ?List.filter_app; simpl;
  rewrite ?app_nil_r; done.

Ltac decided :=
  repeat match goal with
  | H : bool_decide _ = true |- _ => apply bool_decide_eq_true in H
  | H : bool_decide _ = false |- _ => apply bool_decide_eq_false in H
  end.

Lemma failure_verdict_poll reference gw user d :
  failure_verdict reference (Poll gw user) = Some d →
  ∃ r, transaction_verify gw reference = Resolved r ∧ vr_status r = true ∧
       vr_data r = Some d ∧ cd_status d ≠ "success".
Proof.
  simpl. destruct (transaction_verify gw reference) as [[[] [d'|]]|] eqn:Hg;
    try done.
  case_decide as H; [done|]. intros [= ->]. by eexists.
Qed.

Lemma failure_verdict_notify reference signature body d :
  failure_verdict reference (Notify signature body) = Some d →
  signature_valid signature body = true ∧
  event body = "charge.failed" ∧
  cd_reference d = reference ∧ data body = d.
Proof.
  simpl. case_decide as H; [|done]. destruct H as (? & ? & ?).
  by intros [= <-].
Qed.

(** C9. A call that carries a failure verdict (a poll the gateway answers
    with a charge whose status is not ['success'], or a signed
    [charge.failed] event) writes no order: the orders are as they were,
    member for member, and no order write is recorded. In the ledger every
    row keeps its user, order, reference, amount and currency, and the only
    row that can differ is the one of the reference, then in [failed]
    status. *)
Theorem failure_touches_payment_only reference c d w :
  failure_verdict reference c = Some d →
  orders (resolve reference c w).2 = orders w ∧
  order_saves (resolve reference c w).2 = order_saves w ∧
  identity <$> payments (resolve reference c w).2 = identity <$> payments w ∧
  ∀ j, payments (resolve reference c w).2 !! j ≠ payments w !! j →
    ∃ p', payments (resolve reference c w).2 !! j = Some p' ∧
          Payment.reference p' = reference ∧ Payment.status p' = failed.
Proof.
  intros Hv. destruct c as [gw user|signature body]; simpl.
  - apply failure_verdict_poll in Hv as (r & Hg & Hst & Hd & Hno).
    split_and!; [| |apply rewrites_one_identity, verify_rewrites_one|intros j].
    all: async_unfold; rewrite ?Hg; simpl; rewrite ?Hd; simpl.
    all: repeat (case_match; simpl in *; simplify_eq; decided; try done);
      try saves_same.
    all: simpl.
    all: match goal with H : list_find _ _ = Some (?i, ?p) |- _ =>
      apply find_lookup in H as [? ?];
      destruct (decide (j = i)) as [->|];
        [|by rewrite list_lookup_insert_ne] end.
    all: rewrite list_lookup_insert_eq by (by eapply lookup_lt_Some).
    all: intros _; eexists; split_and!; done.
  - apply failure_verdict_notify in Hv as (Hsig & Hev & Href & <-).
    rewrite webhook_accepts by (by apply signature_valid_true).
    unfold dispatch. rewrite (decide_False (P := event body = "charge.success")) by (by rewrite Hev).
    rewrite decide_True by done.
    destruct (list_find (has_reference (cd_reference (data body))) (payments w))
      as [[i p]|] eqn:Hf.
    + destruct (find_lookup _ _ _ _ Hf) as [Hi Hr].
      unfold mbind, Async_bind.
      destruct (Payment.validate p) eqn:Hval.
      * match goal with |- context [handleFailedCharge ?d ?w0] =>
          destruct (failed_charge_marks d w0 i p Hf Hval)
            as (q & Hq & Hid & _ & Hrun)
        end.
        rewrite Hrun. simpl. split_and!.
        -- done.
        -- saves_same.
        -- by eapply identity_insert.
        -- intros j. destruct (decide (j = i)) as [->|];
             [|by rewrite list_lookup_insert_ne].
           rewrite list_lookup_insert_eq by (by eapply lookup_lt_Some).
           intros _. exists q. split_and!; [done| |done].
           unfold identity in Hid. simplify_eq. congruence.
      * match goal with |- context [handleFailedCharge ?d ?w0] =>
          rewrite (failed_charge_refused d w0 i p Hf Hval)
        end.
        simpl. split_and!; [done|saves_same|done|done].
    + unfold mbind, Async_bind. rewrite failed_charge_unknown by done.
      simpl. split_and!; [done|saves_same|done|done].
Qed.

(** C6. A poll for an existing payment by a user who is not its owner ends
    in a 403 handed to [next]; no request goes to the gateway and the ledger
    and the orders are as they were. *)
Theorem poll_by_stranger_forbidden gw user reference w i payment :
  list_find (has_reference reference) (payments w) = Some (i, payment) →
  Payment.user payment ≠ u_id user →
  (∃ err, (verifyPayment gw user reference w).1 = Returned (next err)
          ∧ statusCode err = 403) ∧
  gateway_calls (verifyPayment gw user reference w).2 = gateway_calls w ∧
  payments (verifyPayment gw user reference w).2 = payments w ∧
  orders (verifyPayment gw user reference w).2 = orders w.
Proof.
  intros Hf Hu. erewrite verify_not_owner by done. simpl.
  split_and!; try done. by eexists.
Qed.

(** C4. When the HMAC of the body under the configured secret differs from
    the signature header, an absent header included, [handleWebhook] hands a
    400 ['Invalid signature'] to [next]; the ledger and the orders are as they
    were and the only effect is the warning in the log. The outcome does not
    mention the body: no member of it is read before the check. *)
Theorem webhook_signature_gate signature body w secret :
  paystackService.webhook_secret WS SK = Some secret →
  Some (hmac secret (stringify body)) ≠ signature →
  (∃ err, (handleWebhook signature body w).1
            = Returned (next err)
          ∧ message err = "Invalid signature" ∧ statusCode err = 400) ∧
  payments (handleWebhook signature body w).2
    = payments w ∧
  orders (handleWebhook signature body w).2 = orders w ∧
  trace (handleWebhook signature body w).2
    = trace w ++ [Logged warn "Invalid webhook signature received"].
Proof.
  intros Hsecret Hne. rewrite webhook_rejects.
  - simpl. split_and!; try done. by eexists.
  - unfold paystackService.validateWebhookSignature. rewrite Hsecret.
    by rewrite bool_decide_eq_false_2.
Qed.

(** The acknowledgment of a signed notification, on the inputs the schema
    lets through. A correctly signed notification is answered with the 200
    provided that, when it names a payment of the ledger, the stored row
    passes the schema and, for a [charge.success], the channel of the charge
    is one the schema's [paymentMethod] accepts (or absent). When the
    reference is unknown nothing is written, and for a charge event the miss
    is logged as a warning; an event that is neither [charge.success] nor
    [charge.failed] writes nothing. *)
Theorem webhook_acknowledged signature body w :
  signature_valid signature body = true →
  (∀ i p,
     list_find (has_reference (cd_reference (data body))) (payments w)
     = Some (i, p) →
     Payment.validate p = true ∧
     (event body = "charge.success" →
      Payment.paymentMethod_ok (cd_channel (data body)) = true)) →
  (handleWebhook signature body w).1
    = Returned (json 200 webhook_body) ∧
  (list_find (has_reference (cd_reference (data body))) (payments w) = None →
   payments (handleWebhook signature body w).2
     = payments w ∧
   orders (handleWebhook signature body w).2
     = orders w ∧
   (event body = "charge.success" ∨ event body = "charge.failed" →
    Logged warn ("Payment not found for reference: "
                 +:+ cd_reference (data body))
    ∈ trace (handleWebhook signature body w).2)) ∧
  (event body ≠ "charge.success" → event body ≠ "charge.failed" →
   payments (handleWebhook signature body w).2
     = payments w ∧
   orders (handleWebhook signature body w).2
     = orders w).
Proof.
  intros Hsig Hrow. rewrite webhook_accepts by (by apply signature_valid_true).
  unfold dispatch, mbind, Async_bind.
  destruct (decide (event body = "charge.success")) as [Hev|Hev].
  - destruct (list_find (has_reference (cd_reference (data body))) (payments w))
      as [[i p]|] eqn:Hf.
    + destruct (Hrow i p eq_refl) as [Hval Hch]. specialize (Hch Hev).
      pose proof (charged_valid success
                    (Some (new_Date (cd_paid_at (data body)))) (data body)
                    p p eq_refl Hval Hch) as Hval'.
      split_and!; [|done|done].
      destruct (orders w !! Payment.order p) as [order|] eqn:Ho;
        [destruct (Order.isPaid order) eqn:Hp|].
      * by erewrite charge_settles_paid.
      * by erewrite charge_settles_unpaid.
      * by erewrite charge_settles_orphan.
    + rewrite charge_unknown by done. simpl. split_and!; try done.
      intros _. split_and!; try done. intros _. clear. set_solver.
  - destruct (decide (event body = "charge.failed")) as [Hev'|Hev'].
    + destruct (list_find (has_reference (cd_reference (data body))) (payments w))
        as [[i p]|] eqn:Hf.
      * destruct (Hrow i p eq_refl) as [Hval _].
        match goal with |- context [handleFailedCharge ?d ?w0] =>
          destruct (failed_charge_marks d w0 i p Hf Hval)
            as (q & Hq & Hid & _ & Hrun)
        end.
        rewrite Hrun. simpl. split_and!; done.
      * rewrite failed_charge_unknown by done. simpl. split_and!; try done.
        intros _. split_and!; try done. intros _. clear. set_solver.
    + unfold logger. case_decide; simpl; (split_and!; [done| |done]);
        intros _; (split_and!; [done|done|]); by intros [|].
Qed.

End Verdicts.

(** ** Worked examples of the resolution properties *)

Lemma failure_touches_payment_only_witness :
  orders (Scenario.resolve Scenario.ref1
            (Scenario.notify "charge.failed" (Some "card"))
            (Scenario.ledger pending)).2
  = orders (Scenario.ledger pending)
  ∧ status_of Scenario.ref1
      (Scenario.resolve Scenario.ref1
         (Scenario.notify "charge.failed" (Some "card"))
         (Scenario.ledger pending)).2 = Some failed.
Proof.
  destruct (failure_touches_payment_only
              Scenario.WEBHOOK_SECRET Scenario.SECRET_KEY Scenario.hmac
              Scenario.stringify Scenario.ref1
              (Scenario.notify "charge.failed" (Some "card"))
              (Scenario.charge "failed" (Some "card"))
              (Scenario.ledger pending)) as (Horders & _).
  - vm_compute. reflexivity.
  - split; [exact Horders | vm_compute; reflexivity].
Defined.

Lemma poll_by_stranger_forbidden_witness :
  (∃ err, (verifyPayment (Scenario.gateway (Scenario.charge "success" None))
             Scenario.U2 Scenario.ref1 (Scenario.ledger pending)).1
          = Returned (next err) ∧ statusCode err = 403)
  ∧ gateway_calls
      (verifyPayment (Scenario.gateway (Scenario.charge "success" None))
         Scenario.U2 Scenario.ref1 (Scenario.ledger pending)).2 = [].
Proof.
  destruct (poll_by_stranger_forbidden
              (Scenario.gateway (Scenario.charge "success" None))
              Scenario.U2 Scenario.ref1 (Scenario.ledger pending)
              0 (Scenario.P1 pending)) as (Herr & Hcalls & _).
  - vm_compute. reflexivity.
  - vm_compute. discriminate.
  - split; [exact Herr | exact Hcalls].
Defined.

Lemma webhook_signature_gate_witness :
  payments (Scenario.handleWebhook (Some "forged")
              (Scenario.notification "charge.success" (Some "card"))
              (Scenario.ledger pending)).2
  = [Scenario.P1 pending]
  ∧ payments (Scenario.handleWebhook None
                (Scenario.notification "charge.success" (Some "card"))
                (Scenario.ledger pending)).2
    = [Scenario.P1 pending].
Proof.
  split.
  - destruct (webhook_signature_gate
                Scenario.WEBHOOK_SECRET Scenario.SECRET_KEY Scenario.hmac
                Scenario.stringify (Some "forged")
                (Scenario.notification "charge.success" (Some "card"))
                (Scenario.ledger pending) "whsec_test") as (_ & Hp & _).
    + reflexivity.
    + vm_compute. discriminate.
    + exact Hp.
  - destruct (webhook_signature_gate
                Scenario.WEBHOOK_SECRET Scenario.SECRET_KEY Scenario.hmac
                Scenario.stringify None
                (Scenario.notification "charge.success" (Some "card"))
                (Scenario.ledger pending) "whsec_test") as (_ & Hp & _).
    + reflexivity.
    + discriminate.
    + exact Hp.
Defined.

Lemma webhook_acknowledged_witness :
  (Scenario.handleWebhook
     (Scenario.sign (Scenario.notification "charge.success" (Some "card")))
     (Scenario.notification "charge.success" (Some "card"))
     (Scenario.ledger pending)).1
  = Returned (json 200 webhook_body).
Proof.
  destruct (webhook_acknowledged
              Scenario.WEBHOOK_SECRET Scenario.SECRET_KEY Scenario.hmac
              Scenario.stringify
              (Scenario.sign
                 (Scenario.notification "charge.success" (Some "card")))
              (Scenario.notification "charge.success" (Some "card"))
              (Scenario.ledger pending)) as (Hack & _).
  - vm_compute. reflexivity.
  - intros i p Hfound. vm_compute in Hfound.
    injection Hfound as _ <-. split; [|intros _]; reflexivity.
  - exact Hack.
Defined.

(** C7, at a correctly signed [charge.success] for a payment of the
    ledger whose channel is outside the enum of the schema's [paymentMethod]
    (the gateway's ['apple_pay']): the handler ends in the validation error
    of the payment's save, not in the 200 its closing comment promises, and
    neither the payment nor the order is written. *)
Lemma signed_success_unacknowledged :
  signature_valid Scenario.WEBHOOK_SECRET Scenario.SECRET_KEY Scenario.hmac
    Scenario.stringify
    (Scenario.sign (Scenario.notification "charge.success" (Some "apple_pay")))
    (Scenario.notification "charge.success" (Some "apple_pay")) = true
  ∧ Scenario.handleWebhook
      (Scenario.sign
         (Scenario.notification "charge.success" (Some "apple_pay")))
      (Scenario.notification "charge.success" (Some "apple_pay"))
      (Scenario.ledger pending)
    = (Threw (ValidationError ["paymentMethod"]),
       emit (Logged info ("Webhook received: charge.success - Reference: "
                          +:+ Scenario.ref1))
         (Scenario.ledger pending)).
Proof. vm_compute. split; reflexivity. Qed.



(** * The server as a whole: what no sequence of requests can do *)

(** ** One request, one step of the ledger *)

Lemma verify_ledger_step gw user reference w :
  ledger_step (payments w) (payments (verifyPayment gw user reference w).2).
Proof.
  async_unfold.
  repeat (case_match; simpl in *; simplify_eq; try (by constructor 1)).
  all: match goal with H : list_find _ _ = Some (?i, ?p) |- _ =>
    apply find_lookup in H as [? ?] end.
  all: simpl; match goal with
    | Hv : negb (Payment.validate ?q) = false, Hi : _ !! ?i = Some ?p
      |- ledger_step _ (<[?i := ?q]> _) =>
        apply (ledger_rewrite _ _ i p q);
          [done|done|by apply negb_false_iff|done]
    end.
Qed.

Lemma webhook_ledger_step WS SK hmac str signature body w :
  ledger_step (payments w)
    (payments (handleWebhook WS SK hmac str signature body w).2).
Proof.
  async_unfold.
  repeat (case_match; simpl in *; simplify_eq; try (by constructor 1)).
  all: match goal with H : list_find _ _ = Some (?i, ?p) |- _ =>
    apply find_lookup in H as [? ?] end.
  all: simpl; match goal with
    | Hv : negb (Payment.validate ?q) = false, Hi : _ !! ?i = Some ?p
      |- ledger_step _ (<[?i := ?q]> _) =>
        apply (ledger_rewrite _ _ i p q);
          [done|done|by apply negb_false_iff|done]
    end.
Qed.

Lemma initialize_ledger_step gw Date_now user vd w :
  ledger_step (payments w)
    (payments (initializePayment gw Date_now user vd w).2).
Proof.
  async_unfold.
  repeat (case_match; simpl in *; simplify_eq; try (by constructor 1)).
  eapply ledger_append; [by apply negb_false_iff| |done|done|done].
  simpl. eapply bool_decide_eq_false. eassumption.
Qed.

Lemma serve_all_snoc WS SK hmac str rqs rq w :
  serve_all WS SK hmac str (rqs ++ [rq]) w
  = (serve WS SK hmac str rq (serve_all WS SK hmac str rqs w)).2.
Proof. unfold serve_all. by rewrite foldl_app. Qed.

Lemma initialize_orders gw Date_now user vd w :
  orders (initializePayment gw Date_now user vd w).2 = orders w.
Proof.
  async_unfold. repeat (case_match; simpl in *; simplify_eq; try done).
Qed.

Lemma verify_orders_step gw user reference w :
  orders_step (orders w) (orders (verifyPayment gw user reference w).2).
Proof.
  async_unfold.
  repeat (case_match; simpl in *; simplify_eq; try (by constructor 1)).
  all: by eapply orders_paid.
Qed.

Lemma webhook_orders_step WS SK hmac str signature body w :
  orders_step (orders w)
    (orders (handleWebhook WS SK hmac str signature body w).2).
Proof.
  async_unfold.
  repeat (case_match; simpl in *; simplify_eq; try (by constructor 1)).
  all: by eapply orders_paid.
Qed.

Lemma gateway_calls_emit ev w :
  gateway_calls (emit ev w)
  = gateway_calls w ++ (if is_gateway_call ev then [ev] else []).
Proof. unfold gateway_calls. simpl. by rewrite List.filter_app. Qed.

Ltac calls_same :=
  unfold gateway_calls, emit; simpl; rewrite ?List.filter_app; simpl;
  rewrite ?app_nil_r; try done.

Lemma initialize_appends gw Date_now user vd w :
  payments (initializePayment gw Date_now user vd w).2 = payments w
  ∨ ∃ order q,
      orders w !! orderId vd = Some order ∧
      Order.user order = u_id user ∧ Order.isPaid order = false ∧
      Payment.order q = orderId vd ∧ Payment.status q = pending ∧
      list_find (active (orderId vd)) (payments w) = None ∧
      payments (initializePayment gw Date_now user vd w).2
      = payments w ++ [q].
Proof.
  async_unfold.
  repeat (case_match; simpl in *; simplify_eq; try (by left)).
  right. eexists _, _. split_and!; [done| |done| | |done|reflexivity]; try done.
  match goal with H : bool_decide (_ ≠ _) = false |- _ =>
    apply bool_decide_eq_false in H; by apply dec_stable in H end.
Qed.

Lemma find_insert_same reference (ledger : list Payment.t) i p q :
  list_find (has_reference reference) ledger = Some (i, p) →
  Payment.reference q = Payment.reference p →
  list_find (has_reference reference) (<[i := q]> ledger) = Some (i, q).
Proof.
  intros Hf Hq. destruct (find_lookup _ _ _ _ Hf) as [Hi _].
  rewrite (find_insert reference ledger i p q Hi Hq), Hf. simpl.
  by rewrite decide_True.
Qed.

Lemma mark_paid_insert reference d order k (os : gmap string Order.t) :
  os !! k = Some order →
  ∃ order',
    <[Order._id order := mark_paid reference d order]> os !! k = Some order' ∧
    <[Order._id order' := mark_paid reference d order']>
      (<[Order._id order := mark_paid reference d order]> os)
    = <[Order._id order := mark_paid reference d order]> os.
Proof.
  intros Hk. destruct (decide (Order._id order = k)) as [<-|Hne].
  - exists (mark_paid reference d order). rewrite lookup_insert_eq.
    split; [done|]. simpl. by rewrite insert_insert_eq.
  - exists order. rewrite lookup_insert_ne by done. split; [done|].
    by rewrite insert_insert_eq.
Qed.

Lemma verify_idempotent gw user reference w :
  store (verifyPayment gw user reference
           (verifyPayment gw user reference w).2).2
  = store (verifyPayment gw user reference w).2.
Proof.
  destruct (list_find (has_reference reference) (payments w))
    as [[i p]|] eqn:Hf.
  2: { rewrite (verify_not_found gw user reference w) by done. simpl.
       by rewrite verify_not_found. }
  destruct (decide (Payment.user p = u_id user)) as [Hu|Hu];
    [|erewrite (verify_not_owner gw user reference w) by done; simpl;
      by erewrite verify_not_owner].
  destruct (decide (Payment.status p = success)) as [Hs|Hs];
    [erewrite (verify_already_verified gw user reference w) by done; simpl;
     by erewrite verify_already_verified|].
  destruct (transaction_verify gw reference) as [r|msg] eqn:Hg.
  2: { erewrite (verify_gateway_rejects gw user reference w) by done.
       simpl. by erewrite verify_gateway_rejects. }
  destruct (vr_data r) as [d|] eqn:Hd.
  2: { destruct (verify_gateway_no_data gw user reference w i p Hf Hu Hs r
                   Hg Hd) as (e & l & ->).
       simpl.
       edestruct (verify_gateway_no_data gw user reference) as (e' & l' & ->);
         [| | |done..]; done. }
  destruct (vr_status r) eqn:Hst.
  2: { erewrite (verify_gateway_refuses gw user reference w) by done.
       simpl. by erewrite verify_gateway_refuses. }
  destruct (find_lookup _ _ _ _ Hf) as [Hi Href].
  destruct (decide (cd_status d = "success")) as [Hv|Hv].
  - erewrite (verify_marks_success gw user reference w) by done.
    set (q := assign_charge success (Some (new_Date (cd_paid_at d))) d p).
    destruct (Payment.validate q) eqn:Hq.
    + (* saved: the second poll finds it verified *)
      destruct (orders w !! Payment.order p) as [order|] eqn:Ho.
      all: async_unfold; simpl; fold q; rewrite Hq; simpl; rewrite Hi; simpl.
      all: rewrite (find_insert_same reference _ i p q Hf eq_refl).
      all: rewrite bool_decide_eq_false_2 by (by intros []); simpl.
      all: done.
    + (* refused: the order was written, the payment is as it was *)
      destruct (orders w !! Payment.order p) as [order|] eqn:Ho.
      * destruct (mark_paid_insert reference d order _ _ Ho)
          as (order' & Ho' & Hins).
        async_unfold. simpl. fold q. rewrite Hq. simpl. rewrite Hf.
        rewrite bool_decide_eq_false_2 by (by intros []).
        rewrite bool_decide_eq_false_2 by done. simpl.
        rewrite Hg. simpl. rewrite Hd. simpl. rewrite Hst. simpl.
        rewrite Hd. rewrite bool_decide_eq_true_2 by done. simpl.
        rewrite Ho'. simpl. fold q. rewrite Hq. simpl.
        unfold store. simpl. by rewrite Hins.
      * async_unfold. simpl. fold q. rewrite Hq. simpl. rewrite Hf.
        rewrite bool_decide_eq_false_2 by (by intros []).
        rewrite bool_decide_eq_false_2 by done. simpl.
        rewrite Hg. simpl. rewrite Hd. simpl. rewrite Hst. simpl.
        rewrite Hd. rewrite bool_decide_eq_true_2 by done. simpl.
        rewrite Ho. simpl. fold q. by rewrite Hq.
  - erewrite (verify_marks_failed gw user reference w) by done.
    set (q := assign_charge failed (Payment.paidAt p) d p).
    destruct (Payment.validate q) eqn:Hq.
    + async_unfold. simpl. fold q. rewrite Hq. simpl. rewrite Hi. simpl.
      rewrite (find_insert_same reference _ i p q Hf eq_refl).
      rewrite bool_decide_eq_false_2 by (by intros []).
      rewrite bool_decide_eq_false_2 by done. simpl.
      rewrite Hg. simpl. rewrite Hd. simpl. rewrite Hst. simpl.
      rewrite Hd. rewrite bool_decide_eq_false_2 by done. simpl.
      change (assign_charge failed (Payment.paidAt p) d q) with q.
      rewrite Hq. simpl.
      rewrite list_lookup_insert_eq by (by eapply lookup_lt_Some). simpl.
      unfold store. simpl. by rewrite list_insert_insert_eq.
    + async_unfold. simpl. fold q. rewrite Hq. simpl. rewrite Hf.
      rewrite bool_decide_eq_false_2 by (by intros []).
      rewrite bool_decide_eq_false_2 by done. simpl.
      rewrite Hg. simpl. rewrite Hd. simpl. rewrite Hst. simpl.
      rewrite Hd. rewrite bool_decide_eq_false_2 by done. simpl.
      fold q. by rewrite Hq.
Qed.

Lemma success_charge_idempotent d w :
  store (handleSuccessfulCharge d (handleSuccessfulCharge d w).2).2
  = store (handleSuccessfulCharge d w).2.
Proof.
  destruct (list_find (has_reference (cd_reference d)) (payments w))
    as [[i p]|] eqn:Hf.
  2: { rewrite (charge_unknown d w) by done. simpl.
       by rewrite charge_unknown. }
  destruct (find_lookup _ _ _ _ Hf) as [Hi Href].
  set (q := assign_charge success (Some (new_Date (cd_paid_at d))) d p).
  destruct (Payment.validate q) eqn:Hq.
  2: { rewrite (charge_refused d w i p Hf Hq). simpl.
       by rewrite (charge_refused d w i p Hf Hq). }
  pose proof (find_insert_same (cd_reference d) _ i p q Hf eq_refl) as Hf'.
  destruct (orders w !! Payment.order p) as [order|] eqn:Ho;
    [destruct (Order.isPaid order) eqn:Hp|].
  - rewrite (charge_settles_paid d w i p Hf Hq order Ho Hp). simpl.
    erewrite charge_settles_paid; [|exact Hf'|done|exact Ho|exact Hp].
    unfold store. simpl. by rewrite list_insert_insert_eq.
  - rewrite (charge_settles_unpaid d w i p Hf Hq order Ho Hp). simpl.
    destruct (mark_paid_insert (cd_reference d) d order _ _ Ho)
      as (order' & Ho' & Hins).
    destruct (Order.isPaid order') eqn:Hp'.
    + erewrite charge_settles_paid; [|exact Hf'|done|exact Ho'|exact Hp'].
      unfold store. simpl. by rewrite list_insert_insert_eq.
    + erewrite charge_settles_unpaid; [|exact Hf'|done|exact Ho'|exact Hp'].
      unfold store. simpl. by rewrite list_insert_insert_eq, Hins.
  - rewrite (charge_settles_orphan d w i p Hf Hq Ho). simpl.
    erewrite charge_settles_orphan; [|exact Hf'|done|exact Ho].
    unfold store. simpl. by rewrite list_insert_insert_eq.
Qed.

Lemma failed_charge_idempotent d w :
  store (handleFailedCharge d (handleFailedCharge d w).2).2
  = store (handleFailedCharge d w).2.
Proof.
  destruct (list_find (has_reference (cd_reference d)) (payments w))
    as [[i p]|] eqn:Hf.
  2: { rewrite (failed_charge_unknown d w) by done. simpl.
       by rewrite failed_charge_unknown. }
  destruct (find_lookup _ _ _ _ Hf) as [Hi Href].
  destruct (Payment.validate p) eqn:Hp.
  2: { rewrite (failed_charge_refused d w i p Hf Hp). simpl.
       by rewrite (failed_charge_refused d w i p Hf Hp). }
  async_unfold. rewrite Hf.
  match goal with |- context [<[i := ?q0]> _] => set (q := q0) end.
  change (Payment.validate q) with (Payment.validate p). rewrite Hp. simpl.
  rewrite Hi. simpl.
  rewrite (find_insert_same (cd_reference d) _ i p q Hf eq_refl).
  match goal with |- context [Payment.validate ?q0] =>
    change (Payment.validate q0) with (Payment.validate p) end.
  rewrite Hp. simpl.
  rewrite list_lookup_insert_eq by (by eapply lookup_lt_Some). simpl.
  unfold store. simpl. by rewrite list_insert_insert_eq.
Qed.

Lemma success_charge_local d w v :
  store w = store v →
  store (handleSuccessfulCharge d w).2 = store (handleSuccessfulCharge d v).2.
Proof.
  destruct w, v. unfold store. simpl. intros [= -> ->].
  async_unfold. simpl.
  repeat (case_match; simpl in *; simplify_eq; try done).
Qed.

Lemma failed_charge_local d w v :
  store w = store v →
  store (handleFailedCharge d w).2 = store (handleFailedCharge d v).2.
Proof.
  destruct w, v. unfold store. simpl. intros [= -> ->].
  async_unfold. simpl.
  repeat (case_match; simpl in *; simplify_eq; try done).
Qed.

Lemma then_ret_snd {A B} (m : Async A) (b : B) w :
  ((m;; mret b) w).2 = (m w).2.
Proof. unfold mbind, Async_bind. by destruct (m w) as [[] ?]. Qed.

Lemma webhook_idempotent WS SK hmac str signature body w :
  store (handleWebhook WS SK hmac str signature body
           (handleWebhook WS SK hmac str signature body w).2).2
  = store (handleWebhook WS SK hmac str signature body w).2.
Proof.
  destruct (paystackService.validateWebhookSignature WS SK hmac str
              signature body) as [[]|e] eqn:Hsig.
  - rewrite !webhook_accepts by done. rewrite !then_ret_snd.
    unfold dispatch. repeat case_decide; try done.
    + etrans; [|apply success_charge_idempotent].
      by apply success_charge_local.
    + etrans; [|apply failed_charge_idempotent].
      by apply failed_charge_local.
  - rewrite (webhook_rejects WS SK hmac str signature body w) by done.
    simpl. by rewrite webhook_rejects.
  - rewrite (webhook_throws WS SK hmac str signature body w e) by done.
    simpl. by rewrite (webhook_throws _ _ _ _ _ _ _ e).
Qed.

Lemma initialize_local gw Date_now user vd w v :
  store w = store v →
  store (initializePayment gw Date_now user vd w).2
  = store (initializePayment gw Date_now user vd v).2.
Proof.
  destruct w, v. unfold store. simpl. intros [= -> ->].
  async_unfold. simpl.
  repeat (case_match; simpl in *; simplify_eq; try done).
Qed.

Lemma find_active_new oid (ledger : list Payment.t) q :
  list_find (active oid) ledger = None → active oid q →
  list_find (active oid) (ledger ++ [q]) = Some (List.length ledger, q).
Proof.
  intros Hnone Hq. apply list_find_Some. split_and!.
  - by rewrite lookup_app_r, Nat.sub_diag.
  - done.
  - intros j y Hj Hlt. rewrite lookup_app_l in Hj by done.
    rewrite list_find_None, Forall_lookup in Hnone. by eapply Hnone.
Qed.

Lemma initialize_repeated gw Date_now user vd w :
  store (initializePayment gw Date_now user vd
           (initializePayment gw Date_now user vd w).2).2
  = store (initializePayment gw Date_now user vd w).2.
Proof.
  pose proof (initialize_orders gw Date_now user vd w) as Horders.
  destruct (initialize_appends gw Date_now user vd w)
    as [Hsame|(order & q & Ho & Hu & Hp & Hq & Hs & Hnone & Happ)].
  - rewrite (initialize_local gw Date_now user vd _ w).
    + unfold store. by rewrite Hsame, Horders.
    + unfold store. by rewrite Hsame, Horders.
  - erewrite (initialize_existing_pending gw Date_now user vd
                (initializePayment gw Date_now user vd w).2 order).
    + done.
    + by rewrite Horders.
    + done.
    + done.
    + rewrite Happ. apply find_active_new; [done|].
      split; [done|]. rewrite Hs. set_solver.
    + by rewrite Hs.
Qed.

Section ServerFacts.
Context (WS SK : option string) (hmac : string → string → string)
        (stringify : WebhookBody → string).
Abbreviation serve := (serve WS SK hmac stringify).
Abbreviation serve_all := (serve_all WS SK hmac stringify).

Lemma serve_ledger_step rq w :
  ledger_step (payments w) (payments (serve rq w).2).
Proof.
  destruct rq; simpl.
  - apply initialize_ledger_step.
  - apply verify_ledger_step.
  - apply webhook_ledger_step.
Qed.


Lemma ledger_step_identity l l' :
  ledger_step l l' → (identity <$> l) `prefix_of` (identity <$> l').
Proof.
  intros [->|i p q Hi Hq _ ->|q _ _ _ _ ->].
  - done.
  - by erewrite identity_insert.
  - rewrite fmap_app. by apply prefix_app_r.
Qed.

(** X1. The ledger is append-only. Whatever requests are served, the rows
    that were there keep their place and their user, order, reference,
    amount and currency; at most one row is added per request. *)
Theorem ledger_append_only rqs w :
  (identity <$> payments w) `prefix_of`
    (identity <$> payments (serve_all rqs w)) ∧
  (List.length (payments (serve_all rqs w))
   ≤ List.length (payments w) + List.length rqs)%nat.
Proof.
  induction rqs as [|rq rqs IH] using rev_ind; simpl.
  - split; [done|lia].
  - rewrite serve_all_snoc, length_app. simpl.
    destruct IH as [IH1 IH2].
    pose proof (serve_ledger_step rq (serve_all rqs w)) as Hstep.
    split.
    + etrans; [done|]. by apply ledger_step_identity.
    + destruct Hstep as [->|i p q Hi Hq _ ->|q _ _ _ _ ->].
      * lia.
      * rewrite length_insert. lia.
      * rewrite length_app. simpl. lia.
Qed.

(** X2. A ledger whose rows all pass the validators of the schema stays
    so under every sequence of requests: a refused write leaves the stored
    row as it was. *)
Theorem ledger_stays_valid rqs w :
  ledger_valid (payments w) → ledger_valid (payments (serve_all rqs w)).
Proof.
  intros Hw. induction rqs as [|rq rqs IH] using rev_ind; [done|].
  rewrite serve_all_snoc. unfold ledger_valid in *.
  destruct (serve_ledger_step rq (serve_all rqs w))
    as [->|i p q Hi Hq Hv ->|q Hv _ _ _ ->]; [done| |].
  - by apply Forall_insert.
  - apply Forall_app. split; [done|]. by constructor.
Qed.

Lemma reference_insert (ledger : list Payment.t) i p q :
  ledger !! i = Some p → identity q = identity p →
  Payment.reference <$> <[i := q]> ledger = Payment.reference <$> ledger.
Proof.
  intros Hi Hq. rewrite list_fmap_insert.
  apply list_insert_id. rewrite list_lookup_fmap, Hi. simpl.
  unfold identity in Hq. f_equal. congruence.
Qed.

(** X3. References stay unique: no sequence of requests brings two rows
    under one reference into a ledger that had none. *)
Theorem references_stay_unique rqs w :
  references_unique (payments w) →
  references_unique (payments (serve_all rqs w)).
Proof.
  intros Hw. induction rqs as [|rq rqs IH] using rev_ind; [done|].
  rewrite serve_all_snoc. unfold references_unique in *.
  destruct (serve_ledger_step rq (serve_all rqs w))
    as [->|i p q Hi Hq Hv ->|q Hv Hnew _ _ ->]; [done| |].
  - by erewrite reference_insert.
  - rewrite fmap_app. simpl. apply NoDup_app. split_and!; [done| |].
    + intros r Hr Hq. apply list_elem_of_singleton in Hq as ->. done.
    + apply NoDup_singleton.
Qed.
Lemma serve_orders_step rq w :
  orders_step (orders w) (orders (serve rq w).2).
Proof.
  destruct rq; simpl.
  - left. apply initialize_orders.
  - apply verify_orders_step.
  - apply webhook_orders_step.
Qed.

(** X4. Orders are permanent and so is their payment. With the orders
    stored under their ids: no sequence of requests adds or removes an
    order or changes the owner or the total of one, and an order that is
    paid stays paid. *)
Theorem paid_is_permanent rqs w :
  keyed_by_id (orders w) →
  keyed_by_id (orders (serve_all rqs w)) ∧
  ∀ k, match orders w !! k, orders (serve_all rqs w) !! k with
       | Some o, Some o' =>
           Order.user o' = Order.user o ∧
           Order.totalPrice o' = Order.totalPrice o ∧
           (Order.isPaid o = true → Order.isPaid o' = true)
       | None, None => True
       | _, _ => False
       end.
Proof.
  intros Hw. induction rqs as [|rq rqs IH] using rev_ind.
  - split; [done|]. intros k. simpl. by destruct (orders w !! k).
  - rewrite serve_all_snoc. destruct IH as [Hkey IH].
    destruct (serve_orders_step rq (serve_all rqs w))
      as [->|k o reference d Ho ->]; [done|].
    pose proof (Hkey k o Ho) as Hid. rewrite Hid. split.
    + apply map_Forall_insert_2; [done|done].
    + intros k'. specialize (IH k').
      destruct (decide (k' = k)) as [->|Hne].
      * rewrite lookup_insert_eq. rewrite Ho in IH.
        destruct (orders w !! k); [|done].
        destruct IH as (? & ? & ?). done.
      * by rewrite lookup_insert_ne.
Qed.

Lemma serve_all_keeps_paid rqs w k o :
  keyed_by_id (orders w) →
  orders w !! k = Some o → Order.isPaid o = true →
  keyed_by_id (orders (serve_all rqs w)) ∧
  ∃ o', orders (serve_all rqs w) !! k = Some o' ∧ Order.isPaid o' = true.
Proof.
  intros Hw Hk Hp. induction rqs as [|rq rqs IH] using rev_ind.
  - split; [done|]. by exists o.
  - rewrite serve_all_snoc. destruct IH as (Hkey & o' & Hk' & Hp').
    destruct (serve_orders_step rq (serve_all rqs w))
      as [->|k1 o1 reference d Ho ->]; [by eauto|].
    pose proof (Hkey k1 o1 Ho) as Hid. rewrite Hid. split.
    + by apply map_Forall_insert_2.
    + destruct (decide (k = k1)) as [->|Hne].
      * rewrite lookup_insert_eq. by eexists.
      * rewrite lookup_insert_ne by done. by eexists.
Qed.

(** X5. A paid order is never charged again: whatever requests have been
    served since, an Initialize for it is refused with a 400 (a 403 for a
    requester who does not own it) and the world is as it was, so no request
    reaches the gateway. *)
Theorem paid_order_never_charged_again rqs w k o gw Date_now user vd :
  keyed_by_id (orders w) →
  orders w !! k = Some o → Order.isPaid o = true → orderId vd = k →
  ∃ err,
    initializePayment gw Date_now user vd (serve_all rqs w)
    = (Returned (next err), serve_all rqs w)
    ∧ statusCode err ∈ [400; 403].
Proof.
  intros Hw Hk Hp <-.
  destruct (serve_all_keeps_paid rqs w _ o Hw Hk Hp) as (_ & o' & Hk' & Hp').
  destruct (decide (Order.user o' = u_id user)) as [Hu|Hu].
  - erewrite initialize_order_paid by done. eexists. split; [done|].
    simpl. set_solver.
  - erewrite initialize_not_owner by done. eexists. split; [done|].
    simpl. set_solver.
Qed.

(** X6. No request makes more than one call to the gateway, and a
    notification makes none: an Initialize sends at most the charge request
    of its order, a poll at most the verification of its reference. *)
Theorem gateway_budget rq w :
  match rq with
  | POST_initialize gw Date_now user vd =>
      gateway_calls (serve rq w).2 = gateway_calls w
      ∨ ∃ order, orders w !! orderId vd = Some order ∧
          gateway_calls (serve rq w).2
          = gateway_calls w
            ++ [GatewayInitialize (charge_request Date_now user vd order)]
  | GET_verify gw user reference =>
      gateway_calls (serve rq w).2 = gateway_calls w
      ∨ gateway_calls (serve rq w).2
        = gateway_calls w ++ [GatewayVerify reference]
  | POST_webhook signature body =>
      gateway_calls (serve rq w).2 = gateway_calls w
  end.
Proof.
  destruct rq as [gw Date_now user vd|gw user reference|signature body];
    simpl.
  - async_unfold.
    repeat (case_match; simpl in *; simplify_eq; try (by left)).
    all: right; eexists; (split; [done|]); calls_same.
  - async_unfold.
    repeat (case_match; simpl in *; simplify_eq; try (by left)).
    all: right; calls_same.
  - async_unfold.
    repeat (case_match; simpl in *; simplify_eq; try done); calls_same.
Qed.


(** X9. Serving a request a second time stores nothing new: after any
    request, the same request (the gateway and the clock answering as
    before) leaves the ledger and the orders as the first left them,
    whatever its verdict and whether or not a write was refused. *)
Theorem request_idempotent rq w :
  store (serve rq (serve rq w).2).2 = store (serve rq w).2.
Proof.
  destruct rq; simpl.
  - apply initialize_repeated.
  - apply verify_idempotent.
  - apply webhook_idempotent.
Qed.
End ServerFacts.

(** X8. [initializePayment] keeps, for every order, the invariant that at
    most one of its payments is [pending] or [success]. *)
Theorem initialize_keeps_one_active gw Date_now user vd w oid :
  one_active oid (payments w) →
  one_active oid (payments (initializePayment gw Date_now user vd w).2).
Proof.
  intros Hone.
  destruct (initialize_appends gw Date_now user vd w)
    as [->|(order & q & _ & _ & _ & Hq & _ & Hnone & ->)]; [done|].
  intros i j p p' Hi Hj Hp Hp'.
  apply lookup_app_Some in Hi as [Hi|[Hil Hi]];
    apply lookup_app_Some in Hj as [Hj|[Hjl Hj]].
  - by eapply Hone.
  - apply list_lookup_singleton_Some in Hj as [_ <-].
    destruct Hp' as [Ho' _]. rewrite Hq in Ho'. subst oid.
    rewrite list_find_None, Forall_lookup in Hnone.
    by destruct (Hnone i p Hi).
  - apply list_lookup_singleton_Some in Hi as [_ <-].
    destruct Hp as [Ho' _]. rewrite Hq in Ho'. subst oid.
    rewrite list_find_None, Forall_lookup in Hnone.
    by destruct (Hnone j p' Hj).
  - apply list_lookup_singleton_Some in Hi as [Hi _].
    apply list_lookup_singleton_Some in Hj as [Hj _]. lia.
Qed.

(** X11. The three status methods of the schema split the statuses; the filter of
    [initializePayment] selects the payments of the order that have not
    failed. *)
Theorem status_methods_partition p oid :
  (Payment.isSuccessful p, Payment.isPending p, Payment.hasFailed p)
    ∈ [(true, false, false); (false, true, false); (false, false, true)]
  ∧ (active oid p ↔ Payment.order p = oid ∧ Payment.hasFailed p = false).
Proof.
  unfold Payment.isSuccessful, Payment.isPending, Payment.hasFailed, active.
  destruct (Payment.status p) eqn:Hs; simpl.
  all: split; [set_solver|].
  all: rewrite !elem_of_cons, elem_of_nil; split; intros [? ?];
         (split; [done|]); try done; auto.
  all: destruct H0 as [|[|[]]]; done.
Qed.

Lemma no_active_all_failed oid (ledger : list Payment.t) :
  list_find (active oid) ledger = None
  ↔ Forall (λ p, Payment.order p = oid → Payment.hasFailed p = true) ledger.
Proof.
  rewrite list_find_None. apply Forall_iff. intros p.
  unfold active, Payment.hasFailed.
  rewrite !elem_of_cons, elem_of_nil.
  destruct (Payment.status p); simpl; split.
  all: try (intros Hn Ho; exfalso; apply Hn; by auto).
  all: try (intros Hf [Ho _]; by specialize (Hf Ho)).
  all: try done.
  all: intros _ [_ [|[|[]]]]; done.
Qed.

(** X10. [initializePayment] asks the gateway for a charge exactly when the
    order exists, is the requester's, is unpaid, and every payment the
    ledger holds for it has failed (or there is none). *)
Theorem initialize_reaches_gateway_iff gw Date_now user vd w :
  gateway_calls (initializePayment gw Date_now user vd w).2 ≠ gateway_calls w
  ↔ ∃ order, orders w !! orderId vd = Some order ∧
      Order.user order = u_id user ∧ Order.isPaid order = false ∧
      Forall (λ p, Payment.order p = orderId vd → Payment.hasFailed p = true)
        (payments w).
Proof.
  setoid_rewrite <- no_active_all_failed.
  destruct (orders w !! orderId vd) as [order|] eqn:Ho.
  2: { rewrite initialize_no_order by done. simpl.
       split; [done|]. by intros (? & ? & _). }
  destruct (decide (Order.user order = u_id user)) as [Hu|Hu].
  2: { erewrite initialize_not_owner by done. simpl.
       split; [done|]. by intros (? & [= <-] & ? & _). }
  destruct (Order.isPaid order) eqn:Hp.
  { erewrite initialize_order_paid by done. simpl.
    split; [done|]. intros (? & [= <-] & _ & ? & _). congruence. }
  destruct (list_find (active (orderId vd)) (payments w)) as [[i p]|] eqn:Hf.
  { assert ((initializePayment gw Date_now user vd w).2 = w) as ->.
    { destruct (decide (Payment.status p = success)).
      - by erewrite initialize_existing_success.
      - by erewrite initialize_existing_pending. }
    split; [done|]. by intros (? & _ & _ & _ & ?). }
  split; [intros _; by exists order|]. intros _.
  assert (∃ l, gateway_calls (initializePayment gw Date_now user vd w).2
               = gateway_calls w
                 ++ GatewayInitialize
                      (charge_request Date_now user vd order) :: l)
    as [l ->].
  2: { intros Heq. apply (f_equal List.length) in Heq.
       rewrite length_app in Heq. simpl in Heq. lia. }
  destruct (transaction_initialize gw (charge_request Date_now user vd order))
    as [r|msg] eqn:Hg.
  2: { erewrite initialize_gateway_rejects by done. exists [].
       cbn [snd]. rewrite !gateway_calls_emit. simpl. by rewrite app_nil_r. }
  destruct (ir_status r) eqn:Hs.
  2: { erewrite initialize_gateway_refuses by done. exists [].
       cbn [snd]. rewrite !gateway_calls_emit. simpl. by rewrite app_nil_r. }
  destruct (ir_data r) as [d|] eqn:Hd.
  2: { edestruct initialize_missing_data as [e ->]; [done..|]. exists [].
       cbn [snd]. rewrite !gateway_calls_emit. simpl. by rewrite app_nil_r. }
  destruct (Payment.validate (new_payment Date_now user vd order d)) eqn:Hv.
  2: { edestruct initialize_create_fails as [e ->]; [done..|by left|].
       exists []. cbn [snd]. rewrite !gateway_calls_emit. simpl.
       by rewrite app_nil_r. }
  destruct (decide (Payment.reference (new_payment Date_now user vd order d)
                    ∈ (Payment.reference <$> payments w))) as [Hin|Hin].
  { edestruct initialize_create_fails as [e ->]; [done..|by right|].
    exists []. cbn [snd]. rewrite !gateway_calls_emit. simpl.
    by rewrite app_nil_r. }
  erewrite initialize_creates by done. exists []. 
  unfold gateway_calls. simpl. rewrite List.filter_app. simpl. done.
Qed.

(** X12. The two gateway wrappers of the service: one request and one log line per
    call, nothing stored; whatever goes wrong inside the [try] comes out as an
    [Error] with the wrapper's prefix, the original message after it. *)
Theorem service_wraps_gateway gw params reference w :
  (let out := paystackService.initializeTransaction gw params w in
   ∃ rq level line,
     out.2 = emit (Logged level line) (emit (GatewayInitialize rq) w) ∧
     rq_reference rq = paystackService.reference params ∧
     rq_currency rq = default "NGN" (paystackService.currency params) ∧
     match out.1 with
     | Returned r =>
         transaction_initialize gw rq = Resolved r ∧ level = info
     | Threw e =>
         ∃ msg, transaction_initialize gw rq = Rejected msg ∧
           e = Error ("Payment initialization failed: " +:+ msg) ∧
           level = error
     end) ∧
  (let out := paystackService.verifyTransaction gw reference w in
   ∃ level line,
     out.2 = emit (Logged level line) (emit (GatewayVerify reference) w) ∧
     match out.1 with
     | Returned r =>
         transaction_verify gw reference = Resolved r ∧
         is_Some (vr_data r) ∧ level = info
     | Threw e =>
         ∃ msg, e = Error ("Payment verification failed: " +:+ msg) ∧
           level = error ∧
           line = "Paystack verification error: " +:+ msg ∧
           (transaction_verify gw reference = Rejected msg
            ∨ ∃ r, transaction_verify gw reference = Resolved r ∧
                   vr_data r = None)
     end).
Proof.
  split; cbv zeta.
  - async_unfold.
    destruct (transaction_initialize gw _) as [r|msg] eqn:Hg; simpl.
    + eexists _, _, _. split; [reflexivity|]. by rewrite Hg.
    + eexists _, _, _. split; [reflexivity|]. rewrite Hg.
      split_and!; try done. by eexists.
  - async_unfold.
    destruct (transaction_verify gw reference) as [r|msg] eqn:Hg; simpl.
    + destruct (vr_data r) as [d|] eqn:Hd; simpl.
      * eexists _, _. split; [reflexivity|]. by rewrite Hd.
      * eexists _, _. split; [reflexivity|]. eexists.
        split_and!; try done. right. by eexists.
    + eexists _, _. split; [reflexivity|]. eexists.
      split_and!; try done. by left.
Qed.


(** ** The read routes *)

Ltac read_unfold :=
  unfold getPaymentByReference, getPaymentHistory, getAllPayments, listing,
    Payment_find, Payment_countDocuments, populate_order, Payment_findOne,
    Order_findById, throw, mbind, mret, Async_bind, Async_ret in *.

(** X14. Who is shown a payment. [getPaymentByReference] never changes the
    world; it answers 200 exactly when the payment exists, its user still
    exists and the requester is that user or an admin; what it then shows is
    the stored row of that reference with the order it names. *)
Theorem payment_shown_to_owner_or_admin users user role reference w :
  (getPaymentByReference users user role reference w).2 = w ∧
  ((∃ v, (getPaymentByReference users user role reference w).1
         = Returned (answered 200 v))
   ↔ ∃ i p, list_find (has_reference reference) (payments w) = Some (i, p) ∧
       Payment.user p ∈ users ∧
       (Payment.user p = u_id user ∨ role = Some "admin")) ∧
  (∀ code v, (getPaymentByReference users user role reference w).1
             = Returned (answered code v) →
     code = 200 ∧ Payment.reference (pp_payment v) = reference ∧
     pp_payment v ∈ payments w ∧
     pp_order v = orders w !! Payment.order (pp_payment v)).
Proof.
  read_unfold.
  destruct (list_find (has_reference reference) (payments w))
    as [[i p]|] eqn:Hf; simpl.
  2: { split_and!; [done| |done]. split; [by intros [? ?]|].
       by intros (? & ? & ? & _). }
  destruct (find_lookup _ _ _ _ Hf) as [Hi Href].
  destruct (decide (Payment.user p ∈ users)) as [Hin|Hin].
  - rewrite bool_decide_eq_false_2 by (by intros ?).
    destruct (decide (Payment.user p = u_id user)) as [Hu|Hu].
    + rewrite bool_decide_eq_false_2 by (by intros ?). simpl.
      split_and!; [done| |].
      * split; [|by eexists]. intros _. exists i, p. auto.
      * intros code v [= <- <-]. simpl. split_and!; try done.
        by eapply list_elem_of_lookup_2.
    + rewrite bool_decide_eq_true_2 by done.
      destruct (decide (role = Some "admin")) as [Hr|Hr].
      * rewrite bool_decide_eq_false_2 by (by intros ?). simpl.
        split_and!; [done| |].
        -- split; [|by eexists]. intros _. exists i, p. auto.
        -- intros code v [= <- <-]. simpl. split_and!; try done.
           by eapply list_elem_of_lookup_2.
      * rewrite bool_decide_eq_true_2 by done. simpl.
        split_and!; [done| |done].
        split; [by intros [? ?]|].
        intros (? & ? & [= <- <-] & _ & [?|?]); done.
  - rewrite bool_decide_eq_true_2 by done. simpl.
    split_and!; [done| |done].
    split; [by intros [? ?]|].
    intros (? & ? & [= <- <-] & ? & _); done.
Qed.

(** X15. A payment whose user has been deleted is shown to nobody, the admin
    included: the handler throws on the access check. *)
Theorem payment_of_deleted_user_unreadable users user role reference w i p :
  list_find (has_reference reference) (payments w) = Some (i, p) →
  Payment.user p ∉ users →
  ∃ e, getPaymentByReference users user role reference w = (Threw e, w) ∧
       err_name e = "TypeError".
Proof.
  intros Hf Hin. read_unfold. rewrite Hf. simpl.
  rewrite bool_decide_eq_true_2 by done. by eexists.
Qed.

Section ListingFacts.
Context (createdAt : nat → N).

Lemma selected_spec f (ledger : list Payment.t) i p :
  (i, p) ∈ selected createdAt f ledger
  ↔ ledger !! i = Some p ∧ matches createdAt f (i, p) = true.
Proof.
  unfold selected. rewrite merge_sort_Permutation.
  rewrite list_elem_of_In, filter_In, <- list_elem_of_In.
  rewrite elem_of_lookup_imap. split.
  - intros [(j & y & [= <- <-] & Hj) Hm]. done.
  - intros [Hi Hm]. split; [|done]. by exists i, p.
Qed.

Lemma listing_reply owner q w :
  listing createdAt owner q w
  = (Returned (answered 200
       {| l_results :=
            N.of_nat (List.length
              (take (N.to_nat (q_limit q))
                 (drop (N.to_nat ((q_page q - 1) * q_limit q))
                    (selected createdAt (query_filter owner q) (payments w)))));
          l_pagination :=
            {| pg_page := q_page q; pg_limit := q_limit q;
               pg_total :=
                 N.of_nat (List.length
                   (selected createdAt (query_filter owner q) (payments w)));
               pg_pages :=
                 Math_ceil_div
                   (N.of_nat (List.length
                      (selected createdAt (query_filter owner q)
                         (payments w))))
                   (q_limit q) |};
          l_payments :=
            (λ row, {| pp_payment := row.2;
                       pp_order := orders w !! Payment.order row.2 |})
            <$> take (N.to_nat (q_limit q))
                  (drop (N.to_nat ((q_page q - 1) * q_limit q))
                     (selected createdAt (query_filter owner q)
                        (payments w))) |}), w).
Proof. read_unfold. simpl. by rewrite length_fmap. Qed.

(** X16. [getPaymentHistory] always answers 200, changes nothing, and shows
    only stored payments of the requester that pass the filters of the
    query: the status asked for, created within the dates asked for, each
    with the order it names. *)
Theorem history_shows_own_payments user q w :
  ∃ L, getPaymentHistory createdAt user q w = (Returned (answered 200 L), w) ∧
    ∀ v, v ∈ l_payments L →
      Payment.user (pp_payment v) = u_id user ∧
      (∀ s, q_status q = Some s → Payment.status (pp_payment v) = s) ∧
      pp_order v = orders w !! Payment.order (pp_payment v) ∧
      ∃ i, payments w !! i = Some (pp_payment v) ∧
        (∀ t, q_startDate q = Some t → (t ≤ createdAt i)%N) ∧
        (∀ t, q_endDate q = Some t → (createdAt i ≤ t)%N).
Proof.
  unfold getPaymentHistory. rewrite listing_reply. eexists. split; [done|].
  simpl. intros v Hv. apply list_elem_of_fmap in Hv as ([i p] & -> & Hrow).
  eapply elem_of_sublist in Hrow;
    [|etrans; [apply sublist_take|apply sublist_drop]].
  apply selected_spec in Hrow as [Hi Hm]. simpl.
  unfold matches, query_filter in Hm. simpl in Hm.
  repeat (apply andb_true_iff in Hm as [Hm ?]).
  apply bool_decide_eq_true in Hm.
  split_and!; [done| |done|].
  - intros s Hs. rewrite Hs in *. simpl in *. by eapply bool_decide_eq_true_1.
  - exists i. split_and!; [done| |].
    + intros t Ht. rewrite Ht in *. simpl in *. by apply N.leb_le.
    + intros t Ht. rewrite Ht in *. simpl in *. by apply N.leb_le.
Qed.


Lemma ceil_div_bounds total limit :
  (1 ≤ limit)%N →
  (total ≤ Math_ceil_div total limit * limit)%N ∧
  (Math_ceil_div total limit * limit < total + limit)%N.
Proof.
  intros Hl. unfold Math_ceil_div.
  pose proof (N.div_mod (total + limit - 1) limit ltac:(lia)) as Hdm.
  pose proof (N.mod_lt (total + limit - 1) limit ltac:(lia)) as Hr.
  set (d := ((total + limit - 1) / limit)%N) in *.
  set (r := ((total + limit - 1) mod limit)%N) in *.
  rewrite (N.mul_comm d limit). clearbody d r. lia.
Qed.

(** X17. Page sizes of the two listings, for [page >= 1] and [limit >= 1]:
    [results] is the number of payments shown, [total] the number of stored
    rows matching the filter, whatever the page; a page shows
    [min limit (total - (page - 1) * limit)] rows; [pages] is the least
    number of pages of [limit] rows that hold [total]; and a page is
    non-empty exactly when it is one of the first [pages]. *)
Theorem listing_page_sizes owner q w :
  (1 ≤ q_page q)%N → (1 ≤ q_limit q)%N →
  ∃ L, listing createdAt owner q w = (Returned (answered 200 L), w) ∧
    let total := pg_total (l_pagination L) in
    let pages := pg_pages (l_pagination L) in
    l_results L = N.of_nat (List.length (l_payments L)) ∧
    total = N.of_nat (List.length
              (List.filter (matches createdAt (query_filter owner q))
                 (imap pair (payments w)))) ∧
    l_results L = N.min (q_limit q) (total - (q_page q - 1) * q_limit q) ∧
    (total ≤ pages * q_limit q < total + q_limit q)%N ∧
    ((0 < l_results L)%N ↔ (q_page q ≤ pages)%N).
Proof.
  intros Hp Hl. rewrite listing_reply. eexists. split; [done|]. simpl.
  set (rows := selected createdAt (query_filter owner q) (payments w)).
  assert (List.length rows
          = List.length (List.filter (matches createdAt (query_filter owner q))
                           (imap pair (payments w)))) as Hlen.
  { unfold rows, selected. by rewrite merge_sort_Permutation. }
  rewrite <- Hlen.
  pose proof (ceil_div_bounds (N.of_nat (List.length rows)) (q_limit q) Hl)
    as [Hlo Hhi].
  rewrite length_fmap, length_take, length_drop.
  split; [done|]. split; [done|]. split; [lia|]. split; [done|].
  set (pages := Math_ceil_div (N.of_nat (List.length rows)) (q_limit q)) in *.
  set (n := List.length rows) in *.
  set (limit := q_limit q) in *. set (page := q_page q) in *.
  clearbody pages n limit page. clear Hlen rows.
  split.
  - intros Hpos.
    assert ((page - 1) * limit < N.of_nat n)%N as Hskip by lia.
    assert ((page - 1) * limit < pages * limit)%N as Hlt by lia.
    apply N.mul_lt_mono_pos_r in Hlt; lia.
  - intros Hle.
    assert ((page - 1) * limit ≤ (pages - 1) * limit)%N as Hmono
      by (apply N.mul_le_mono_r; lia).
    assert ((pages - 1) * limit = pages * limit - limit)%N as Heq
      by (rewrite N.mul_sub_distr_r; lia).
    assert (1 * limit ≤ pages * limit)%N as Hone
      by (apply N.mul_le_mono_r; lia).
    lia.
Qed.


Lemma fmap_concat {A B} (f : A → B) (ls : list (list A)) :
  f <$> concat ls = concat ((λ l : list A, f <$> l) <$> ls).
Proof.
  induction ls as [|l ls IH]; [done|].
  by rewrite concat_cons, fmap_app, IH.
Qed.

Lemma chunks_cover {A} (n : nat) : ∀ m (l : list A),
  (0 < n)%nat → (List.length l ≤ m * n)%nat →
  concat ((λ k, take n (drop (k * n) l)) <$> seq 0 m) = l.
Proof.
  induction m as [|m IH]; intros l Hn Hl.
  - simpl in *. by destruct l; simpl in *; try lia.
  - rewrite <- cons_seq, fmap_cons, concat_cons, <- fmap_S_seq.
    rewrite <- list_fmap_compose. simpl.
    erewrite (list_fmap_ext _ (λ k, take n (drop (k * n) (drop n l)))).
    + rewrite IH; [by rewrite take_drop|done|rewrite length_drop; lia].
    + intros _ k _. simpl. by rewrite drop_drop, Nat.add_comm.
Qed.

#[local] Instance newer_total : Total (newer createdAt).
Proof. intros a b. unfold newer. lia. Qed.

#[local] Instance newer_trans : Transitive (newer createdAt).
Proof. intros a b c. unfold newer. lia. Qed.

(** X18. The pages of a listing cover it: with rows created at distinct
    instants, pages [1] to [pages], one after the other, show every
    matching payment exactly once, newest first. *)
Theorem pages_cover_the_listing owner q w L :
  (1 ≤ q_limit q)%N →
  NoDup (createdAt <$> seq 0 (List.length (payments w))) →
  (listing createdAt owner q w).1 = Returned (answered 200 L) →
  concat ((λ k, page_payments createdAt owner q k w)
          <$> seq 1 (N.to_nat (pg_pages (l_pagination L))))
  = (λ row, {| pp_payment := row.2;
               pp_order := orders w !! Payment.order row.2 |})
    <$> selected createdAt (query_filter owner q) (payments w)
  ∧ StronglySorted (newer createdAt)
      (selected createdAt (query_filter owner q) (payments w)).
Proof.
  intros Hl _. rewrite listing_reply. intros [= <-]. simpl.
  split; [|apply StronglySorted_merge_sort; apply _].
  set (rows := selected createdAt (query_filter owner q) (payments w)).
  pose proof (ceil_div_bounds (N.of_nat (List.length rows)) (q_limit q) Hl)
    as [Hlo _].
  set (pages := Math_ceil_div (N.of_nat (List.length rows)) (q_limit q)) in *.
  rewrite <- (chunks_cover (N.to_nat (q_limit q)) (N.to_nat pages) rows)
    at 1 by lia.
  rewrite <- fmap_S_seq, <- list_fmap_compose, fmap_concat.
  f_equal. rewrite <- list_fmap_compose.
  apply list_fmap_ext. intros _ k _. simpl.
  unfold page_payments. rewrite listing_reply. simpl. fold rows.
  do 3 f_equal. lia.
Qed.

End ListingFacts.

(** ** References *)

Lemma pretty_N_go_length (n : nat) : ∀ x s,
  (x < 10 ^ N.of_nat n)%N →
  (String.length (pretty_N_go x s) ≤ String.length s + n)%nat.
Proof.
  induction n as [|n IH]; intros x s Hx.
  - assert (x = 0%N) as -> by (simpl in Hx; lia).
    rewrite pretty_N_go_0. lia.
  - destruct (decide (x = 0%N)) as [->|Hpos].
    { rewrite pretty_N_go_0. lia. }
    rewrite pretty_N_go_step by lia.
    etrans; [apply IH|simpl; lia].
    rewrite Nat2N.inj_succ, N.pow_succ_r' in Hx.
    apply N.Div0.div_lt_upper_bound. lia.
Qed.

Lemma pretty_N_go_grows x s :
  (String.length s ≤ String.length (pretty_N_go x s))%nat.
Proof.
  revert s. induction (N.lt_wf_0 x) as [x _ IH]; intros s.
  destruct (decide (x = 0%N)) as [->|Hpos]; [by rewrite pretty_N_go_0|].
  rewrite pretty_N_go_step by lia.
  etrans; [|apply IH; apply N.div_lt; lia]. simpl. lia.
Qed.

Lemma pretty_N_length (n : nat) (x : N) :
  (x < 10 ^ N.of_nat (S n))%N →
  (1 ≤ String.length (pretty x) ≤ S n)%nat.
Proof.
  intros Hx. unfold pretty, pretty_N. case_decide as H0; [simpl; lia|].
  split.
  - rewrite pretty_N_go_step by lia.
    etrans; [|apply pretty_N_go_grows]. simpl. lia.
  - etrans; [by apply (pretty_N_go_length (S n))|]. simpl. lia.
Qed.

Lemma length_append (s t : string) :
  String.length (s +:+ t) = (String.length s + String.length t)%nat.
Proof. induction s as [|c s IH]; simpl; [done|]. by rewrite IH. Qed.

(** X19. A reference handed out by [initializePayment] for a validated order id
    (24 hexadecimal digits) passes the validator of the verify route; the
    clock is an ECMAScript time value. *)
Theorem generated_reference_verifiable Date_now user vd order d :
  String.length (orderId vd) = 24%nat →
  (Date_now ≤ 8640000000000000)%N →
  validateVerifyPayment
    (Payment.reference (new_payment Date_now user vd order d))
  = inr (Payment.reference (new_payment Date_now user vd order d)).
Proof.
  intros Hid Hnow. unfold validateVerifyPayment, new_payment.
  cbn [Payment.reference].
  set (r := "ORDER-" +:+ _).
  assert (String.length r
          = (31 + String.length (pretty Date_now))%nat) as Hlen.
  { unfold r. rewrite !length_append. simpl. lia. }
  assert (r ≠ "") as Hne by (intros Hr; by rewrite Hr in Hlen).
  destruct (pretty_N_length 15 Date_now) as [Hlo Hhi].
  { change (10 ^ N.of_nat 16)%N with 10000000000000000%N. lia. }
  rewrite decide_False by done.
  rewrite decide_False by lia. by rewrite decide_False by lia.
Qed.

Lemma append_inj_length (s1 s2 t1 t2 : string) :
  String.length s1 = String.length s2 →
  s1 +:+ t1 = s2 +:+ t2 → s1 = s2 ∧ t1 = t2.
Proof.
  revert s2. induction s1 as [|c s1 IH]; intros [|c' s2] Hl Heq;
    simpl in *; try done.
  injection Heq as -> Heq. destruct (IH s2) as [-> ->]; [lia|done|done].
Qed.

(** X20. References name their order and instant: for order ids of one length,
    equal references come from the same order and the same clock reading. *)
Theorem generated_reference_injective now1 now2 user1 user2 vd1 vd2 o1 o2 :
  String.length (orderId vd1) = String.length (orderId vd2) →
  rq_reference (charge_request now1 user1 vd1 o1)
  = rq_reference (charge_request now2 user2 vd2 o2) →
  orderId vd1 = orderId vd2 ∧ now1 = now2.
Proof.
  intros Hlen. unfold charge_request. simpl. intros [= Heq].
  simpl in Heq.
  apply append_inj_length in Heq as [_ Heq]; [|done].
  apply append_inj_length in Heq as [Hid Heq]; [|done].
  split; [done|]. apply append_inj_length in Heq as [_ Heq]; [|done].
  by apply pretty_N_inj in Heq.
Qed.

(** ** Worked examples of the server properties *)

Lemma ledger_stays_valid_witness :
  ledger_valid (payments (Archive.serve_all Archive.settle
                            (Scenario.ledger pending))).
Proof.
  apply (ledger_stays_valid Scenario.WEBHOOK_SECRET Scenario.SECRET_KEY
           Scenario.hmac Scenario.stringify Archive.settle
           (Scenario.ledger pending)).
  repeat constructor.
Defined.

Lemma references_stay_unique_witness :
  references_unique (payments (Archive.serve_all Archive.settle
                                 (Scenario.ledger pending))).
Proof.
  apply (references_stay_unique Scenario.WEBHOOK_SECRET Scenario.SECRET_KEY
           Scenario.hmac Scenario.stringify Archive.settle
           (Scenario.ledger pending)).
  apply NoDup_singleton.
Defined.

Lemma paid_is_permanent_witness :
  keyed_by_id (orders (Archive.serve_all Archive.settle
                         (Scenario.ledger pending))).
Proof.
  apply (paid_is_permanent Scenario.WEBHOOK_SECRET Scenario.SECRET_KEY
           Scenario.hmac Scenario.stringify Archive.settle
           (Scenario.ledger pending)).
  apply map_Forall_singleton. reflexivity.
Defined.

Lemma paid_order_never_charged_again_witness :
  status_of Scenario.ref1 (Archive.serve_all Archive.reversal Archive.paid_up)
  = Some failed
  ∧ ∃ err,
      initializePayment (Scenario.gateway (Scenario.charge "success" None))
        1704070800000 Scenario.U1 Scenario.request
        (Archive.serve_all Archive.reversal Archive.paid_up)
      = (Returned (next err),
         Archive.serve_all Archive.reversal Archive.paid_up)
      ∧ statusCode err ∈ [400; 403].
Proof.
  split; [vm_compute; reflexivity|].
  apply (paid_order_never_charged_again Scenario.WEBHOOK_SECRET
           Scenario.SECRET_KEY Scenario.hmac Scenario.stringify
           Archive.reversal Archive.paid_up "O1" Archive.O1_paid).
  - apply map_Forall_singleton. reflexivity.
  - vm_compute. reflexivity.
  - reflexivity.
  - reflexivity.
Defined.


Lemma initialize_keeps_one_active_witness :
  one_active "O1"
    (payments (initializePayment
                 (Scenario.gateway (Scenario.charge "success" None))
                 Scenario.now Scenario.U1 Scenario.request
                 Scenario.checkout).2).
Proof.
  apply (initialize_keeps_one_active
           (Scenario.gateway (Scenario.charge "success" None))
           Scenario.now Scenario.U1 Scenario.request Scenario.checkout "O1").
  intros i j p q Hi. simpl in Hi. discriminate Hi.
Defined.

Lemma payment_of_deleted_user_unreadable_witness :
  ∃ e, getPaymentByReference ∅ Scenario.U2 (Some "admin") Scenario.ref1
         (Scenario.ledger success)
       = (Threw e, Scenario.ledger success)
       ∧ err_name e = "TypeError".
Proof.
  apply (payment_of_deleted_user_unreadable ∅ Scenario.U2 (Some "admin")
           Scenario.ref1 (Scenario.ledger success) 0 (Scenario.P1 success)).
  - vm_compute. reflexivity.
  - apply not_elem_of_empty.
Defined.

Lemma listing_page_sizes_witness :
  ∃ L, listing Archive.createdAt None (Archive.by_two 2) Archive.ledger
       = (Returned (answered 200 L), Archive.ledger)
       ∧ l_results L = 1%N ∧ pg_total (l_pagination L) = 3%N
       ∧ pg_pages (l_pagination L) = 2%N.
Proof.
  destruct (listing_page_sizes Archive.createdAt None (Archive.by_two 2)
              Archive.ledger) as (L & HL & _ & Htotal & Hres & _).
  - simpl. lia.
  - simpl. lia.
  - exists L. split; [exact HL|].
    rewrite Hres, Htotal.
    apply (f_equal fst) in HL. vm_compute in HL.
    injection HL as <-. vm_compute. auto.
Defined.

Lemma pages_cover_the_listing_witness :
  page_payments Archive.createdAt (Some "U1") (Archive.by_two 1) 1
    Archive.ledger
  = [ {| pp_payment := Archive.row "U1" "O3" success; pp_order := None |};
      {| pp_payment := Archive.row "U1" "O1" failed;
         pp_order := Some Scenario.O1 |} ].
Proof.
  destruct (pages_cover_the_listing Archive.createdAt (Some "U1")
              (Archive.by_two 1) Archive.ledger
              {| l_results := 2;
                 l_pagination := {| pg_page := 1; pg_limit := 2;
                                    pg_total := 2; pg_pages := 1 |};
                 l_payments :=
                   [ {| pp_payment := Archive.row "U1" "O3" success;
                        pp_order := None |};
                     {| pp_payment := Archive.row "U1" "O1" failed;
                        pp_order := Some Scenario.O1 |} ] |})
    as [Hcover _].
  - simpl. lia.
  - apply (bool_decide_unpack _). vm_compute. exact I.
  - vm_compute. reflexivity.
  - cbn [l_pagination pg_pages] in Hcover.
    change (N.to_nat 1) with 1%nat in Hcover.
    cbn [seq fmap list_fmap concat] in Hcover.
    rewrite app_nil_r in Hcover. rewrite Hcover.
    vm_compute. reflexivity.
Defined.

Lemma generated_reference_verifiable_witness :
  validateVerifyPayment "ORDER-65a1f0c2b3d4e5f601234567-1704067200000"
  = inr "ORDER-65a1f0c2b3d4e5f601234567-1704067200000".
Proof.
  apply (generated_reference_verifiable 1704067200000 Scenario.U1
           Archive.checkout_request Scenario.O1 Scenario.session).
  - reflexivity.
  - lia.
Defined.

Lemma generated_reference_injective_witness :
  orderId Archive.checkout_request = orderId Archive.checkout_request
  ∧ 1704067200000%N = 1704067200000%N.
Proof.
  apply (generated_reference_injective 1704067200000 1704067200000
           Scenario.U1 Scenario.U2 Archive.checkout_request
           Archive.checkout_request Scenario.O1 Scenario.O1).
  - reflexivity.
  - reflexivity.
Defined.

(** ** What a poll answers

    X22. Whenever Verify answers with a JSON body at all, the code is
    200 and the payment in the body is the row the ledger now holds under
    the polled reference: it belongs to the caller, its status is success
    or failed (never pending), and the message is either 'Payment already
    verified' or 'Payment ' followed by that status. *)
Theorem verify_reply_is_stored gw user reference w code body :
  (verifyPayment gw user reference w).1 = Returned (json code body) →
  code = 200 ∧
  ∃ i p,
    b_payment body = Some p ∧
    list_find (has_reference reference)
      (payments (verifyPayment gw user reference w).2) = Some (i, p) ∧
    Payment.user p = u_id user ∧
    Payment.status p ∈ [success; failed] ∧
    (b_message body = "Payment already verified"
     ∨ b_message body = "Payment " +:+ status_text (Payment.status p)).
Proof.
  destruct (list_find (has_reference reference) (payments w))
    as [[i p]|] eqn:Hf; [|by rewrite verify_not_found].
  destruct (decide (Payment.user p = u_id user)) as [Hu|Hu];
    [|by erewrite verify_not_owner].
  destruct (decide (Payment.status p = success)) as [Hs|Hs].
  { erewrite verify_already_verified by done. simpl. intros [= <- <-].
    split; [done|]. exists i, p. simpl. rewrite Hs.
    split_and!; try done; [rewrite !elem_of_cons; auto|by left]. }
  destruct (transaction_verify gw reference) as [r|msg] eqn:Hg;
    [|by erewrite verify_gateway_rejects].
  destruct (vr_data r) as [d|] eqn:Hd.
  2: { edestruct (verify_gateway_no_data gw user reference w)
         as (e & l & ->); done. }
  destruct (vr_status r) eqn:Hst; [|by erewrite verify_gateway_refuses].
  destruct (find_lookup _ _ _ _ Hf) as [Hi Href].
  destruct (decide (cd_status d = "success")) as [Hv|Hv].
  - erewrite verify_marks_success by done.
    set (q := assign_charge success (Some (new_Date (cd_paid_at d))) d p).
    destruct (Payment.validate q) eqn:Hq.
    + destruct (orders w !! Payment.order p) as [order|] eqn:Ho.
      all: async_unfold; simpl; fold q; rewrite Hq; simpl; rewrite Hi; simpl.
      all: intros [= <- <-]; split; [done|]; exists i, q.
      all: rewrite (find_insert_same reference _ i p q Hf eq_refl).
      all: simpl; split_and!; try done; [rewrite !elem_of_cons; auto|by right].
    + destruct (orders w !! Payment.order p) as [order|] eqn:Ho.
      all: async_unfold; simpl; fold q; by rewrite Hq.
  - erewrite verify_marks_failed by done.
    set (q := assign_charge failed (Payment.paidAt p) d p).
    destruct (Payment.validate q) eqn:Hq.
    + async_unfold; simpl; fold q; rewrite Hq; simpl; rewrite Hi; simpl.
      intros [= <- <-]; split; [done|]; exists i, q.
      rewrite (find_insert_same reference _ i p q Hf eq_refl).
      simpl; split_and!; try done; [rewrite !elem_of_cons; auto|by right].
    + async_unfold; simpl; fold q; by rewrite Hq.
Qed.

(** ** Notification, then poll *)

Lemma success_charge_settles d w i p :
  list_find (has_reference (cd_reference d)) (payments w) = Some (i, p) →
  Payment.validate
    (assign_charge success (Some (new_Date (cd_paid_at d))) d p) = true →
  (handleSuccessfulCharge d w).1 = Returned () ∧
  payments (handleSuccessfulCharge d w).2
  = <[i := assign_charge success (Some (new_Date (cd_paid_at d))) d p]>
      (payments w).
Proof.
  intros Hf Hv.
  destruct (orders w !! Payment.order p) as [order|] eqn:Ho;
    [destruct (Order.isPaid order) eqn:Hp|].
  - by erewrite charge_settles_paid.
  - by erewrite charge_settles_unpaid.
  - by erewrite charge_settles_orphan.
Qed.

Section Composition.
Context (WS SK : option string) (hmac : string → string → string)
        (stringify : WebhookBody → string).
Abbreviation handleWebhook := (handleWebhook WS SK hmac stringify).
Abbreviation signature_valid := (signature_valid WS SK hmac stringify).

(** X23. After a signed [charge.success] has settled a payment, a poll by
    its owner is answered from the ledger: 200 'Payment already verified'
    with the settled row (status success, the identity of the row found,
    [paidAt] the notification's), and the world is left as the notification
    left it: no call to the gateway, whatever it would answer, and no
    write. *)
Theorem poll_after_notification signature body gw user w i p :
  signature_valid signature body = true →
  event body = "charge.success" →
  list_find (has_reference (cd_reference (data body))) (payments w)
  = Some (i, p) →
  Payment.validate p = true →
  Payment.paymentMethod_ok (cd_channel (data body)) = true →
  Payment.user p = u_id user →
  ∃ q,
    verifyPayment gw user (cd_reference (data body))
      (handleWebhook signature body w).2
    = (Returned (json 200 (verified_body "Payment already verified" q)),
       (handleWebhook signature body w).2)
    ∧ Payment.status q = success ∧ identity q = identity p
    ∧ Payment.paidAt q = Some (new_Date (cd_paid_at (data body))).
Proof.
  intros Hsig Hev Hf Hval Hch Hu.
  set (q := assign_charge success
              (Some (new_Date (cd_paid_at (data body)))) (data body) p).
  pose proof (charged_valid success
                (Some (new_Date (cd_paid_at (data body)))) (data body)
                p p eq_refl Hval Hch) as Hq.
  exists q. split; [|done].
  rewrite webhook_accepts by (by apply signature_valid_true).
  rewrite then_ret_snd. unfold dispatch. rewrite decide_True by done.
  match goal with |- context [handleSuccessfulCharge (data body) ?w0] =>
    destruct (success_charge_settles (data body) w0 i p Hf Hq)
      as [_ Hpay] end.
  erewrite verify_already_verified; [done| |done|done].
  rewrite Hpay. by apply (find_insert_same _ _ i p q).
Qed.

End Composition.

(** ** Failure, then a new attempt *)

Lemma initialize_charges gw Date_now user vd w order :
  orders w !! orderId vd = Some order →
  Order.user order = u_id user → Order.isPaid order = false →
  list_find (active (orderId vd)) (payments w) = None →
  GatewayInitialize (charge_request Date_now user vd order)
    ∈ trace (initializePayment gw Date_now user vd w).2.
Proof.
  intros Ho Hu Hp Hf.
  destruct (transaction_initialize gw (charge_request Date_now user vd order))
    as [r|msg] eqn:Hg.
  2: { erewrite initialize_gateway_rejects by done. simpl.
       rewrite !elem_of_app, !list_elem_of_singleton. auto. }
  destruct (ir_status r) eqn:Hs.
  2: { erewrite initialize_gateway_refuses by done. simpl.
       rewrite !elem_of_app, !list_elem_of_singleton. auto. }
  destruct (ir_data r) as [d|] eqn:Hd.
  2: { edestruct initialize_missing_data as [e ->]; [done..|]. simpl.
       rewrite !elem_of_app, !list_elem_of_singleton. auto. }
  destruct (Payment.validate (new_payment Date_now user vd order d)) eqn:Hv.
  2: { edestruct initialize_create_fails as [e ->]; [done..|by left|].
       simpl. rewrite !elem_of_app, !list_elem_of_singleton. auto. }
  destruct (decide (Payment.reference (new_payment Date_now user vd order d)
                    ∈ (Payment.reference <$> payments w))) as [Hin|Hin].
  { edestruct initialize_create_fails as [e ->]; [done..|by right|].
    simpl. rewrite !elem_of_app, !list_elem_of_singleton. auto. }
  erewrite initialize_creates by done. simpl.
  rewrite elem_of_app, !elem_of_cons. auto.
Qed.

Lemma failed_charge_saved d w i p :
  list_find (has_reference (cd_reference d)) (payments w) = Some (i, p) →
  Payment.validate p = true →
  ∃ q, Payment.status q = failed ∧
    payments (handleFailedCharge d w).2 = <[i := q]> (payments w) ∧
    orders (handleFailedCharge d w).2 = orders w.
Proof.
  intros Hf Hv.
  destruct (failed_charge_marks d w i p Hf Hv) as (q & Hq & _ & _ & ->).
  by exists q.
Qed.

Section Retry.
Context (WS SK : option string) (hmac : string → string → string)
        (stringify : WebhookBody → string).
Abbreviation handleWebhook := (handleWebhook WS SK hmac stringify).
Abbreviation signature_valid := (signature_valid WS SK hmac stringify).

(** X24. A failed charge frees its order for a new attempt: while an
    unpaid order has its one open payment pending, the owner's Initialize
    hands it back without calling the gateway; once a signed
    [charge.failed] has reached that payment, the owner's next Initialize
    sends a charge request for the order to the gateway. *)
Theorem failed_payment_frees_order signature body gw Date_now user vd w i p
    order :
  signature_valid signature body = true →
  event body = "charge.failed" →
  list_find (has_reference (cd_reference (data body))) (payments w)
  = Some (i, p) →
  Payment.validate p = true →
  Payment.order p = orderId vd → Payment.status p = pending →
  one_active (orderId vd) (payments w) →
  orders w !! orderId vd = Some order →
  Order.user order = u_id user → Order.isPaid order = false →
  gateway_calls (initializePayment gw Date_now user vd w).2 = gateway_calls w
  ∧ GatewayInitialize (charge_request Date_now user vd order)
      ∈ trace (initializePayment gw Date_now user vd
                 (handleWebhook signature body w).2).2.
Proof.
  intros Hsig Hev Hf Hval Hoid Hs Hone Ho Hu Hp.
  destruct (find_lookup _ _ _ _ Hf) as [Hi Href].
  assert (active (orderId vd) p) as Hact.
  { split; [done|]. rewrite Hs. rewrite !elem_of_cons. auto. }
  split.
  - destruct (one_active_find _ _ p Hone) as [j Hj];
      [by eapply list_elem_of_lookup_2|done|].
    erewrite initialize_existing_pending; [done..|]. by rewrite Hs.
  - rewrite webhook_accepts by (by apply signature_valid_true).
    rewrite then_ret_snd. unfold dispatch.
    rewrite decide_False by (by rewrite Hev).
    rewrite decide_True by done.
    match goal with |- context [handleFailedCharge (data body) ?w0] =>
      destruct (failed_charge_saved (data body) w0 i p Hf Hval)
        as (q & Hq & Hpay & Hord) end.
    apply initialize_charges; [by rewrite Hord|done|done|].
    rewrite Hpay. apply list_find_None, Forall_lookup. intros j x Hj Hx.
    destruct (decide (j = i)) as [->|Hne].
    + rewrite list_lookup_insert_eq in Hj by (by eapply lookup_lt_Some).
      simplify_eq. destruct Hx as [_ Hx]. rewrite Hq in Hx.
      rewrite !elem_of_cons, elem_of_nil in Hx. by destruct Hx as [|[|[]]].
    + rewrite list_lookup_insert_ne in Hj by done.
      apply Hne. by eapply Hone.
Qed.

End Retry.

Lemma verify_reply_is_stored_witness :
  ∃ i p,
    list_find (has_reference Scenario.ref1)
      (payments
         (verifyPayment
            (Scenario.gateway (Scenario.charge "success" (Some "card")))
            Scenario.U1 Scenario.ref1 (Scenario.ledger pending)).2)
    = Some (i, p)
    ∧ Payment.status p = success.
Proof.
  destruct (verify_reply_is_stored
              (Scenario.gateway (Scenario.charge "success" (Some "card")))
              Scenario.U1 Scenario.ref1 (Scenario.ledger pending) 200
              (verified_body "Payment success"
                 (assign_charge success
                    (Some (new_Date "2024-01-01T00:00:00Z"))
                    (Scenario.charge "success" (Some "card"))
                    (Scenario.P1 pending))))
    as (_ & i & p & Hshown & Hstored & _).
  - vm_compute. reflexivity.
  - exists i, p. split; [exact Hstored|].
    injection Hshown as <-. reflexivity.
Defined.

Lemma poll_after_notification_witness :
  ∃ q,
    verifyPayment Scenario.gateway_down Scenario.U1 Scenario.ref1
      (Scenario.handleWebhook
         (Scenario.sign (Scenario.notification "charge.success" (Some "card")))
         (Scenario.notification "charge.success" (Some "card"))
         (Scenario.ledger pending)).2
    = (Returned (json 200 (verified_body "Payment already verified" q)),
       (Scenario.handleWebhook
          (Scenario.sign
             (Scenario.notification "charge.success" (Some "card")))
          (Scenario.notification "charge.success" (Some "card"))
          (Scenario.ledger pending)).2)
    ∧ Payment.status q = success.
Proof.
  destruct (poll_after_notification Scenario.WEBHOOK_SECRET
              Scenario.SECRET_KEY Scenario.hmac Scenario.stringify
              (Scenario.sign
                 (Scenario.notification "charge.success" (Some "card")))
              (Scenario.notification "charge.success" (Some "card"))
              Scenario.gateway_down Scenario.U1 (Scenario.ledger pending)
              0%nat (Scenario.P1 pending))
    as (q & Hpoll & Hq & _).
  - vm_compute. reflexivity.
  - reflexivity.
  - vm_compute. reflexivity.
  - vm_compute. reflexivity.
  - vm_compute. reflexivity.
  - reflexivity.
  - exists q. split; [exact Hpoll|exact Hq].
Defined.

Lemma failed_payment_frees_order_witness :
  GatewayInitialize
    (charge_request 1704070800000 Scenario.U1 Scenario.request Scenario.O1)
  ∈ trace
      (initializePayment
         (Scenario.gateway (Scenario.charge "success" None))
         1704070800000 Scenario.U1 Scenario.request
         (Scenario.handleWebhook
            (Scenario.sign
               (Scenario.notification "charge.failed" (Some "card")))
            (Scenario.notification "charge.failed" (Some "card"))
            (Scenario.ledger pending)).2).2.
Proof.
  destruct (failed_payment_frees_order Scenario.WEBHOOK_SECRET
              Scenario.SECRET_KEY Scenario.hmac Scenario.stringify
              (Scenario.sign
                 (Scenario.notification "charge.failed" (Some "card")))
              (Scenario.notification "charge.failed" (Some "card"))
              (Scenario.gateway (Scenario.charge "success" None))
              1704070800000 Scenario.U1 Scenario.request
              (Scenario.ledger pending) 0%nat (Scenario.P1 pending)
              Scenario.O1)
    as [_ Hcharged].
  - vm_compute. reflexivity.
  - reflexivity.
  - vm_compute. reflexivity.
  - vm_compute. reflexivity.
  - reflexivity.
  - reflexivity.
  - intros [|i] [|j] p q Hi Hj _ _; simpl in Hi, Hj;
      try discriminate; reflexivity.
  - vm_compute. reflexivity.
  - reflexivity.
  - reflexivity.
  - exact Hcharged.
Defined.

(** * Currency units *)

Local Open Scope Z_scope.

(** ** Binary64 rounding *)

Lemma digits2_size p : digits2_pos p = Pos.size p.
Proof. induction p; simpl; congruence. Qed.

Lemma digits2_bounds p :
  2 ^ (Z.pos (digits2_pos p) - 1) <= Z.pos p < 2 ^ Z.pos (digits2_pos p).
Proof.
  rewrite digits2_size. split.
  - pose proof (Pos.size_le p) as H.
    apply Pos2Z.pos_le_pos in H. rewrite Pos2Z.inj_pow in H.
    change (Z.pos p~0) with (2 * Z.pos p) in H.
    replace (Z.pos (Pos.size p)) with (Z.succ (Z.pos (Pos.size p) - 1)) in H
      by lia.
    rewrite Z.pow_succ_r in H by lia. lia.
  - pose proof (Pos.size_gt p) as H.
    apply Pos2Z.pos_lt_pos in H. by rewrite Pos2Z.inj_pow in H.
Qed.

Lemma digits2_unique p d :
  2 ^ (d - 1) <= Z.pos p < 2 ^ d → Z.pos (digits2_pos p) = d.
Proof.
  intros [Hlo Hhi]. pose proof (digits2_bounds p) as [Hlo' Hhi'].
  assert (0 <= d).
  { destruct (Z.le_gt_cases 0 d); [done|].
    rewrite Z.pow_neg_r in Hhi by done. lia. }
  assert (d - 1 < Z.pos (digits2_pos p)).
  { apply (Z.pow_lt_mono_r_iff 2); lia. }
  assert (Z.pos (digits2_pos p) - 1 < d).
  { apply (Z.pow_lt_mono_r_iff 2); lia. }
  lia.
Qed.

Lemma iter_pos_nat {A} (f : A → A) p : ∀ x,
  SpecFloat.iter_pos f p x = Nat.iter (Pos.to_nat p) f x.
Proof.
  induction p as [p IH|p IH|]; intros x; cbn [SpecFloat.iter_pos].
  - rewrite !IH, Pos2Nat.inj_xI, <- Nat.iter_add, <- Nat.iter_succ_r.
    f_equal. lia.
  - rewrite !IH, Pos2Nat.inj_xO, <- Nat.iter_add. f_equal. lia.
  - done.
Qed.

Lemma shr_1_nonneg m r s :
  0 <= m →
  shr_1 {| shr_m := m; shr_r := r; shr_s := s |}
  = {| shr_m := m / 2; shr_r := Z.odd m; shr_s := r || s |}.
Proof.
  intros Hm. destruct m as [|[p|p|]|]; try lia; simpl.
  - done.
  - f_equal. rewrite Pos2Z.inj_xI. rewrite Z.add_comm, Z.mul_comm.
    rewrite Z.div_add by lia. by rewrite Z.div_small by lia.
  - f_equal. rewrite Pos2Z.inj_xO, Z.mul_comm. by rewrite Z.div_mul by lia.
  - done.
Qed.

Lemma shr_iter n m :
  0 <= m →
  Nat.iter (S n) shr_1 {| shr_m := m; shr_r := false; shr_s := false |}
  = {| shr_m := m / 2 ^ Z.of_nat (S n);
       shr_r := Z.odd (m / 2 ^ Z.of_nat n);
       shr_s := negb (m mod 2 ^ Z.of_nat n =? 0) |}.
Proof.
  intros Hm. induction n as [|n IH].
  - unfold Nat.iter. cbn [nat_rect]. rewrite shr_1_nonneg by done.
    change (2 ^ Z.of_nat 1) with 2. change (2 ^ Z.of_nat 0) with 1.
    by rewrite Z.div_1_r, Z.mod_1_r.
  - rewrite Nat.iter_succ, IH.
    rewrite shr_1_nonneg by (apply Z.div_pos; lia).
    f_equal.
    + rewrite Z.div_div by lia. f_equal.
      rewrite (Nat2Z.inj_succ (S n)), Z.pow_succ_r by lia. lia.
    + rewrite (Nat2Z.inj_succ n), Z.pow_succ_r by lia.
      rewrite (Z.mul_comm 2), Z.rem_mul_r by lia.
      rewrite <- Z.bit0_mod, Z.bit0_odd.
      destruct (Z.odd (m / 2 ^ Z.of_nat n)); simpl.
      * symmetry. apply negb_true_iff, Z.eqb_neq.
        assert (0 < 2 ^ Z.of_nat n) by (apply Z.pow_pos_nonneg; lia).
        pose proof (Z.mod_pos_bound m (2 ^ Z.of_nat n)). lia.
      * by rewrite Z.mul_0_r, Z.add_0_r.
Qed.

(** Shifting [n] bits out and rounding to nearest even: the result is within
    half a unit of the shifted-out weight. *)
Lemma shr_round M n :
  0 <= M →
  let mrs := SpecFloat.iter_pos shr_1 n
               {| shr_m := M; shr_r := false; shr_s := false |} in
  let m1 := round_nearest_even (shr_m mrs) (loc_of_shr_record mrs) in
  M / 2 ^ Z.pos n <= m1 <= M / 2 ^ Z.pos n + 1
  ∧ 2 * Z.abs (m1 * 2 ^ Z.pos n - M) <= 2 ^ Z.pos n.
Proof.
  intros HM. rewrite iter_pos_nat.
  destruct (Pos2Nat.is_succ n) as [j Hj]. rewrite Hj, shr_iter by done.
  replace (Z.pos n) with (Z.of_nat (S j)) by lia.
  rewrite Nat2Z.inj_succ, Z.pow_succ_r by lia.
  set (P := 2 ^ Z.of_nat j).
  assert (0 < P) as HP by (apply Z.pow_pos_nonneg; lia).
  pose proof (Z.div_mod M P ltac:(lia)) as HMP.
  pose proof (Z.mod_pos_bound M P HP) as Ht.
  assert (M / P = 2 * (M / (2 * P)) + Z.b2z (Z.odd (M / P))) as Hq.
  { rewrite (Z.mul_comm 2 P), <- Z.div_div by lia.
    rewrite <- Z.bit0_odd, Z.bit0_mod. apply Z.div_mod. lia. }
  set (q := M / (2 * P)) in *. set (t := M mod P) in *.
  set (b := Z.odd (M / P)) in *.
  cbn [shr_m shr_r shr_s loc_of_shr_record].
  destruct b; destruct (Z.eqb_spec t 0) as [Ht0|Ht0];
    cbn [negb loc_of_shr_record round_nearest_even Z.b2z] in *.
  - destruct (Z.even q); nia.
  - nia.
  - nia.
  - nia.
Qed.

Lemma fexp_normal x : -1021 <= x → fexp prec emax x = x - 53.
Proof. intros H. unfold fexp, SpecFloat.emin, prec, emax. lia. Qed.

Lemma shr_fexp_shift m e l n :
  fexp prec emax (Zdigits2 m + e) - e = Z.pos n →
  shr_fexp prec emax m e l
  = (SpecFloat.iter_pos shr_1 n (shr_record_of_loc m l), e + Z.pos n).
Proof. intros H. unfold shr_fexp, shr. by rewrite H. Qed.

Lemma shr_fexp_keep m e l :
  fexp prec emax (Zdigits2 m + e) - e = 0 →
  shr_fexp prec emax m e l = (shr_record_of_loc m l, e).
Proof. intros H. unfold shr_fexp, shr. by rewrite H. Qed.

(** Rounding an exact product of [d > 53] digits to binary64, away from
    underflow and overflow. *)
Lemma round_wide (M : positive) E d :
  Z.pos (digits2_pos M) = d → 53 < d →
  -1074 <= E + d - 53 → E + d - 52 <= 971 →
  ∃ m' e',
    binary_round_aux prec emax false (Z.pos M) E loc_Exact
    = S754_finite false m' e'
    ∧ E + d - 53 <= e' <= E + d - 52
    ∧ 2 * Z.abs (Z.pos m' * 2 ^ (e' - E) - Z.pos M) <= 2 ^ (d - 53).
Proof.
  intros Hd Hwide Hlo Hhi.
  destruct (d - 53) as [|n|] eqn:Hn; try lia.
  pose proof (digits2_bounds M) as HM. rewrite Hd in HM.
  pose proof (shr_round (Z.pos M) n ltac:(lia)) as Hround.
  cbv zeta in Hround.
  unfold binary_round_aux.
  rewrite (shr_fexp_shift _ _ _ n)
    by (cbn [Zdigits2]; rewrite Hd, fexp_normal; lia).
  cbn [shr_record_of_loc].
  set (mrs := SpecFloat.iter_pos shr_1 n _) in *.
  set (m1 := round_nearest_even (shr_m mrs) (loc_of_shr_record mrs)) in *.
  destruct Hround as [Hq Herr].
  assert (2 ^ 52 <= Z.pos M / 2 ^ Z.pos n < 2 ^ 53) as Hq53.
  { replace d with (53 + Z.pos n) in HM by lia.
    replace (53 + Z.pos n - 1) with (52 + Z.pos n) in HM by lia.
    rewrite !Z.pow_add_r in HM by lia.
    assert (0 < 2 ^ Z.pos n) by (apply Z.pow_pos_nonneg; lia).
    split.
    - apply Z.div_le_lower_bound; lia.
    - apply Z.div_lt_upper_bound; lia. }
  destruct m1 as [|p1|] eqn:Hm1; try lia.
  destruct (Z.eq_dec (Z.pos p1) (2 ^ 53)) as [Htop|Htop].
  - assert (Z.pos (digits2_pos p1) = 54) as Hd1.
    { apply digits2_unique. rewrite Htop. split; [|done]. done. }
    rewrite (shr_fexp_shift _ _ _ 1)
      by (cbn [Zdigits2]; rewrite Hd1, fexp_normal; lia).
    cbn [shr_record_of_loc SpecFloat.iter_pos].
    rewrite shr_1_nonneg by lia. cbn [shr_m].
    rewrite Htop. change (2 ^ 53 / 2) with (Z.pos (2 ^ 52)).
    cbv beta iota.
    rewrite (proj2 (Z.leb_le _ _)) by (unfold emax, prec; lia).
    eexists _, _. split; [done|]. split; [lia|].
    replace (E + Z.pos n + 1 - E) with (Z.succ (Z.pos n)) by lia.
    rewrite Z.pow_succ_r by lia. rewrite Htop in Herr.
    change (Z.pos (2 ^ 52)) with (2 ^ 52).
    change (2 ^ 53) with (2 * 2 ^ 52) in Herr. lia.
  - assert (Z.pos (digits2_pos p1) = 53) as Hd1.
    { apply digits2_unique. lia. }
    rewrite shr_fexp_keep
      by (cbn [Zdigits2]; rewrite Hd1, fexp_normal; lia).
    cbn [shr_record_of_loc shr_m]. cbv beta iota.
    rewrite (proj2 (Z.leb_le _ _)) by (unfold emax, prec; lia).
    eexists _, _. split; [done|]. split; [lia|].
    by replace (E + Z.pos n - E) with (Z.pos n) by lia.
Qed.

Lemma round_exact (M : positive) E :
  Z.pos (digits2_pos M) = 53 → -1074 <= E <= 971 →
  binary_round_aux prec emax false (Z.pos M) E loc_Exact
  = S754_finite false M E.
Proof.
  intros Hd HE. unfold binary_round_aux.
  rewrite shr_fexp_keep by (cbn [Zdigits2]; rewrite Hd, fexp_normal; lia).
  cbn [shr_record_of_loc shr_m loc_of_shr_record round_nearest_even].
  rewrite shr_fexp_keep by (cbn [Zdigits2]; rewrite Hd, fexp_normal; lia).
  cbn [shr_record_of_loc shr_m]. cbv beta iota.
  by rewrite (proj2 (Z.leb_le _ _)) by (unfold emax, prec; lia).
Qed.

Lemma iter_xO p j : Z.pos (Pos.iter xO p j) = Z.pos p * 2 ^ Z.pos j.
Proof.
  induction j as [|j IH] using Pos.peano_ind.
  - simpl. lia.
  - rewrite Pos.iter_succ, Pos2Z.inj_xO, IH, Pos2Z.inj_succ.
    rewrite Z.pow_succ_r by lia. lia.
Qed.

Lemma scale_bounds p d j :
  2 ^ (d - 1) <= p < 2 ^ d → 1 <= d → 0 <= j →
  2 ^ (d + j - 1) <= p * 2 ^ j < 2 ^ (d + j).
Proof.
  intros Hp Hd Hj.
  replace (d + j - 1) with ((d - 1) + j) by lia.
  rewrite !Z.pow_add_r by lia.
  assert (0 < 2 ^ j) by (apply Z.pow_pos_nonneg; lia). nia.
Qed.

(** An integer below [2^53] is a binary64, exactly. *)
Lemma Z2Number_exact k :
  0 < k < 2 ^ 53 → Number_to_Z (Z2Number k) = Some k.
Proof.
  intros Hk. destruct k as [|p|]; try lia.
  pose proof (digits2_bounds p) as Hp.
  set (d := Z.pos (digits2_pos p)) in *.
  assert (1 <= d <= 53) as Hd.
  { split; [unfold d; lia|].
    destruct (Z.le_gt_cases d 53) as [|Hgt]; [done|].
    assert (2 ^ 53 <= 2 ^ (d - 1)) by (apply Z.pow_le_mono_r; lia). lia. }
  assert (∃ mz, Z.pos mz = Z.pos p * 2 ^ (53 - d) ∧
                binary_normalize prec emax (Z.pos p) 0 false
                = S754_finite false mz (d - 53)) as (mz & Hmz & Hnorm).
  { unfold binary_normalize, binary_round.
    rewrite fexp_normal by lia. fold d. unfold shl_align.
    destruct (d + 0 - 53 - 0) as [|q|q] eqn:Hq; try lia.
    - exists p. replace (53 - d) with 0 by lia. split; [lia|].
      rewrite round_exact; [f_equal; lia| |lia].
      fold d. lia.
    - exists (Pos.iter xO p q).
      replace (53 - d) with (Z.pos q) by lia. split; [apply iter_xO|].
      cbv beta iota.
      rewrite round_exact; [f_equal; lia| |lia].
      apply digits2_unique. rewrite iter_xO.
      pose proof (scale_bounds (Z.pos p) d (Z.pos q) Hp) as Hs.
      replace (d + Z.pos q) with 53 in Hs by lia. apply Hs; lia. }
  assert (0 < 2 ^ (53 - d)) as Hpow by (apply Z.pow_pos_nonneg; lia).
  unfold Number_to_Z, Z2Number. rewrite Prim2SF_SF2Prim, Hnorm.
  - destruct (Z.leb_spec 0 (d - 53)).
    + replace (d - 53) with 0 by lia. f_equal. rewrite Hmz.
      replace (53 - d) with 0 by lia. lia.
    + replace (- (d - 53)) with (53 - d) by lia. rewrite Hmz.
      rewrite Z.mod_mul by lia. cbn [Z.eqb]. f_equal.
      by rewrite Z.div_mul by lia.
  - rewrite Hnorm. cbn [SpecFloat.valid_binary]. unfold bounded.
    apply andb_true_iff. split.
    + unfold canonical_mantissa. apply Z.eqb_eq.
      assert (Z.pos (digits2_pos mz) = 53) as ->.
      { apply digits2_unique. rewrite Hmz.
        pose proof (scale_bounds (Z.pos p) d (53 - d) Hp) as Hs.
        replace (d + (53 - d)) with 53 in Hs by lia. apply Hs; lia. }
      rewrite fexp_normal by lia. lia.
    + apply Z.leb_le. unfold emax, prec. lia.
Qed.

Lemma hundred : Prim2SF 100 = S754_finite false 7036874417766400 (-46).
Proof. reflexivity. Qed.

Lemma finite_canonical a s m e :
  Prim2SF a = S754_finite s m e →
  Z.max (Z.pos (digits2_pos m) + e - 53) (-1074) = e ∧ e <= 971.
Proof.
  intros Ha. pose proof (Prim2SF_valid a) as Hv. rewrite Ha in Hv.
  cbn [SpecFloat.valid_binary] in Hv. unfold bounded in Hv.
  apply andb_true_iff in Hv as [Hc He].
  unfold canonical_mantissa in Hc. apply Z.eqb_eq in Hc.
  apply Z.leb_le in He. unfold fexp, SpecFloat.emin, prec, emax in *.
  split; lia.
Qed.

Lemma pow2_le_inv x y : 0 <= y → 2 ^ x <= 2 ^ y → x <= y.
Proof. intros Hy H. apply (Z.pow_le_mono_r_iff 2); lia. Qed.

Lemma pow2_lt_inv x y : 0 <= y → 2 ^ x < 2 ^ y → x < y.
Proof. intros Hy H. apply (Z.pow_lt_mono_r_iff 2); lia. Qed.



(** Below [2^50] hundredths, the conversion of a two-decimal amount is
    exact: the product by [100] is off by less than a quarter, and
    [Math.round] brings it back to the integer. *)
Lemma toKobo_exact a k :
  0 <= k < 2 ^ 50 → two_decimals a k →
  Number_to_Z (paystackService.toKobo a) = Some k.
Proof.
  intros Hk Ha. unfold two_decimals in Ha.
  destruct (Prim2SF a) as [s|s| |[] m e] eqn:Hsf; try done.
  { (* the amount is a zero *)
    subst k. unfold paystackService.toKobo, Math_round, Number_to_Z.
    rewrite mul_spec, Hsf, hundred. cbn [SF64mul SFmul].
    rewrite mul_spec, Hsf, hundred. by cbn [SF64mul SFmul]. }
  destruct (finite_canonical _ _ _ _ Hsf) as [Hcanon _].
  pose proof (digits2_bounds m) as Hm.
  set (dm := Z.pos (digits2_pos m)) in *.
  assert (1 <= dm) as Hdm1 by (unfold dm; lia).
  assert (dm <= 53) as Hdm by lia.
  assert (Z.pos m < 2 ^ 53) as Hm53.
  { assert (2 ^ dm <= 2 ^ 53) by (apply Z.pow_le_mono_r; lia). lia. }
  destruct (Z.ltb_spec e 0) as [He|He].
  2: { (* an amount that large is not within reach of [k] *)
       exfalso. assert (dm = 53) as Hn by lia. rewrite Hn in Hm.
       assert (1 <= 2 ^ e) by (apply (Z.pow_le_mono_r 2 0 e); lia).
       change (2 ^ (53 - 1)) with 4503599627370496 in Hm.
       change (2 ^ 50) with 1125899906842624 in Hk. nia. }
  set (P := 2 ^ (- e)) in *.
  assert (0 < P) as HP by (apply Z.pow_pos_nonneg; lia).
  assert (1 <= k) as Hk1 by nia.
  set (X := k * P) in *.
  assert (P <= X) as HPX by (unfold X; nia).
  assert (- e < 60) as He60.
  { apply pow2_lt_inv; [lia|]. fold P.
    change (2 ^ 53) with 9007199254740992 in Hm53.
    change (2 ^ 60) with 1152921504606846976. lia. }
  assert (dm = 53) as Hn by lia. rewrite Hn in Hm.
  change (2 ^ (53 - 1)) with 4503599627370496 in Hm.
  change (2 ^ 53) with 9007199254740992 in Hm, Hm53.
  assert (512 <= P) as HP9.
  { change 512 with (2 ^ 9). apply Z.pow_le_mono_r; [lia|].
    destruct (Z.le_gt_cases 9 (- e)) as [|Hsmall]; [done|]. exfalso.
    assert (P <= 2 ^ 8) by (apply Z.pow_le_mono_r; lia).
    change (2 ^ 8) with 256 in *. change (2 ^ 50) with 1125899906842624 in Hk.
    unfold X in *. nia. }
  assert (9 <= - e) as He9.
  { apply pow2_le_inv; [lia|]. by change (2 ^ 9) with 512. }
  (* the product, rounded *)
  set (M := (m * 7036874417766400)%positive).
  assert (Z.pos M = 7036874417766400 * Z.pos m) as HM by (unfold M; lia).
  pose proof (digits2_bounds M) as HdM.
  set (d := Z.pos (digits2_pos M)) in *.
  assert (d = 105 ∨ d = 106) as Hd.
  { assert (104 < d).
    { apply pow2_lt_inv; [unfold d; lia|].
      change (2 ^ 104) with 20282409603651670423947251286016. lia. }
    assert (d - 1 < 106).
    { apply pow2_lt_inv; [lia|].
      change (2 ^ 106) with 81129638414606681695789005144064. lia. }
    lia. }
  destruct (round_wide M (e + -46) d eq_refl) as (m' & e' & Hmul & He' & Herr);
    [lia..|].
  set (Q := 2 ^ (- e')) in *.
  set (S := 2 ^ (e' - (e + -46))) in *.
  assert (0 < Q) as HQ by (apply Z.pow_pos_nonneg; lia).
  assert (0 < S) as HS by (apply Z.pow_pos_nonneg; lia).
  assert (Q * S = 70368744177664 * P) as HQS.
  { unfold Q, S, P. rewrite <- Z.pow_add_r by lia.
    replace (- e' + (e' - (e + -46))) with (46 + - e) by lia.
    by rewrite Z.pow_add_r by lia. }
  set (V := Z.pos m' * S) in *.
  assert (2 * Z.abs (V - Z.pos M) <= 2 ^ 53) as Herr'.
  { destruct Hd as [Hd|Hd]; rewrite Hd in Herr;
      [change (2 ^ (105 - 53)) with 4503599627370496 in Herr
      |change (2 ^ (106 - 53)) with 9007199254740992 in Herr];
      change (2 ^ 53) with 9007199254740992; lia. }
  change (2 ^ 53) with 9007199254740992 in Herr'.
  assert (2 * Z.abs (V - 7036874417766400 * Z.pos m) <= 9007199254740992)
    as Hprod by (rewrite <- HM; exact Herr').
  assert (2 * (k * (Q * S)) <= 2 * V + Q * S
          ∧ 2 * V + Q * S < 2 * ((k + 1) * (Q * S))) as [Hlo Hhi].
  { rewrite HQS.
    replace (k * (70368744177664 * P)) with (70368744177664 * X)
      by (unfold X; ring).
    replace ((k + 1) * (70368744177664 * P))
      with (70368744177664 * X + 70368744177664 * P) by (unfold X; ring).
    clearbody X V P. clear - Ha Hprod HP9. lia. }
  assert (k * (2 * Q) <= 2 * Z.pos m' + Q
          ∧ 2 * Z.pos m' + Q < (k + 1) * (2 * Q)) as [Hlo' Hhi'].
  { unfold V in *. clearbody Q S. clear - Hlo Hhi HS. split.
    - apply (Z.mul_le_mono_pos_r _ _ S HS).
      replace (k * (2 * Q) * S) with (2 * (k * (Q * S))) by ring.
      replace ((2 * Z.pos m' + Q) * S) with (2 * (Z.pos m' * S) + Q * S)
        by ring.
      exact Hlo.
    - apply (Z.mul_lt_mono_pos_r S _ _ HS).
      replace ((k + 1) * (2 * Q) * S) with (2 * ((k + 1) * (Q * S))) by ring.
      replace ((2 * Z.pos m' + Q) * S) with (2 * (Z.pos m' * S) + Q * S)
        by ring.
      exact Hhi. }
  assert (round_half_up (Z.pos m') e' = k) as Hround.
  { unfold round_half_up. replace (1 - e') with (Z.succ (- e')) by lia.
    rewrite Z.pow_succ_r by lia. fold Q. symmetry.
    apply (Z.div_unique _ _ _ (2 * Z.pos m' + Q - k * (2 * Q)));
      clear - Hlo' Hhi' HQ; lia. }
  unfold paystackService.toKobo, Math_round.
  rewrite mul_spec, Hsf, hundred. cbn [SF64mul SFmul xorb]. fold M.
  rewrite Hmul. rewrite (proj2 (Z.leb_gt _ _)) by lia.
  cbv zeta. rewrite Hround.
  rewrite (proj2 (Z.eqb_neq _ _)) by lia.
  apply Z2Number_exact. change (2 ^ 50) with 1125899906842624 in Hk.
  change (2 ^ 53) with 9007199254740992. lia.
Qed.

(** [Math.round] picks a nearest integer, the upper one on a tie. *)
Lemma round_half_up_nearest sm e :
  e < 0 →
  round_half_up sm e * (2 * 2 ^ (- e)) <= 2 * sm + 2 ^ (- e)
  ∧ 2 * sm + 2 ^ (- e) < (round_half_up sm e + 1) * (2 * 2 ^ (- e)).
Proof.
  intros He. unfold round_half_up.
  replace (1 - e) with (Z.succ (- e)) by lia. rewrite Z.pow_succ_r by lia.
  assert (0 < 2 ^ (- e)) as HP by (apply Z.pow_pos_nonneg; lia).
  set (P := 2 ^ (- e)) in *.
  pose proof (Z.div_mod (2 * sm + P) (2 * P) ltac:(lia)) as Hdm.
  pose proof (Z.mod_pos_bound (2 * sm + P) (2 * P) ltac:(lia)) as Hr.
  clearbody P. lia.
Qed.

(** C8 (as amended). The gateway client asks the provider for
    [Math.round(amount * 100)], computed on binary64 Numbers: the nearest
    integer to the rounded product, the upper one on a tie
    ([round_half_up_nearest]). For every amount written with two decimals,
    [k] hundredths with [0 <= k < 2^50] (some eleven trillion major units),
    the value sent is the integer [k] exactly. *)
Theorem smallest_unit_amount gw params w :
  (∃ rq rest,
     trace (paystackService.initializeTransaction gw params w).2
       = trace w ++ GatewayInitialize rq :: rest
     ∧ rq_amount rq = paystackService.toKobo (paystackService.amount params)
     ∧ rq_amount rq
       = Math_round (paystackService.amount params * 100)%float)
  ∧ (∀ k, 0 <= k < 2 ^ 50 →
       two_decimals (paystackService.amount params) k →
       Number_to_Z (paystackService.toKobo (paystackService.amount params))
       = Some k).
Proof.
  split.
  - async_unfold.
    destruct (transaction_initialize gw _) as [r|msg] eqn:Hg;
      eexists _, _;
      (split; [unfold emit; cbn [snd trace]; rewrite <- !app_assoc;
               reflexivity
              |split; reflexivity]).
  - intros k. apply toKobo_exact.
Qed.

Lemma smallest_unit_amount_witness :
  two_decimals (1999 / 100)%float 1999
  ∧ Number_to_Z (paystackService.toKobo (1999 / 100)%float) = Some 1999.
Proof.
  destruct (smallest_unit_amount Scenario.gateway_down
              {| paystackService.email := "a@b.com";
                 paystackService.amount := (1999 / 100)%float;
                 paystackService.reference := Scenario.ref1;
                 paystackService.currency := None;
                 paystackService.metadata := None;
                 paystackService.callback_url := None |}
              Scenario.checkout) as [_ Hexact].
  assert (two_decimals (1999 / 100)%float 1999) as Htwo.
  { vm_compute. intros H. discriminate H. }
  split; [exact Htwo|]. apply Hexact; [|exact Htwo].
  split; [|reflexivity]. vm_compute. intros H. discriminate H.
Defined.

(** C8, as the claim has it, fails for amounts so large that the product
    by [100] is no longer a binary64: 9007199254740994.00 is sent as
    900719925474099456, not 900719925474099400. *)
Lemma smallest_unit_amount_counterexample :
  two_decimals 9007199254740994%float 900719925474099400
  ∧ Number_to_Z (paystackService.toKobo 9007199254740994%float)
    = Some 900719925474099456.
Proof. split; [vm_compute; intros H; discriminate H | vm_compute; reflexivity]. Qed.

(** ** Whole units *)

(** X21. The provider is always asked for a whole number of the smallest unit:
    when the product by [100] is a positive binary64 [m * 2^e], [toKobo]
    is the integer [n] with [n - 1/2 <= m * 2^e < n + 1/2]. *)
Theorem toKobo_whole_units a m e :
  Prim2SF (a * 100)%float = S754_finite false m e →
  ∃ n, Number_to_Z (paystackService.toKobo a) = Some n ∧ 0 <= n ∧
    if 0 <=? e then n = Z.pos m * 2 ^ e
    else (2 * n - 1) * 2 ^ (- e) <= 2 * Z.pos m < (2 * n + 1) * 2 ^ (- e).
Proof.
  intros Hp. unfold paystackService.toKobo, Math_round. rewrite Hp.
  destruct (0 <=? e) eqn:He.
  - exists (Z.pos m * 2 ^ e). unfold Number_to_Z. rewrite Hp, He.
    split; [done|]. split; [|done]. apply Z.leb_le in He.
    apply Z.mul_nonneg_nonneg; [lia|]. by apply Z.pow_nonneg.
  - apply Z.leb_gt in He.
    exists (round_half_up (Z.pos m) e).
    destruct (round_half_up_nearest (Z.pos m) e He) as [Hlo Hhi].
    assert (0 < 2 ^ (- e)) as HP by (apply Z.pow_pos_nonneg; lia).
    assert (0 <= round_half_up (Z.pos m) e) as Hn0.
    { unfold round_half_up. apply Z.div_pos; [lia|].
      apply Z.pow_pos_nonneg; lia. }
    assert (round_half_up (Z.pos m) e < 2 ^ 53) as Hn53.
    { destruct (finite_canonical _ _ _ _ Hp) as [Hcanon _].
      pose proof (digits2_bounds m) as Hm.
      assert (Z.pos (digits2_pos m) <= 53) as Hd by lia.
      assert (Z.pos m < 2 ^ 53) as Hm53.
      { eapply Z.lt_le_trans; [apply Hm|]. apply Z.pow_le_mono_r; lia. }
      assert (2 <= 2 ^ (- e)) as HP2.
      { change 2 with (2 ^ 1) at 1. apply Z.pow_le_mono_r; lia. }
      set (P := 2 ^ (- e)) in *. set (n := round_half_up (Z.pos m) e) in *.
      clearbody P n. clear - Hlo HP2 Hm53 Hn0. nia. }
    split; [|split; [done|]].
    + destruct (round_half_up (Z.pos m) e =? 0) eqn:Hz.
      * apply Z.eqb_eq in Hz. by rewrite Hz.
      * apply Z.eqb_neq in Hz. apply Z2Number_exact. lia.
    + set (P := 2 ^ (- e)) in *. set (n := round_half_up (Z.pos m) e) in *.
      clearbody P n. lia.
Qed.

Lemma toKobo_whole_units_witness :
  Number_to_Z (paystackService.toKobo (1999 / 100)%float) = Some 1999.
Proof.
  destruct (toKobo_whole_units (1999 / 100)%float
              8791694975696895 (-42) eq_refl) as (n & Hn & _ & Hnear).
  rewrite Hn. f_equal. simpl in Hnear. lia.
Defined.

(** ** Division by one hundred *)

Lemma loc_of_shr_record_of_loc m l :
  loc_of_shr_record (shr_record_of_loc m l) = l
  ∧ shr_m (shr_record_of_loc m l) = m.
Proof. by destruct l as [|[]]. Qed.

(** The second stage of [binary_round_aux]: a rounded mantissa of 53 digits
    is kept, [2^53] is renormalised. *)
Lemma round_carry (m1 : Z) E :
  2 ^ 52 <= m1 <= 2 ^ 53 → -1074 <= E → E + 1 <= 971 →
  ∃ m' e',
    (let '(mrs, e) := shr_fexp prec emax m1 E loc_Exact in
     match shr_m mrs with
     | 0 => S754_zero false
     | Z.pos m => if e <=? emax - prec then S754_finite false m e
                  else S754_infinity false
     | Z.neg _ => S754_nan
     end) = S754_finite false m' e'
    ∧ E <= e' <= E + 1 ∧ Z.pos m' * 2 ^ (e' - E) = m1.
Proof.
  intros Hm HE1 HE2. destruct m1 as [|p1|]; try lia.
  destruct (Z.eq_dec (Z.pos p1) (2 ^ 53)) as [Htop|Htop].
  - assert (Z.pos (digits2_pos p1) = 54) as Hd1.
    { apply digits2_unique. rewrite Htop. split; [|done]. done. }
    rewrite (shr_fexp_shift _ _ _ 1)
      by (cbn [Zdigits2]; rewrite Hd1, fexp_normal; lia).
    cbn [shr_record_of_loc SpecFloat.iter_pos].
    rewrite shr_1_nonneg by lia. cbn [shr_m].
    rewrite Htop. change (2 ^ 53 / 2) with (Z.pos (2 ^ 52)).
    cbv beta iota.
    rewrite (proj2 (Z.leb_le _ _)) by (unfold emax, prec; lia).
    eexists _, _. split; [done|]. split; [lia|].
    replace (E + 1 - E) with 1 by lia. done.
  - assert (Z.pos (digits2_pos p1) = 53) as Hd1.
    { apply digits2_unique. lia. }
    rewrite shr_fexp_keep
      by (cbn [Zdigits2]; rewrite Hd1, fexp_normal; lia).
    cbn [shr_record_of_loc shr_m]. cbv beta iota.
    rewrite (proj2 (Z.leb_le _ _)) by (unfold emax, prec; lia).
    eexists _, _. split; [done|]. split; [lia|].
    replace (E - E) with 0 by lia. lia.
Qed.

(** Rounding a quotient: [M] of 53 or 54 digits with a remainder [r] out
    of [D], located as [SFdiv] locates it, goes to a nearest binary64. *)
Lemma round_located (M : positive) E r D d :
  Z.pos (digits2_pos M) = d → 53 <= d <= 54 → 0 <= r < D →
  -1074 <= E → E + 2 <= 971 →
  ∃ m' e',
    binary_round_aux prec emax false (Z.pos M) E
      (if r =? 0 then loc_Exact else loc_Inexact (2 * r ?= D))
    = S754_finite false m' e'
    ∧ E <= e' <= E + 2
    ∧ 2 * Z.abs (Z.pos m' * 2 ^ (e' - E) * D - (Z.pos M * D + r))
      <= 2 ^ (e' - E) * D.
Proof.
  intros Hd Hd2 Hr HE1 HE2.
  pose proof (digits2_bounds M) as HM. rewrite Hd in HM.
  set (l := if r =? 0 then loc_Exact else loc_Inexact (2 * r ?= D)).
  unfold binary_round_aux.
  destruct (Z.eq_dec d 53) as [->|Hd54].
  - rewrite shr_fexp_keep
      by (cbn [Zdigits2]; rewrite Hd, fexp_normal; lia).
    destruct (loc_of_shr_record_of_loc (Z.pos M) l) as [-> ->].
    set (m1 := round_nearest_even (Z.pos M) l).
    assert (Z.pos M <= m1 <= Z.pos M + 1
            ∧ 2 * Z.abs (m1 * D - (Z.pos M * D + r)) <= D) as [Hm1 Herr].
    { unfold m1, l. destruct (Z.eqb_spec r 0) as [->|Hr0];
        cbn [round_nearest_even].
      { split; lia. }
      destruct (Z.compare_spec (2 * r) D) as [Heq|Hlt|Hgt];
        cbn [round_nearest_even].
      - match goal with |- context [if ?b then _ else _] => destruct b end;
          split; lia.
      - split; lia.
      - split; lia. }
    change (2 ^ (53 - 1)) with (2 ^ 52) in HM.
    destruct (round_carry m1 E) as (m' & e' & -> & He' & Hval);
      [lia|lia|lia|].
    exists m', e'. split; [done|]. split; [lia|].
    assert (0 < 2 ^ (e' - E)) as HP by (apply Z.pow_pos_nonneg; lia).
    rewrite Hval. assert (e' = E ∨ e' = E + 1) as [->| ->] by lia.
    + replace (E - E) with 0 by lia. change (2 ^ 0) with 1. lia.
    + replace (E + 1 - E) with 1 by lia. change (2 ^ 1) with 2. lia.
  - assert (d = 54) as -> by lia.
    rewrite (shr_fexp_shift _ _ _ 1)
      by (cbn [Zdigits2]; rewrite Hd, fexp_normal; lia).
    cbn [SpecFloat.iter_pos].
    assert (∃ r0 s0, shr_record_of_loc (Z.pos M) l
                     = {| shr_m := Z.pos M; shr_r := r0; shr_s := s0 |}
                     ∧ r0 || s0 = negb (r =? 0)) as (r0 & s0 & -> & Hrs).
    { unfold l. destruct (r =? 0); [by eexists _, _|].
      destruct (2 * r ?= D); by eexists _, _. }
    rewrite shr_1_nonneg by lia. rewrite Hrs.
    set (h := Z.pos M / 2).
    assert (Z.pos M = 2 * h + (if Z.odd (Z.pos M) then 1 else 0)) as HMh.
    { unfold h. rewrite (Z.div_mod (Z.pos M) 2) at 1 by lia.
      rewrite Zmod_odd. by destruct (Z.odd (Z.pos M)). }
    cbn [shr_m].
    set (m1 := round_nearest_even h _).
    assert (h <= m1 <= h + 1
            ∧ 2 * Z.abs (m1 * 2 * D - (Z.pos M * D + r)) <= 2 * D)
      as [Hm1 Herr].
    { unfold m1. clear m1. clearbody h.
      destruct (Z.odd (Z.pos M)); destruct (Z.eqb_spec r 0) as [->|Hr0];
        cbn [negb loc_of_shr_record round_nearest_even]; rewrite HMh.
      - match goal with |- context [if ?b then _ else _] => destruct b end;
          split; lia.
      - split; lia.
      - split; lia.
      - split; lia. }
    change (2 ^ (54 - 1)) with (2 ^ 53) in HM.
    assert (2 ^ 52 <= h < 2 ^ 53) as Hh.
    { change (2 ^ 54) with (2 * 2 ^ 53) in HM.
      change (2 ^ 53) with (2 * 2 ^ 52) in HM at 1.
      destruct (Z.odd (Z.pos M)); lia. }
    destruct (round_carry m1 (E + 1)) as (m' & e' & -> & He' & Hval);
      [lia|lia|lia|].
    exists m', e'. split; [done|]. split; [lia|].
    assert (e' = E + 1 ∨ e' = E + 2) as [->| ->] by lia.
    + replace (E + 1 - (E + 1)) with 0 in Hval by lia.
      replace (E + 1 - E) with 1 by lia.
      change (2 ^ 0) with 1 in Hval. change (2 ^ 1) with 2. 
      replace (Z.pos m') with m1 by lia. lia.
    + replace (E + 2 - (E + 1)) with 1 in Hval by lia.
      replace (E + 2 - E) with 2 by lia.
      change (2 ^ 1) with 2 in Hval. change (2 ^ 2) with 4.
      replace (Z.pos m' * 4 * D) with (m1 * 2 * D) by lia. lia.
Qed.

(** [fromKobo] of a whole number of smallest units is the binary64
    nearest to its hundredth. *)
Lemma fromKobo_two_decimals x mx ex k :
  Prim2SF x = S754_finite false mx ex → ex < 0 →
  Z.pos mx = k * 2 ^ (- ex) → 1 <= k < 2 ^ 50 →
  two_decimals (paystackService.fromKobo x) k.
Proof.
  intros Hx Hex Hval Hk.
  destruct (finite_canonical _ _ _ _ Hx) as [Hcanon _].
  pose proof (digits2_bounds mx) as Hm.
  set (d := Z.pos (digits2_pos mx)) in *.
  assert (0 < 2 ^ (- ex)) as HP by (apply Z.pow_pos_nonneg; lia).
  assert (- ex < d) as Hlow.
  { assert (2 ^ (- ex) < 2 ^ d) as Hlt by nia.
    apply pow2_lt_inv in Hlt; [done|unfold d; lia]. }
  assert (d = 53) as Hd by lia.
  rewrite Hd in Hm. change (2 ^ (53 - 1)) with (2 ^ 52) in Hm.
  assert (-52 <= ex <= -3) as Hrange.
  { split; [lia|].
    assert (2 ^ 52 < 2 ^ (50 - ex)) as Hlt.
    { replace (50 - ex) with (50 + - ex) by lia.
      rewrite Z.pow_add_r by lia. nia. }
    apply pow2_lt_inv in Hlt; lia. }
  unfold two_decimals, paystackService.fromKobo.
  rewrite div_spec, Hx, hundred.
  unfold SF64div, SFdiv, SFdiv_core_binary. cbn [Zdigits2]. fold d.
  rewrite Hd.
  change (Z.pos (digits2_pos 7036874417766400)) with 53.
  cbv zeta.
  replace (53 + ex - (53 + -46)) with (ex + 46) by lia.
  rewrite fexp_normal by lia.
  rewrite Z.min_l by lia.
  replace (ex - -46 - (ex + 46 - 53)) with 53 by lia.
  rewrite Z.shiftl_mul_pow2 by lia.
  pose proof (Z.div_eucl_eq (Z.pos mx * 2 ^ 53) 7036874417766400
                ltac:(lia)) as Hdiv.
  pose proof (Z.mod_pos_bound (Z.pos mx * 2 ^ 53) 7036874417766400
                ltac:(lia)) as Hrem.
  unfold Z.modulo in Hrem.
  change IntDef.Z.div_eucl with Z.div_eucl.
  destruct (Z.div_eucl (Z.pos mx * 2 ^ 53) 7036874417766400) as [q r].
  unfold new_location. change (Z.even 7036874417766400) with true.
  cbv iota. unfold new_location_even. cbn [xorb].
  change (2 ^ 53) with 9007199254740992 in Hdiv, Hm.
  change (2 ^ 52) with 4503599627370496 in Hm.
  assert (4503599627370496 <= q < 18014398509481984) as Hq
    by (clear - Hdiv Hrem Hm; lia).
  destruct q as [|qp|]; try lia.
  pose proof (digits2_bounds qp) as Hqd.
  set (dq := Z.pos (digits2_pos qp)) in *.
  assert (53 <= dq <= 54) as Hdq.
  { split.
    - assert (2 ^ 52 < 2 ^ dq) as Hlt
        by (change (2 ^ 52) with 4503599627370496; lia).
      apply pow2_lt_inv in Hlt; [lia|unfold dq; lia].
    - assert (2 ^ (dq - 1) < 2 ^ 54) as Hlt
        by (change (2 ^ 54) with 18014398509481984; lia).
      apply pow2_lt_inv in Hlt; lia. }
  destruct (round_located qp (ex + 46 - 53) r 7036874417766400 dq)
    as (m' & e' & -> & He' & Herr); [done|done|done|lia|lia|].
  rewrite (proj2 (Z.ltb_lt _ _)) by lia.
  replace (Z.pos qp * 7036874417766400 + r)
    with (Z.pos mx * 9007199254740992) in Herr by lia.
  clear Hdiv Hq Hqd Hdq dq Hrem.
  assert (e' = ex - 7 ∨ e' = ex - 6 ∨ e' = ex - 5) as [->|[->| ->]] by lia.
  - replace (ex - 7 - (ex + 46 - 53)) with 0 in Herr by lia.
    replace (- (ex - 7)) with (- ex + 7) by lia.
    rewrite Z.pow_add_r, Z.mul_assoc, <- Hval by lia.
    change (2 ^ 0) with 1 in Herr. change (2 ^ 7) with 128.
    clear - Herr. lia.
  - replace (ex - 6 - (ex + 46 - 53)) with 1 in Herr by lia.
    replace (- (ex - 6)) with (- ex + 6) by lia.
    rewrite Z.pow_add_r, Z.mul_assoc, <- Hval by lia.
    change (2 ^ 1) with 2 in Herr. change (2 ^ 6) with 64.
    clear - Herr. lia.
  - replace (ex - 5 - (ex + 46 - 53)) with 2 in Herr by lia.
    replace (- (ex - 5)) with (- ex + 5) by lia.
    rewrite Z.pow_add_r, Z.mul_assoc, <- Hval by lia.
    change (2 ^ 2) with 4 in Herr. change (2 ^ 5) with 32.
    clear - Herr. lia.
Qed.

(** X25. The round trip of the two conversions: an amount of [k]
    smallest units, [0 <= k < 2^50], taken to major units by [fromKobo] and
    back by [toKobo], is [k] again, although most quotients [k / 100] are
    not binary64 numbers. *)
Theorem kobo_round_trip x k :
  Number_to_Z x = Some k → 0 <= k < 2 ^ 50 →
  Number_to_Z (paystackService.toKobo (paystackService.fromKobo x)) = Some k.
Proof.
  intros Hx Hk. apply toKobo_exact; [done|].
  unfold Number_to_Z in Hx.
  destruct (Prim2SF x) as [s|s| |s m e] eqn:Hsf; try done.
  - injection Hx as <-. unfold two_decimals, paystackService.fromKobo.
    rewrite div_spec, Hsf, hundred. by cbn [SF64div SFdiv].
  - destruct (finite_canonical _ _ _ _ Hsf) as [Hcanon _].
    pose proof (digits2_bounds m) as Hm.
    destruct (0 <=? e) eqn:He.
    + (* a mantissa of 53 digits at a non-negative exponent is too large *)
      apply Z.leb_le in He. injection Hx as <-.
      assert (Z.pos (digits2_pos m) = 53) as Hd by lia.
      rewrite Hd in Hm. change (2 ^ (53 - 1)) with (2 ^ 52) in Hm.
      assert (0 < 2 ^ e) by (apply Z.pow_pos_nonneg; lia).
      destruct s; [lia|].
      assert (2 ^ 52 <= Z.pos m * 2 ^ e) by nia.
      change (2 ^ 50) with 1125899906842624 in Hk.
      change (2 ^ 52) with 4503599627370496 in *. lia.
    + apply Z.leb_gt in He.
      assert (0 < 2 ^ (- e)) as HP by (apply Z.pow_pos_nonneg; lia).
      destruct ((if s then Z.neg m else Z.pos m) mod 2 ^ (- e) =? 0)
        eqn:Hmod; [|done].
      apply Z.eqb_eq in Hmod. injection Hx as <-.
      pose proof (Z.div_mod (if s then Z.neg m else Z.pos m) (2 ^ (- e))
                    ltac:(lia)) as Hdm.
      rewrite Hmod, Z.add_0_r in Hdm.
      set (k := (if s then Z.neg m else Z.pos m) / 2 ^ (- e)) in *.
      destruct s.
      * assert (k < 0) by nia. lia.
      * apply (fromKobo_two_decimals x m e k); [done|done|lia|nia].
Qed.

Lemma kobo_round_trip_witness :
  Number_to_Z (paystackService.toKobo (paystackService.fromKobo 1999%float))
  = Some 1999.
Proof.
  apply (kobo_round_trip 1999%float 1999); [reflexivity|].
  split; [lia|reflexivity].
Defined.
